(** * Studio Lighting Controller: the DMX engine, embedded and verified

    A shallow embedding of the main-process classes of the controller
    (DMXUniverse, DMXDriver, FadeEngine, FixtureManager, PresetManager,
    CompanionServer) together with the properties their specification
    states about them.

    JavaScript numbers are IEEE 754 binary64 values; they are modelled by
    the [spec_float] type of the standard library at precision 53 and
    maximal exponent 1024, whose operations round exactly as the hardware
    does.  Mutable objects are records threaded through a small
    state-and-trace monad; every observable side effect (a listener call, a
    log line, a frame sent on a socket) is an event of the trace. *)

From Stdlib Require Import ZArith Lia List Bool.
From Stdlib Require Import SpecFloat.
From stdpp Require Import base option list strings pretty.

(** ** State-and-trace monad *)

Module Eff.
Definition M (S E A : Type) : Type := S -> A * S * list E.

Definition ret {S E A} (a : A) : M S E A := fun s => (a, s, []).

Definition bind {S E A B} (c : M S E A) (k : A -> M S E B) : M S E B :=
  fun s =>
    let '(a, s1, t1) := c s in
    let '(b, s2, t2) := k a s1 in
    (b, s2, t1 ++ t2).

Definition get {S E} : M S E S := fun s => (s, s, []).
Definition put {S E} (s : S) : M S E unit := fun _ => (tt, s, []).
Definition emit {S E} (e : E) : M S E unit := fun s => (tt, s, [e]).

Definition value {S E A} (r : A * S * list E) : A := r.1.1.
Definition state {S E A} (r : A * S * list E) : S := r.1.2.
Definition trace {S E A} (r : A * S * list E) : list E := r.2.

(** A method of an object held in a field: run [c] on the part [proj s]
    of the state, store the part back, and inject its events. *)
Definition zoom {S1 S2 E1 E2 A} (proj : S2 -> S1) (upd : S2 -> S1 -> S2)
    (inj : E1 -> E2) (c : M S1 E1 A) : M S2 E2 A :=
  fun s => let '(a, s1, t) := c (proj s) in (a, upd s s1, inj <$> t).

(** [for (const x of xs) body(x)] *)
Fixpoint for_of {S E X} (xs : list X) (body : X -> M S E unit) : M S E unit :=
  match xs with
  | [] => ret tt
  | x :: xs' => bind (body x) (fun _ => for_of xs' body)
  end.
End Eff.

#[global] Instance M_ret {S E} : MRet (Eff.M S E) := fun A => Eff.ret.
#[global] Instance M_bind {S E} : MBind (Eff.M S E) := fun A B k c => Eff.bind c k.

(** [for (let i = 0; i < n; i++) acc = body(i, acc)] *)
Definition for_range {A} (n : nat) (body : nat -> A -> A) (acc : A) : A :=
  foldl (fun a i => body i a) acc (seq 0 n).

(** ** JavaScript numbers *)

Module JS.
Definition prec : Z := 53.
Definition emax : Z := 1024.

Definition number := spec_float.

Definition NaN : number := S754_nan.
Definition of_Z (z : Z) : number := binary_normalize prec emax z 0 false.

Definition add : number -> number -> number := SFadd prec emax.
Definition sub : number -> number -> number := SFsub prec emax.
Definition mul : number -> number -> number := SFmul prec emax.
Definition div : number -> number -> number := SFdiv prec emax.

(** [a < b], [a <= b], [a > b], [a >= b]; all false when an operand is NaN. *)
Definition lt (a b : number) : bool := SFltb a b.
Definition le (a b : number) : bool := SFleb a b.
Definition gt (a b : number) : bool := SFltb b a.
Definition ge (a b : number) : bool := SFleb b a.

(** [!x] holds of NaN and of both zeros. *)
Definition falsy (x : number) : bool :=
  match x with
  | S754_nan | S754_zero _ => true
  | _ => false
  end.

(** [a[i] || 0], where a missing element reads as [undefined]. *)
Definition or_zero (x : option number) : number :=
  match x with
  | Some v => if falsy v then of_Z 0 else v
  | None => of_Z 0
  end.

(** The numbers of integral value: what [Math.round] returns.  A finite
    one is represented by its value, which the double holds exactly. *)
Inductive integral :=
| Int (z : Z)
| IntNaN
| IntInf (negative : bool).

Definition to_number (r : integral) : number :=
  match r with
  | Int z => of_Z z
  | IntNaN => S754_nan
  | IntInf s => S754_infinity s
  end.

(** [Math.round]: the nearest integer, ties going towards +infinity. *)
Definition Math_round (x : number) : integral :=
  match x with
  | S754_nan => IntNaN
  | S754_infinity s => IntInf s
  | S754_zero _ => Int 0
  | S754_finite s m e =>
      let v := if s then Z.neg m else Z.pos m in
      match e with
      | Z.neg p => Int ((2 * v + 2 ^ Z.pos p) / 2 ^ (Z.pos p + 1))
      | _ => Int (v * 2 ^ e)
      end
  end.

(** [Math.max] and [Math.min] on numbers of integral value. *)
Definition Math_max (a b : integral) : integral :=
  match a, b with
  | IntNaN, _ | _, IntNaN => IntNaN
  | IntInf false, _ | _, IntInf false => IntInf false
  | IntInf true, y => y
  | x, IntInf true => x
  | Int x, Int y => Int (Z.max x y)
  end.

Definition Math_min (a b : integral) : integral :=
  match a, b with
  | IntNaN, _ | _, IntNaN => IntNaN
  | IntInf true, _ | _, IntInf true => IntInf true
  | IntInf false, y => y
  | x, IntInf false => x
  | Int x, Int y => Int (Z.min x y)
  end.

(** [Math.min] on arbitrary numbers. *)
Definition Math_fmin (a b : number) : number :=
  match SFcompare a b with
  | None => S754_nan
  | Some Gt => b
  | Some Lt => a
  | Some Eq => match a, b with S754_zero false, S754_zero true => b | _, _ => a end
  end.

(** Conversion applied by a store into a [Uint8Array] or a [Buffer]. *)
Definition ToUint8 (r : integral) : Z :=
  match r with
  | Int z => z mod 256
  | _ => 0
  end.

(** A number used as the index of a typed array: only a non-negative
    integer designates an element. *)
Definition as_index (x : number) : option nat :=
  match x with
  | S754_zero _ => Some 0%nat
  | S754_finite false m e =>
      match e with
      | Z.neg p =>
          if (Z.pos m mod 2 ^ Z.pos p =? 0)%Z
          then Some (Z.to_nat (Z.pos m / 2 ^ Z.pos p))
          else None
      | _ => Some (Z.to_nat (Z.pos m * 2 ^ e))
      end
  | _ => None
  end.

(** [Math.max(0, Math.min(255, Math.round(v)))] *)
Definition clamp255 (v : number) : integral :=
  Math_max (Int 0) (Math_min (Int 255) (Math_round v)).
End JS.

(** ** dmx-universe.ts *)

Module DMXUniverse.
Import JS.

Definition listener := nat.

Inductive event :=
| ListenerCalled (l : listener) (state : list Z)
| LogWarnInvalidChannel (channel : number)
| LogDebugMaster (master : integral)
| LogInfoBlackout.

Record t := mk {
  channels : list Z;
  masterDimmer : integral;
  listeners : list listener
}.

Definition with_channels (u : t) (c : list Z) : t :=
  mk c (masterDimmer u) (listeners u).
Definition with_master (u : t) (m : integral) : t :=
  mk (channels u) m (listeners u).
Definition with_listeners (u : t) (ls : list listener) : t :=
  mk (channels u) (masterDimmer u) ls.

Definition M := Eff.M t event.

Definition constructor : t := mk (replicate 512 0%Z) (Int 255) [].

(** Element read [a[i]] as an operand of arithmetic. *)
Definition read (a : list Z) (i : nat) : number :=
  match a !! i with
  | Some b => of_Z b
  | None => NaN
  end.

Definition getState : M (list Z) :=
  u ← Eff.get;
  let output := replicate 512 0%Z in
  let masterScale := div (to_number (masterDimmer u)) (of_Z 255) in
  Eff.ret
    (for_range 512
       (fun i output => <[i := ToUint8 (Math_round (mul (read (channels u) i) masterScale))]> output)
       output).

Definition notifyListeners : M unit :=
  state ← getState;
  u ← Eff.get;
  Eff.for_of (listeners u) (fun l => Eff.emit (ListenerCalled l state)).

(** The store [this.channels[index] = value]. *)
Definition store (c : list Z) (index : number) (value : integral) : list Z :=
  match as_index index with
  | Some i => <[i := ToUint8 value]> c
  | None => c
  end.

Definition setChannel (channel value : number) : M unit :=
  if lt channel (of_Z 1) || gt channel (of_Z 512) then
    Eff.emit (LogWarnInvalidChannel channel)
  else
    let clamped := clamp255 value in
    u ← Eff.get;
    Eff.put (with_channels u (store (channels u) (sub channel (of_Z 1)) clamped));;
    notifyListeners.

(** [values] is given as the list of its entries in the order of
    [Object.entries], each key already converted by [Number]. *)
Definition setChannels (values : list (number * number)) : M unit :=
  u ← Eff.get;
  Eff.put (with_channels u
    (foldl (fun c '(ch, value) =>
              if ge ch (of_Z 1) && le ch (of_Z 512)
              then store c (sub ch (of_Z 1)) (clamp255 value)
              else c)
           (channels u) values));;
  notifyListeners.

Definition getRawState : M (list Z) :=
  u ← Eff.get; Eff.ret (channels u).

Definition getMasterDimmer : M integral :=
  u ← Eff.get; Eff.ret (masterDimmer u).

Definition setMasterDimmer (value : number) : M unit :=
  u ← Eff.get;
  Eff.put (with_master u (clamp255 value));;
  Eff.emit (LogDebugMaster (clamp255 value));;
  notifyListeners.

Definition onChange (callback : listener) : M unit :=
  u ← Eff.get;
  if decide (callback ∈ listeners u) then Eff.ret tt
  else Eff.put (with_listeners u (listeners u ++ [callback])).

Definition offChange (callback : listener) : M unit :=
  u ← Eff.get;
  Eff.put (with_listeners u (filter (fun l => l ≠ callback) (listeners u))).

Definition applySnapshot (snapshot : list number) : M unit :=
  u ← Eff.get;
  Eff.put (with_channels u
    (for_range 512
       (fun i c => <[i := ToUint8 (clamp255 (or_zero (snapshot !! i)))]> c)
       (channels u)));;
  notifyListeners.

Definition blackout : M unit :=
  u ← Eff.get;
  Eff.put (with_channels u (replicate (length (channels u)) 0%Z));;
  notifyListeners;;
  Eff.emit LogInfoBlackout.

Definition getRawChannelsArray : M (list number) :=
  u ← Eff.get; Eff.ret (of_Z <$> channels u).

(** The two views the specification names. *)
Definition getRaw := getRawState.
Definition getEffective := getState.
End DMXUniverse.


(** ** Loops and traces *)

Arguments for_range : simpl never.

Lemma for_range_S {B} n (body : nat -> B -> B) acc :
  for_range (S n) body acc = body n (for_range n body acc).
Proof. unfold for_range. rewrite seq_S, foldl_app. reflexivity. Qed.

Section ForRange.
Context {A : Type}.
Implicit Types (f : nat -> A) (l : list A).

Lemma for_range_insert_length n f l :
  length (for_range n (fun i acc => <[i := f i]> acc) l) = length l.
Proof.
  induction n as [|n IH]; [reflexivity|].
  rewrite for_range_S, length_insert. exact IH.
Qed.

Lemma for_range_insert_lookup_lt n f l i :
  (i < n)%nat -> (i < length l)%nat ->
  for_range n (fun i acc => <[i := f i]> acc) l !! i = Some (f i).
Proof.
  induction n as [|n IH]; intros Hn Hl; [lia|].
  rewrite for_range_S.
  destruct (decide (i = n)) as [->|Hne].
  - apply list_lookup_insert_eq. rewrite for_range_insert_length. exact Hl.
  - rewrite list_lookup_insert_ne by congruence. apply IH; lia.
Qed.

Lemma for_range_insert_lookup_ge n f l i :
  (n <= i)%nat ->
  for_range n (fun i acc => <[i := f i]> acc) l !! i = l !! i.
Proof.
  induction n as [|n IH]; intros Hn; [reflexivity|].
  rewrite for_range_S, list_lookup_insert_ne by lia. apply IH. lia.
Qed.

Lemma for_range_insert_Forall (P : A -> Prop) n f l :
  Forall P l -> (forall i, P (f i)) ->
  Forall P (for_range n (fun i acc => <[i := f i]> acc) l).
Proof.
  intros Hl Hf. induction n as [|n IH]; [exact Hl|].
  rewrite for_range_S. apply Forall_insert; auto.
Qed.
End ForRange.

Lemma for_of_emit {S E X} (xs : list X) (f : X -> E) (s : S) :
  Eff.for_of xs (fun x => Eff.emit (f x)) s = (tt, s, f <$> xs).
Proof.
  induction xs as [|x xs IH]; [reflexivity|].
  cbn [Eff.for_of]. unfold Eff.bind.
  change (Eff.emit (f x) s) with (tt, s, [f x]). cbv beta iota zeta.
  rewrite IH. reflexivity.
Qed.

(** ** Numbers: rounding and clamping *)

Module JSFacts.
Import JS.
Local Open Scope Z_scope.

Definition byte (b : Z) : Prop := 0 <= b <= 255.

#[global] Instance byte_dec b : Decision (byte b).
Proof. unfold byte. apply _. Defined.

Lemma ToUint8_byte r : byte (ToUint8 r).
Proof.
  unfold byte. destruct r; cbn; try lia.
  pose proof (Z.mod_pos_bound z 256). lia.
Qed.

Lemma ToUint8_Int_byte b : byte b -> ToUint8 (Int b) = b.
Proof. unfold byte. intros H. cbn. apply Z.mod_small. lia. Qed.

(** The clamp yields a byte, or NaN when (and only when) it is given NaN. *)
Lemma clamp255_cases v :
  (v = S754_nan /\ clamp255 v = IntNaN) \/
  (v <> S754_nan /\ exists b, byte b /\ clamp255 v = Int b).
Proof.
  unfold clamp255, byte.
  destruct v as [s|s| |s m e]; cbn [Math_round].
  - right. split; [discriminate|]. exists 0. cbn. split; [lia|reflexivity].
  - right. split; [discriminate|]. destruct s; cbn.
    + exists 0. split; [lia|reflexivity].
    + exists 255. split; [lia|reflexivity].
  - left. split; reflexivity.
  - right. split; [discriminate|].
    destruct e; cbn [Math_min Math_max]; eexists; (split; [|reflexivity]); lia.
Qed.

Lemma clamp255_NaN : clamp255 NaN = IntNaN.
Proof. reflexivity. Qed.

Lemma ToUint8_clamp255_byte v : byte (ToUint8 (clamp255 v)).
Proof. apply ToUint8_byte. Qed.

(** [round_ratio n d]: the integer nearest to the exact quotient n/d,
    a tie going up; this is the mathematical [round(n / d)]. *)
Definition round_ratio (n d : Z) : Z := (2 * n + d) / (2 * d).

Lemma round_ratio_nearest n d :
  0 < d ->
  2 * d * round_ratio n d - d <= 2 * n < 2 * d * round_ratio n d + d.
Proof.
  intros Hd. unfold round_ratio.
  pose proof (Z.div_mod (2 * n + d) (2 * d) ltac:(lia)).
  pose proof (Z.mod_pos_bound (2 * n + d) (2 * d) ltac:(lia)).
  nia.
Qed.

Definition bytes : list Z := Z.of_nat <$> seq 0 256.

Lemma elem_of_bytes b : byte b -> b ∈ bytes.
Proof.
  unfold byte, bytes. intros H.
  apply list_elem_of_fmap. exists (Z.to_nat b). split; [lia|].
  apply elem_of_seq. lia.
Qed.

Lemma forallb_bytes (P : Z -> bool) b :
  forallb P bytes = true -> byte b -> P b = true.
Proof.
  intros H Hb. rewrite forallb_forall in H.
  apply H, list_elem_of_In, elem_of_bytes, Hb.
Qed.

(** A table over all pairs of bytes, each row sharing a value [f m]. *)
Lemma forallb_bytes2 {T} (f : Z -> T) (g : T -> Z -> Z -> bool) :
  forallb (fun m => forallb (g (f m) m) bytes) bytes = true ->
  forall m c, byte m -> byte c -> g (f m) m c = true.
Proof.
  intros H m c Hm Hc.
  apply (forallb_bytes (g (f m) m) c); [|exact Hc].
  exact (forallb_bytes (fun m => forallb (g (f m) m) bytes) m H Hm).
Qed.

(** The scaling of [getState], in double precision, against the exact
    rounded quotient: all 65536 pairs of bytes. *)
Definition scale_ok (masterScale : number) (m c : Z) : bool :=
  ToUint8 (Math_round (mul (of_Z c) masterScale)) =? round_ratio (c * m) 255.

Lemma scale_table :
  forallb (fun m => forallb (scale_ok (div (of_Z m) (of_Z 255)) m) bytes) bytes = true.
Proof. vm_compute. reflexivity. Qed.

Lemma scale_exact c m :
  byte c -> byte m ->
  ToUint8 (Math_round (mul (of_Z c) (div (of_Z m) (of_Z 255)))) = round_ratio (c * m) 255.
Proof.
  intros Hc Hm. apply Z.eqb_eq.
  exact (forallb_bytes2 (fun m => div (of_Z m) (of_Z 255)) scale_ok scale_table m c Hm Hc).
Qed.
End JSFacts.

(** ** Doubles: a quotient that reaches 1 *)

Module DoubleFacts.
Import JS.
Local Open Scope Z_scope.

(** A double in the representation the hardware has: the mantissa is
    normalised, or the exponent is the least one. *)
Definition double (x : number) : Prop := valid_binary prec emax x = true.

Definition isFinite (x : number) : bool :=
  match x with
  | S754_zero _ | S754_finite _ _ _ => true
  | _ => false
  end.

(** *** Binary digits *)

Lemma digits2_size p : digits2_pos p = Pos.size p.
Proof.
  induction p as [p IH|p IH|]; cbn; congruence.
Qed.

Lemma digits_log2 p : Z.pos (digits2_pos p) = Z.succ (Z.log2 (Z.pos p)).
Proof.
  rewrite digits2_size. destruct p; cbn [Pos.size Z.log2]; lia.
Qed.

Lemma digits_bounds p :
  2 ^ (Z.pos (digits2_pos p) - 1) <= Z.pos p < 2 ^ Z.pos (digits2_pos p).
Proof.
  rewrite digits_log2.
  replace (Z.succ (Z.log2 (Z.pos p)) - 1) with (Z.log2 (Z.pos p)) by lia.
  apply Z.log2_spec. lia.
Qed.

Lemma digits_unique z k :
  2 ^ (k - 1) <= z < 2 ^ k -> 0 < k -> Zdigits2 z = k.
Proof.
  intros Hz Hk.
  assert (0 < z) by (pose proof (Z.pow_pos_nonneg 2 (k - 1)); lia).
  destruct z as [|p|p]; try lia.
  cbn [Zdigits2]. rewrite digits_log2.
  rewrite (Z.log2_unique (Z.pos p) (k - 1)); [lia|lia|].
  replace (Z.succ (k - 1)) with k by lia. exact Hz.
Qed.

Lemma digits_ge z k : 0 <= k -> 2 ^ k <= z -> k + 1 <= Zdigits2 z.
Proof.
  intros Hk Hz.
  assert (0 < z) by (pose proof (Z.pow_pos_nonneg 2 k); lia).
  destruct z as [|p|p]; try lia.
  cbn [Zdigits2]. rewrite digits_log2.
  pose proof (Z.log2_le_pow2 (Z.pos p) k). lia.
Qed.

Lemma digits_shifted p d : digits2_pos (Pos.iter xO p d) = (digits2_pos p + d)%positive.
Proof.
  induction d as [|d IH] using Pos.peano_ind.
  - cbn. lia.
  - rewrite Pos.iter_succ. cbn [digits2_pos]. rewrite IH. lia.
Qed.

(** *** Shifting to the right *)

Lemma iter_pos_nat {A} (f : A -> A) p x :
  SpecFloat.iter_pos f p x = Nat.iter (Pos.to_nat p) f x.
Proof.
  revert x. induction p as [p IH|p IH|]; intros x; cbn [SpecFloat.iter_pos].
  - rewrite !IH, Pos2Nat.inj_xI.
    replace (S (2 * Pos.to_nat p)) with (Pos.to_nat p + Pos.to_nat p + 1)%nat by lia.
    rewrite !Nat.iter_add. reflexivity.
  - rewrite !IH, Pos2Nat.inj_xO.
    replace (2 * Pos.to_nat p)%nat with (Pos.to_nat p + Pos.to_nat p)%nat by lia.
    rewrite Nat.iter_add. reflexivity.
  - reflexivity.
Qed.

Lemma shr_1_m mrs : 0 <= shr_m mrs -> shr_m (shr_1 mrs) = Z.div2 (shr_m mrs).
Proof.
  destruct mrs as [[|[p|p|]|p] r s]; cbn; intros H; try reflexivity; lia.
Qed.

Lemma shr_m_iter n mrs :
  0 <= shr_m mrs -> shr_m (Nat.iter n shr_1 mrs) = shr_m mrs / 2 ^ Z.of_nat n.
Proof.
  intros Hm. induction n as [|n IH].
  - cbn. rewrite Z.div_1_r. reflexivity.
  - change (Nat.iter (S n) shr_1 mrs) with (shr_1 (Nat.iter n shr_1 mrs)).
    rewrite shr_1_m.
    + rewrite IH, Z.div2_div, Nat2Z.inj_succ, Z.pow_succ_r by lia.
      rewrite Z.div_div by lia. f_equal. lia.
    + rewrite IH. apply Z.div_pos; lia.
Qed.

Lemma shr_m_shr m l e n :
  0 <= m -> 0 <= n ->
  shr_m (shr (shr_record_of_loc m l) e n).1 = m / 2 ^ n /\
  (shr (shr_record_of_loc m l) e n).2 = e + n.
Proof.
  intros Hm Hn.
  assert (Hrec : shr_m (shr_record_of_loc m l) = m) by (destruct l as [|[]]; reflexivity).
  destruct n as [|p|p]; [| |lia]; cbn [shr fst snd].
  - rewrite Hrec, Z.div_1_r. split; [reflexivity|lia].
  - rewrite iter_pos_nat, shr_m_iter, Hrec, positive_nat_Z by lia.
    split; reflexivity.
Qed.

Lemma round_nearest_even_cases m l :
  round_nearest_even m l = m \/ round_nearest_even m l = m + 1.
Proof.
  destruct l as [|[]]; cbn [round_nearest_even]; auto.
  destruct (Z.even m); auto.
Qed.

(** *** Rounding a mantissa of at least 53 bits *)

Lemma binary_round_aux_normal s m e l :
  0 < m -> 53 <= Zdigits2 m -> -1074 <= Zdigits2 m + e - 53 ->
  binary_round_aux prec emax s m e l = S754_infinity s \/
  exists m' e',
    binary_round_aux prec emax s m e l = S754_finite s m' e' /\
    Z.pos (digits2_pos m') = 53 /\
    Zdigits2 m + e - 53 <= e' <= emax - prec.
Proof.
  intros Hm Hd He.
  unfold binary_round_aux, shr_fexp.
  set (d := Zdigits2 m) in *.
  assert (Hfexp : fexp prec emax (d + e) = d + e - 53)
    by (unfold fexp, emin, prec, emax; lia).
  rewrite Hfexp.
  destruct (shr (shr_record_of_loc m l) e (d + e - 53 - e)) as [mrs1 e1] eqn:Hshr.
  destruct (shr_m_shr m l e (d + e - 53 - e)) as [Hm1 He1]; [lia|lia|].
  rewrite Hshr in Hm1, He1. cbn [fst snd] in Hm1, He1.
  replace (d + e - 53 - e) with (d - 53) in Hm1, He1 by lia.
  assert (Hb : 2 ^ 52 <= shr_m mrs1 < 2 ^ 53).
  { rewrite Hm1.
    assert (Hdb : 2 ^ (d - 1) <= m < 2 ^ d).
    { destruct m as [|p|p]; try lia. exact (digits_bounds p). }
    replace (d - 1) with (52 + (d - 53)) in Hdb by lia.
    replace d with (53 + (d - 53)) in Hdb at 2 by lia.
    rewrite !Z.pow_add_r in Hdb by lia.
    assert (0 < 2 ^ (d - 53)) by (apply Z.pow_pos_nonneg; lia).
    split.
    - apply Z.div_le_lower_bound; lia.
    - apply Z.div_lt_upper_bound; lia. }
  set (r := round_nearest_even (shr_m mrs1) (loc_of_shr_record mrs1)).
  assert (Hr : 2 ^ 52 <= r < 2 ^ 53 \/ r = 2 ^ 53).
  { destruct (round_nearest_even_cases (shr_m mrs1) (loc_of_shr_record mrs1)) as [Heq|Heq];
      fold r in Heq; lia. }
  destruct Hr as [Hr|Hr].
  - assert (Hdr : Zdigits2 r = 53) by (apply digits_unique; [exact Hr|lia]).
    rewrite Hdr.
    assert (Hf : fexp prec emax (53 + e1) - e1 = 0)
      by (unfold fexp, emin, prec, emax; lia).
    rewrite Hf. cbn [shr shr_record_of_loc shr_m].
    destruct r as [|p|p]; try lia.
    destruct (e1 <=? emax - prec) eqn:Hle.
    + right. exists p, e1. split; [reflexivity|]. split; [exact Hdr|].
      apply Z.leb_le in Hle. lia.
    + left. reflexivity.
  - rewrite Hr.
    change (Zdigits2 (2 ^ 53)) with 54.
    assert (Hf : fexp prec emax (54 + e1) - e1 = 1)
      by (unfold fexp, emin, prec, emax; lia).
    rewrite Hf. cbn [shr shr_record_of_loc shr_m SpecFloat.iter_pos].
    change (shr_m (shr_1 {| shr_m := 2 ^ 53; shr_r := false; shr_s := false |}))
      with (Z.pos 4503599627370496).
    cbv beta iota.
    destruct (e1 + 1 <=? emax - prec) eqn:Hle.
    + right. exists 4503599627370496%positive, (e1 + 1). split; [reflexivity|].
      split; [reflexivity|]. apply Z.leb_le in Hle. lia.
    + left. reflexivity.
Qed.

Lemma binary_round_aux_double s m e l :
  0 < m -> 53 <= Zdigits2 m -> -1074 <= Zdigits2 m + e - 53 ->
  double (binary_round_aux prec emax s m e l).
Proof.
  intros Hm Hd He.
  destruct (binary_round_aux_normal s m e l Hm Hd He) as [->|(m' & e' & -> & Hd' & He')];
    [reflexivity|].
  unfold double, valid_binary, bounded, canonical_mantissa. rewrite Hd'.
  apply andb_true_intro. split; [apply Z.eqb_eq|apply Z.leb_le].
  - unfold fexp, emin, prec, emax. lia.
  - lia.
Qed.

(** The conversion of an integer is a double. *)
Lemma binary_round_double s p : double (binary_round prec emax s p 0).
Proof.
  unfold binary_round, shl_align.
  assert (Hf : fexp prec emax (Z.pos (digits2_pos p) + 0) = Z.pos (digits2_pos p) - 53)
    by (unfold fexp, emin, prec, emax; lia).
  rewrite Hf, Z.sub_0_r.
  destruct (Z.pos (digits2_pos p) - 53) as [|q|q] eqn:Hq.
  - apply binary_round_aux_double; cbn [Zdigits2]; lia.
  - apply binary_round_aux_double; cbn [Zdigits2]; lia.
  - apply binary_round_aux_double; cbn [Zdigits2]; rewrite ?digits_shifted; lia.
Qed.

Lemma of_Z_double z : double (of_Z z).
Proof.
  destruct z as [|p|p]; [reflexivity| |]; apply binary_round_double.
Qed.

Lemma double_finite s m e :
  double (S754_finite s m e) ->
  Z.pos (digits2_pos m) <= 53 /\ -1074 <= e /\ (Z.pos (digits2_pos m) = 53 \/ e = -1074).
Proof.
  unfold double, valid_binary, bounded, canonical_mantissa, fexp, emin, prec, emax.
  intros H. apply andb_prop in H as [H _]. apply Z.eqb_eq in H. lia.
Qed.

(** *** A quotient of doubles that is at least 1 *)

(** The order of two positive doubles, on their mantissas. *)
Lemma le_finite mx ex my ey :
  double (S754_finite false mx ex) -> double (S754_finite false my ey) ->
  le (S754_finite false my ey) (S754_finite false mx ex) = true ->
  ey <= ex /\ Z.pos my <= Z.pos mx * 2 ^ (ex - ey).
Proof.
  intros Hx Hy. apply double_finite in Hx, Hy.
  unfold le, SFleb, SFcompare.
  pose proof (digits_bounds mx) as Hbx. pose proof (digits_bounds my) as Hby.
  destruct (Z.compare_spec ey ex) as [->|Hlt|Hgt].
  - change (Pos.compare_cont Eq my mx) with (Pos.compare my mx).
    destruct (Pos.compare_spec my mx) as [->|Hm|Hm]; intros H; try discriminate H;
      rewrite Z.sub_diag, Z.mul_1_r; lia.
  - intros _. split; [lia|].
    assert (Hdx : Z.pos (digits2_pos mx) = 53) by lia.
    rewrite Hdx in Hbx.
    assert (2 ^ 1 <= 2 ^ (ex - ey)) by (apply Z.pow_le_mono_r; lia).
    assert (Z.pos my < 2 ^ 53).
    { eapply Z.lt_le_trans; [apply Hby|]. apply Z.pow_le_mono_r; lia. }
    change (2 ^ (53 - 1)) with 4503599627370496 in Hbx.
    change (2 ^ 53) with 9007199254740992 in *.
    change (2 ^ 1) with 2 in *. nia.
  - discriminate.
Qed.

Lemma ge_one_finite m e :
  Z.pos (digits2_pos m) = 53 -> -52 <= e -> ge (S754_finite false m e) (of_Z 1) = true.
Proof.
  intros Hd He.
  change (of_Z 1) with (S754_finite false 4503599627370496 (-52)).
  unfold ge, SFleb, SFcompare.
  destruct (Z.compare_spec (-52) e) as [Heq|Hlt|Hgt]; [|reflexivity|lia].
  change (Pos.compare_cont Eq 4503599627370496 m) with (Pos.compare 4503599627370496 m).
  pose proof (digits_bounds m) as Hb. rewrite Hd in Hb.
  change (2 ^ (53 - 1)) with 4503599627370496 in Hb.
  destruct (Pos.compare_spec 4503599627370496 m) as [?|?|Hgt]; try reflexivity.
  apply Pos2Z.pos_lt_pos in Hgt. destruct Hb as [Hb _]. exfalso.
  exact (proj1 (Z.le_ngt _ _) Hb Hgt).
Qed.

(** The quotient of a double by a smaller positive one is at least 1:
    the division rounds, but never below 1, which is a double. *)
Lemma div_reaches_one x y :
  double x -> double y -> isFinite y = true ->
  gt y (of_Z 0) = true -> le y x = true ->
  ge (div x y) (of_Z 1) = true.
Proof.
  intros Hx Hy Hfin Hpos Hle.
  destruct y as [sy|sy| |sy my ey]; try discriminate.
  destruct sy; [discriminate|].
  destruct x as [sx|sx| |sx mx ex]; try discriminate.
  { destruct sx; [discriminate|]. reflexivity. }
  destruct sx; [discriminate|].
  destruct (le_finite mx ex my ey Hx Hy Hle) as [He Hm].
  apply double_finite in Hx, Hy.
  pose proof (digits_bounds mx) as Hbx. pose proof (digits_bounds my) as Hby.
  unfold div, SFdiv, SFdiv_core_binary. cbn [Zdigits2 xorb].
  set (d1 := Z.pos (digits2_pos mx)) in *. set (d2 := Z.pos (digits2_pos my)) in *.
  assert (Hd2 : 0 < d2) by (unfold d2; lia).
  assert (Hd1 : 0 < d1) by (unfold d1; lia).
  assert (Hk : d2 - 1 < d1 + (ex - ey)).
  { apply (Z.pow_lt_mono_r_iff 2); [lia|lia|].
    rewrite Z.pow_add_r by lia.
    assert (0 < 2 ^ (ex - ey)) by (apply Z.pow_pos_nonneg; lia). nia. }
  assert (He' : Z.min (fexp prec emax (d1 + ex - (d2 + ey))) (ex - ey)
                = d1 + ex - (d2 + ey) - 53)
    by (unfold fexp, emin, prec, emax; lia).
  rewrite He'.
  set (e' := d1 + ex - (d2 + ey) - 53).
  destruct (ex - ey - e') as [|s|s] eqn:Hs; [unfold e' in Hs; lia| |unfold e' in Hs; lia].
  rewrite Z.shiftl_mul_pow2 by lia.
  destruct (Z.div_eucl (Z.pos mx * 2 ^ Z.pos s) (Z.pos my)) as [q r] eqn:Hdiv.
  assert (Hq : q = Z.pos mx * 2 ^ Z.pos s / Z.pos my)
    by (unfold Z.div; rewrite Hdiv; reflexivity).
  assert (Hq52 : 2 ^ 52 <= q).
  { rewrite Hq. apply Z.div_le_lower_bound; [lia|].
    assert (Hpow : 2 ^ (d1 - 1) * 2 ^ Z.pos s = 2 ^ 52 * 2 ^ d2).
    { rewrite <- !Z.pow_add_r by lia. f_equal. unfold e' in Hs. lia. }
    assert (0 < 2 ^ Z.pos s) by (apply Z.pow_pos_nonneg; lia).
    change (2 ^ 52) with 4503599627370496 in *. nia. }
  assert (Hdq : 53 <= Zdigits2 q) by (apply (digits_ge q 52); lia).
  assert (Hone : 1 <= Zdigits2 q + e').
  { destruct (Z.le_gt_cases e' 0) as [Hneg|Hpos']; [|lia].
    assert (2 ^ (- e') <= q); [|pose proof (digits_ge q (- e')); lia].
    rewrite Hq. apply Z.div_le_lower_bound; [lia|].
    replace (Z.pos s) with ((ex - ey) + (- e')) by lia.
    rewrite Z.pow_add_r by lia.
    assert (0 < 2 ^ (- e')) by (apply Z.pow_pos_nonneg; lia). nia. }
  assert (Hq0 : 0 < q) by (change (2 ^ 52) with 4503599627370496 in Hq52; lia).
  destruct (binary_round_aux_normal false q e' (new_location (Z.pos my) r) Hq0 Hdq)
    as [->|(m' & e'' & -> & Hd' & He'')]; [lia|reflexivity|].
  apply ge_one_finite; [exact Hd'|lia].
Qed.
End DoubleFacts.

(** ** The universe: views, notifications, invariants *)

Module UniverseFacts.
Import JS JSFacts DMXUniverse.
Local Open Scope Z_scope.

(** The effective view of a state, and one round of notification: every
    registered listener called once, in registration order, with it. *)
Definition effective (u : t) : list Z := Eff.value (getState u).

Definition notification (u : t) : list event :=
  (fun l => ListenerCalled l (effective u)) <$> listeners u.

Lemma getState_run u : getState u = (effective u, u, []).
Proof. reflexivity. Qed.

Lemma notifyListeners_run u : notifyListeners u = (tt, u, notification u).
Proof.
  unfold notifyListeners, mbind, M_bind, Eff.bind.
  rewrite getState_run. cbv beta iota zeta.
  change (Eff.get u) with (u, u, @nil event). cbv beta iota zeta.
  rewrite for_of_emit. reflexivity.
Qed.

Definition apply_entry (c : list Z) (entry : number * number) : list Z :=
  let '(ch, value) := entry in
  if ge ch (of_Z 1) && le ch (of_Z 512)
  then store c (sub ch (of_Z 1)) (clamp255 value)
  else c.

Lemma setChannels_run values u :
  let u' := with_channels u (foldl apply_entry (channels u) values) in
  setChannels values u = (tt, u', notification u').
Proof.
  intros u'. unfold setChannels, mbind, M_bind, Eff.bind.
  change (Eff.get u) with (u, u, @nil event). cbv beta iota zeta.
  unfold Eff.put. rewrite notifyListeners_run. reflexivity.
Qed.

Lemma setChannel_run_in channel value u :
  lt channel (of_Z 1) || gt channel (of_Z 512) = false ->
  let u' := with_channels u (store (channels u) (sub channel (of_Z 1)) (clamp255 value)) in
  setChannel channel value u = (tt, u', notification u').
Proof.
  intros Hin u'. unfold setChannel. rewrite Hin.
  unfold mbind, M_bind, Eff.bind.
  change (Eff.get u) with (u, u, @nil event). cbv beta iota zeta.
  unfold Eff.put. rewrite notifyListeners_run. reflexivity.
Qed.

Lemma setChannel_run_out channel value u :
  lt channel (of_Z 1) || gt channel (of_Z 512) = true ->
  setChannel channel value u = (tt, u, [LogWarnInvalidChannel channel]).
Proof. intros Hout. unfold setChannel. rewrite Hout. reflexivity. Qed.

Lemma setMasterDimmer_run value u :
  let u' := with_master u (clamp255 value) in
  setMasterDimmer value u = (tt, u', LogDebugMaster (clamp255 value) :: notification u').
Proof.
  intros u'. unfold setMasterDimmer, mbind, M_bind, Eff.bind.
  change (Eff.get u) with (u, u, @nil event). cbv beta iota zeta.
  unfold Eff.put, Eff.emit. rewrite notifyListeners_run. reflexivity.
Qed.

Definition snapshot_byte (snapshot : list number) (i : nat) : Z :=
  ToUint8 (clamp255 (or_zero (snapshot !! i))).

Lemma applySnapshot_run snapshot u :
  let u' := with_channels u
              (for_range 512 (fun i c => <[i := snapshot_byte snapshot i]> c) (channels u)) in
  applySnapshot snapshot u = (tt, u', notification u').
Proof.
  intros u'. unfold applySnapshot, mbind, M_bind, Eff.bind.
  change (Eff.get u) with (u, u, @nil event). cbv beta iota zeta.
  unfold Eff.put. rewrite notifyListeners_run. reflexivity.
Qed.

Lemma blackout_run u :
  let u' := with_channels u (replicate (length (channels u)) 0) in
  blackout u = (tt, u', notification u' ++ [LogInfoBlackout]).
Proof.
  intros u'. unfold blackout, mbind, M_bind, Eff.bind.
  change (Eff.get u) with (u, u, @nil event). cbv beta iota zeta.
  unfold Eff.put, Eff.emit. rewrite notifyListeners_run. reflexivity.
Qed.

(** *** Comparison of doubles is antisymmetric *)

Lemma SFcompare_swap a b : SFcompare b a = CompOpp <$> SFcompare a b.
Proof.
  destruct a as [[]|[]| |[] ma ea], b as [[]|[]| |[] mb eb]; cbn; try reflexivity.
  - rewrite (Z.compare_antisym ea eb).
    destruct (ea ?= eb); cbn; try reflexivity.
    f_equal. f_equal. exact (eq_sym (Pos.compare_cont_antisym ma mb Eq)).
  - rewrite (Z.compare_antisym ea eb).
    destruct (ea ?= eb); cbn; try reflexivity.
    f_equal. exact (eq_sym (Pos.compare_cont_antisym ma mb Eq)).
Qed.

Lemma le_not_gt a b : le a b = true -> gt a b = false.
Proof.
  unfold le, gt, SFleb, SFltb. rewrite (SFcompare_swap a b).
  destruct (SFcompare a b) as [[]|]; cbn; congruence.
Qed.

Lemma ge_not_lt a b : ge a b = true -> lt a b = false.
Proof.
  unfold ge, lt, SFleb, SFltb. rewrite (SFcompare_swap b a).
  destruct (SFcompare b a) as [[]|]; cbn; congruence.
Qed.

(** A channel number lies in 1..512 when [1 <= channel] and
    [channel <= 512] both hold of the doubles. *)
Definition in_range (channel : number) : bool :=
  ge channel (of_Z 1) && le channel (of_Z 512).

Lemma in_range_guard channel :
  in_range channel = true -> lt channel (of_Z 1) || gt channel (of_Z 512) = false.
Proof.
  unfold in_range. intros [H1 H2]%andb_true_iff.
  rewrite (ge_not_lt _ _ H1), (le_not_gt _ _ H2). reflexivity.
Qed.

(** *** Well-formed states *)

Definition well_formed (u : t) : Prop :=
  length (channels u) = 512%nat /\ Forall byte (channels u).

Lemma constructor_well_formed : well_formed constructor.
Proof.
  split; [apply length_replicate|].
  apply Forall_replicate. unfold byte. lia.
Qed.

Lemma store_well_formed c index value :
  length c = 512%nat /\ Forall byte c ->
  length (store c index value) = 512%nat /\ Forall byte (store c index value).
Proof.
  intros [Hl Hb]. unfold store. destruct (as_index index); [|auto].
  rewrite length_insert. split; [exact Hl|].
  apply Forall_insert; [exact Hb|apply ToUint8_byte].
Qed.

Lemma apply_entries_well_formed values c :
  length c = 512%nat /\ Forall byte c ->
  length (foldl apply_entry c values) = 512%nat /\ Forall byte (foldl apply_entry c values).
Proof.
  revert c. induction values as [|[ch value] values IH]; intros c Hc; [exact Hc|].
  cbn [foldl]. apply IH. unfold apply_entry.
  destruct (ge ch (of_Z 1) && le ch (of_Z 512)); [apply store_well_formed|]; exact Hc.
Qed.

(** The byte [getState] computes for channel index [i]. *)
Definition effective_byte (u : t) (i : nat) : Z :=
  ToUint8 (Math_round (mul (read (channels u) i)
                           (div (to_number (masterDimmer u)) (of_Z 255)))).

Lemma effective_unfold u :
  effective u =
    for_range 512 (fun i output => <[i := effective_byte u i]> output) (replicate 512 0).
Proof. reflexivity. Qed.

Lemma effective_length u : length (effective u) = 512%nat.
Proof.
  rewrite effective_unfold, for_range_insert_length. apply length_replicate.
Qed.

Lemma effective_bytes u : Forall byte (effective u).
Proof.
  rewrite effective_unfold. apply for_range_insert_Forall.
  - apply Forall_replicate. unfold byte. lia.
  - intros i. apply ToUint8_byte.
Qed.

Lemma effective_lookup u i :
  (i < 512)%nat -> effective u !! i = Some (effective_byte u i).
Proof.
  intros Hi. rewrite effective_unfold.
  apply for_range_insert_lookup_lt; [exact Hi|].
  rewrite length_replicate. exact Hi.
Qed.

(** C1.  In every well-formed state whose master dimmer is a byte, the
    effective view returned by [getState] (alias [getEffective]) holds at
    each index i < 512 the exact quotient raw[i] * master / 255 rounded to
    the nearest integer, although the code computes it in double
    precision; the call returns the state as it found it, so the raw
    channels read afterwards are the same. *)
Theorem effective_is_scaled_raw (u : t) (master : Z) (i : nat) :
  well_formed u -> masterDimmer u = Int master -> byte master -> (i < 512)%nat ->
  exists raw,
    channels u !! i = Some raw /\
    Eff.value (getEffective u) !! i = Some (round_ratio (raw * master) 255) /\
    Eff.state (getEffective u) = u /\
    Eff.trace (getEffective u) = [] /\
    Eff.value (getRaw (Eff.state (getEffective u))) = channels u.
Proof.
  intros [Hlen Hbytes] Hmaster Hm Hi.
  destruct (lookup_lt_is_Some_2 (channels u) i) as [raw Hraw]; [lia|].
  exists raw. split; [exact Hraw|].
  unfold getEffective. rewrite getState_run. cbn [Eff.value Eff.state Eff.trace fst snd].
  repeat split.
  fold (effective u). rewrite (effective_lookup u i Hi). f_equal.
  unfold effective_byte, read. rewrite Hraw, Hmaster. cbn [to_number].
  apply scale_exact; [|exact Hm].
  exact (Forall_lookup_1 _ _ _ _ Hbytes Hraw).
Qed.

Definition sample_universe : t := mk (<[0%nat := 200]> (replicate 512 0)) (Int 128) [].

Lemma effective_is_scaled_raw_witness :
  exists raw,
    channels sample_universe !! 0%nat = Some raw /\
    Eff.value (getEffective sample_universe) !! 0%nat = Some (round_ratio (raw * 128) 255) /\
    Eff.state (getEffective sample_universe) = sample_universe /\
    Eff.trace (getEffective sample_universe) = [] /\
    Eff.value (getRaw (Eff.state (getEffective sample_universe))) = channels sample_universe.
Proof.
  apply (effective_is_scaled_raw sample_universe 128 0).
  - split; [reflexivity|]. apply (bool_decide_unpack _). vm_compute. exact I.
  - reflexivity.
  - unfold byte. lia.
  - lia.
Defined.

(** *** Notifications *)

Lemma with_channels_same u : with_channels u (channels u) = u.
Proof. destruct u. reflexivity. Qed.

Lemma apply_entries_filter values c :
  foldl apply_entry c (filter (fun e => in_range e.1 = true) values) =
  foldl apply_entry c values.
Proof.
  revert c. induction values as [|[ch value] values IH]; intros c; [reflexivity|].
  rewrite filter_cons. cbn [fst foldl apply_entry]. fold (in_range ch).
  destruct (decide (in_range ch = true)) as [Hin|Hout].
  - cbn [foldl apply_entry]. fold (in_range ch). rewrite Hin. apply IH.
  - apply not_true_is_false in Hout. rewrite Hout. apply IH.
Qed.

Lemma apply_entries_skipped values c :
  Forall (fun e => in_range e.1 = false) values -> foldl apply_entry c values = c.
Proof.
  induction 1 as [|[ch value] values Hout _ IH]; [reflexivity|].
  cbn [foldl apply_entry]. fold (in_range ch). cbn [fst] in Hout. rewrite Hout. exact IH.
Qed.

Lemma notification_no_warning u channel :
  LogWarnInvalidChannel channel ∉ notification u.
Proof.
  unfold notification. intros (l & Heq & _)%list_elem_of_fmap. discriminate.
Qed.

(** A registered listener finds exactly one call to itself in a round. *)
Definition calls_to (l : listener) (tr : list event) : list (list Z) :=
  omap (fun e => match e with
                 | ListenerCalled l' state => if decide (l' = l) then Some state else None
                 | _ => None
                 end) tr.

Lemma calls_to_notification u l :
  NoDup (listeners u) -> l ∈ listeners u ->
  calls_to l (notification u) = [effective u].
Proof.
  unfold notification, calls_to.
  generalize (effective u) as state. intros state.
  induction (listeners u) as [|l' ls IH]; intros Hnd Hin; [inversion Hin|].
  apply NoDup_cons in Hnd as [Hnotin Hnd].
  cbn [fmap list_fmap omap list_omap]. destruct (decide (l' = l)) as [->|Hne].
  - f_equal. clear IH Hin.
    induction ls as [|l'' ls IH]; [reflexivity|].
    cbn [fmap list_fmap omap list_omap].
    apply not_elem_of_cons in Hnotin as [Hne Hnotin].
    apply NoDup_cons in Hnd as [_ Hnd].
    destruct (decide (l'' = l)); [congruence|]. apply IH; assumption.
  - apply IH; [exact Hnd|].
    apply elem_of_cons in Hin as [->|Hin]; [congruence|exact Hin].
Qed.

(** C3.  [setChannels] runs all the entries of the batch first and then
    notifies once: its trace is exactly one round of listener calls, each
    carrying the effective view of the state in which every entry has been
    applied, so a registered listener is called exactly once and with that
    view.  [setChannel] with a channel in 1..512 and [applySnapshot] also
    leave exactly one round, of the state they produce. *)
Theorem one_notification_per_mutation :
  (forall values u,
      let r := setChannels values u in
      channels (Eff.state r) = foldl apply_entry (channels u) values /\
      Eff.trace r = notification (Eff.state r) /\
      (forall l, NoDup (listeners u) -> l ∈ listeners u ->
                 calls_to l (Eff.trace r) = [effective (Eff.state r)])) /\
  (forall channel value u,
      in_range channel = true ->
      let r := setChannel channel value u in
      Eff.trace r = notification (Eff.state r)) /\
  (forall snapshot u,
      let r := applySnapshot snapshot u in
      Eff.trace r = notification (Eff.state r)).
Proof.
  split; [|split].
  - intros values u. cbv zeta. rewrite setChannels_run.
    split; [reflexivity|]. split; [reflexivity|].
    intros l Hnd Hin. apply calls_to_notification; assumption.
  - intros channel value u Hin. cbv zeta.
    rewrite (setChannel_run_in _ _ _ (in_range_guard _ Hin)). reflexivity.
  - intros snapshot u. cbv zeta. rewrite applySnapshot_run. reflexivity.
Qed.

Lemma one_notification_per_mutation_witness :
  in_range (of_Z 10) = true /\
  let r := setChannel (of_Z 10) (of_Z 200) constructor in
  Eff.trace r = notification (Eff.state r).
Proof.
  split; [reflexivity|].
  apply (proj1 (proj2 one_notification_per_mutation) (of_Z 10) (of_Z 200) constructor).
  reflexivity.
Defined.

(** C10.  [setChannels] never logs a warning; the entries whose channel is
    not in 1..512 are skipped (dropping them from the batch gives the same
    run); one round of notification is emitted all the same, so a batch
    that is empty or wholly out of range notifies the listeners of an
    unchanged state.  [setChannel], by contrast, answers a channel below 1
    or above 512 with a warning and nothing else. *)
Theorem setChannels_skips_without_warning :
  (forall values u,
      let r := setChannels values u in
      (forall channel, LogWarnInvalidChannel channel ∉ Eff.trace r) /\
      Eff.trace r = notification (Eff.state r) /\
      r = setChannels (filter (fun e => in_range e.1 = true) values) u) /\
  (forall values u,
      Forall (fun e => in_range e.1 = false) values ->
      setChannels values u = (tt, u, notification u)) /\
  (forall channel value u,
      lt channel (of_Z 1) || gt channel (of_Z 512) = true ->
      setChannel channel value u = (tt, u, [LogWarnInvalidChannel channel])).
Proof.
  split; [|split].
  - intros values u. cbv zeta. rewrite !setChannels_run. cbv zeta.
    rewrite apply_entries_filter. cbn [Eff.trace Eff.state fst snd].
    split; [|split; reflexivity].
    intros channel. apply notification_no_warning.
  - intros values u Hout. rewrite setChannels_run. cbv zeta.
    rewrite (apply_entries_skipped _ _ Hout), with_channels_same. reflexivity.
  - intros channel value u Hout. apply setChannel_run_out, Hout.
Qed.

Lemma setChannels_skips_without_warning_witness :
  (Forall (fun e => in_range e.1 = false) [(of_Z 0, of_Z 9); (of_Z 513, of_Z 9)] /\
   setChannels [(of_Z 0, of_Z 9); (of_Z 513, of_Z 9)] constructor
     = (tt, constructor, notification constructor)) /\
  (lt (of_Z 513) (of_Z 1) || gt (of_Z 513) (of_Z 512) = true /\
   setChannel (of_Z 513) (of_Z 9) constructor
     = (tt, constructor, [LogWarnInvalidChannel (of_Z 513)])).
Proof.
  split.
  - assert (H : Forall (fun e : number * number => in_range e.1 = false)
                  [(of_Z 0, of_Z 9); (of_Z 513, of_Z 9)])
      by (repeat constructor).
    split; [exact H|].
    exact (proj1 (proj2 setChannels_skips_without_warning) _ constructor H).
  - split; [reflexivity|].
    exact (proj2 (proj2 setChannels_skips_without_warning)
             (of_Z 513) (of_Z 9) constructor eq_refl).
Defined.

(** *** Sequences of mutator calls *)

Inductive call :=
| SetChannel (channel value : number)
| SetChannels (values : list (number * number))
| ApplySnapshot (snapshot : list number)
| SetMasterDimmer (value : number)
| Blackout.

Definition run_call (c : call) : M unit :=
  match c with
  | SetChannel channel value => setChannel channel value
  | SetChannels values => setChannels values
  | ApplySnapshot snapshot => applySnapshot snapshot
  | SetMasterDimmer value => setMasterDimmer value
  | Blackout => blackout
  end.

Definition run_calls (cs : list call) : M unit := Eff.for_of cs run_call.

Lemma run_calls_cons c cs u :
  Eff.state (run_calls (c :: cs) u) = Eff.state (run_calls cs (Eff.state (run_call c u))).
Proof.
  unfold run_calls. cbn [Eff.for_of]. unfold Eff.bind.
  destruct (run_call c u) as [[[] u1] t1]. cbn [Eff.state fst snd].
  destruct (Eff.for_of cs run_call u1) as [[[] u2] t2]. reflexivity.
Qed.

(** The master dimmer of a state: a byte, or NaN. *)
Definition master_byte (u : t) : Prop :=
  exists m, masterDimmer u = Int m /\ byte m.

Definition master_byte_or_NaN (u : t) : Prop :=
  masterDimmer u = IntNaN \/ master_byte u.

(** What one call does to the channels and to the master dimmer. *)
Lemma run_call_state c u :
  well_formed u ->
  let u' := Eff.state (run_call c u) in
  well_formed u' /\
  (masterDimmer u' = masterDimmer u \/
   exists value, c = SetMasterDimmer value /\ masterDimmer u' = clamp255 value).
Proof.
  intros Hwf. destruct c as [channel value|values|snapshot|value|]; cbn [run_call].
  - destruct (lt channel (of_Z 1) || gt channel (of_Z 512)) eqn:Hguard.
    + rewrite (setChannel_run_out _ _ _ Hguard). cbn. auto.
    + rewrite (setChannel_run_in _ _ _ Hguard). cbn. split; [|auto].
      apply store_well_formed, Hwf.
  - rewrite setChannels_run. cbn. split; [|auto].
    apply apply_entries_well_formed, Hwf.
  - rewrite applySnapshot_run. cbn. split; [|auto]. destruct Hwf as [Hl Hb]. split.
    + unfold with_channels, channels at 1. rewrite for_range_insert_length. exact Hl.
    + apply for_range_insert_Forall; [exact Hb|]. intros i. apply ToUint8_byte.
  - rewrite setMasterDimmer_run. cbn. split; [exact Hwf|]. right. eauto.
  - rewrite blackout_run. cbn. split; [|auto]. destruct Hwf as [Hl Hb]. split.
    + unfold with_channels, channels at 1. rewrite length_replicate. exact Hl.
    + apply Forall_replicate. unfold byte. lia.
Qed.

(** Whatever the calls and their arguments, the raw and the effective
    views hold 512 bytes each, and the master dimmer is a byte or NaN. *)
Lemma run_calls_bytes cs u :
  well_formed u -> master_byte_or_NaN u ->
  let u' := Eff.state (run_calls cs u) in
  well_formed u' /\ master_byte_or_NaN u' /\
  Forall byte (Eff.value (getRaw u')) /\ Forall byte (Eff.value (getEffective u')).
Proof.
  revert u. induction cs as [|c cs IH]; intros u Hwf Hm; cbv zeta.
  - change (Eff.state (run_calls [] u)) with u.
    split; [exact Hwf|]. split; [exact Hm|]. split; [exact (proj2 Hwf)|].
    exact (effective_bytes u).
  - rewrite run_calls_cons.
    destruct (run_call_state c u Hwf) as [Hwf' Hm'].
    apply IH; [exact Hwf'|]. unfold master_byte_or_NaN, master_byte.
    destruct Hm' as [->|(value & _ & ->)]; [exact Hm|].
    destruct (clamp255_cases value) as [[_ ->]|[_ (b & Hb & ->)]].
    + left. reflexivity.
    + right. exists b. auto.
Qed.

(** The master dimmer stays a byte as long as [setMasterDimmer] is never
    given NaN. *)
Lemma run_calls_master cs u :
  well_formed u -> master_byte u ->
  (forall value, SetMasterDimmer value ∈ cs -> value <> NaN) ->
  master_byte (Eff.state (run_calls cs u)).
Proof.
  revert u. induction cs as [|c cs IH]; intros u Hwf Hm Hcs; [exact Hm|].
  rewrite run_calls_cons.
  destruct (run_call_state c u Hwf) as [Hwf' Hm'].
  apply IH; [exact Hwf'| |].
  - destruct Hm' as [Heq|(value & -> & Heq)].
    + unfold master_byte. rewrite Heq. exact Hm.
    + destruct (clamp255_cases value) as [[Hnan _]|[_ (b & Hb & Hc)]].
      * exfalso. apply (Hcs value); [left|exact Hnan].
      * exists b. rewrite Heq, Hc. auto.
  - intros value Hin. apply Hcs. right. exact Hin.
Qed.

(** C2 at the input on which it fails: after [setChannel(1, 200)] and
    [setMasterDimmer(NaN)] on a fresh universe the master dimmer is NaN,
    which no byte equals; the raw channel still holds 200 and every
    effective byte is 0. *)
Theorem setMasterDimmer_NaN_is_not_clamped :
  let u := Eff.state (run_calls [SetChannel (of_Z 1) (of_Z 200); SetMasterDimmer NaN]
                                constructor) in
  Eff.value (getMasterDimmer u) = IntNaN /\
  ~ master_byte u /\
  Eff.value (getRaw u) !! 0%nat = Some 200 /\
  Eff.value (getEffective u) = replicate 512 0.
Proof.
  cbv zeta. split; [|split; [|split]].
  - vm_compute. reflexivity.
  - intros (m & Hm & _). vm_compute in Hm. discriminate Hm.
  - vm_compute. reflexivity.
  - vm_compute. reflexivity.
Qed.
End UniverseFacts.

(** ** dmx-driver.ts *)

Module DMXDriver.
Local Open Scope Z_scope.

Definition DMX_PRO_START_MSG : Z := 0x7e.
Definition DMX_PRO_END_MSG : Z := 0xe7.
Definition DMX_PRO_SEND_LABEL : Z := 6.

(** The store [packet[i] = v] into a [Buffer]. *)
Definition buffer_set (packet : list Z) (i : nat) (v : Z) : list Z :=
  <[i := v mod 256]> packet.

Definition buildDMXPacket (channels : list Z) : list Z :=
  let dataLength := Z.of_nat (length channels) + 1 in
  let packet := replicate (Z.to_nat (dataLength + 5)) 0 in
  let packet := buffer_set packet 0 DMX_PRO_START_MSG in
  let packet := buffer_set packet 1 DMX_PRO_SEND_LABEL in
  let packet := buffer_set packet 2 (Z.land dataLength 0xff) in
  let packet := buffer_set packet 3 (Z.land (Z.shiftr dataLength 8) 0xff) in
  let packet := buffer_set packet 4 0x00 in
  let packet :=
    for_range (length channels)
      (fun i packet => buffer_set packet (5 + i) (default 0 (channels !! i)))
      packet in
  buffer_set packet (length packet - 1) DMX_PRO_END_MSG.

(** *** Connection and reconnection *)

Inductive event :=
| SetTimeout (delay : Z)
| ClearTimeout
| EmitStatus (connected : bool) (port : option string)
| LogInfoReconnectIn (delay : Z)
| LogInfoConnected (port : string)
| LogWarnPortClosed
| LogErrorOpenFailed (port : string).

Record t := mk {
  reconnectTimer : bool;
  reconnectDelay : Z;
  isConnected : bool;
  portPath : option string;
  serialPort : option string;
  isShuttingDown : bool
}.

Definition maxReconnectDelay : Z := 30000.

Definition constructor : t := mk false 1000 false None None false.

Definition M := Eff.M t event.

Definition emitStatus : M unit :=
  d ← Eff.get; Eff.emit (EmitStatus (isConnected d) (portPath d)).

(** [startReconnection]; the callback it hands to [setTimeout] is
    [reconnectAttempt] below. *)
Definition startReconnection : M unit :=
  d ← Eff.get;
  if isShuttingDown d then Eff.ret tt
  else
    (if reconnectTimer d then Eff.emit ClearTimeout else Eff.ret tt);;
    Eff.emit (LogInfoReconnectIn (reconnectDelay d));;
    Eff.emit (SetTimeout (reconnectDelay d));;
    Eff.put (mk true (reconnectDelay d) (isConnected d) (portPath d) (serialPort d)
                (isShuttingDown d)).

(** What the serial port answers to [open]. *)
Inductive open_result := OpenSucceeds | OpenFails.

(** [connect(portPath)], followed by the port's answer: the 'open' event,
    or the error passed to the callback of [open]. *)
Definition connect (path : string) (answer : open_result) : M unit :=
  d ← Eff.get;
  Eff.put (mk (reconnectTimer d) (reconnectDelay d) (isConnected d) (portPath d)
              (Some path) (isShuttingDown d));;
  match answer with
  | OpenSucceeds =>
      Eff.emit (LogInfoConnected path);;
      d ← Eff.get;
      Eff.put (mk (reconnectTimer d) 1000 true (Some path) (serialPort d)
                  (isShuttingDown d));;
      emitStatus
  | OpenFails =>
      Eff.emit (LogErrorOpenFailed path);;
      d ← Eff.get;
      Eff.put (mk (reconnectTimer d) (reconnectDelay d) (isConnected d) (portPath d)
                  None (isShuttingDown d));;
      startReconnection
  end.

(** The 'close' event of the serial port. *)
Definition onClose : M unit :=
  d ← Eff.get;
  if isShuttingDown d then Eff.ret tt
  else
    Eff.emit LogWarnPortClosed;;
    Eff.put (mk (reconnectTimer d) (reconnectDelay d) false None None (isShuttingDown d));;
    emitStatus;;
    startReconnection.

(** The callback of the reconnection timer.  [detected] is the result of
    [detectDevice()], [answer] what the port answers if one is found. *)
Definition reconnectAttempt (detected : option string) (answer : open_result) : M unit :=
  match detected with
  | Some path => connect path answer
  | None =>
      d ← Eff.get;
      Eff.put (mk (reconnectTimer d) (Z.min (reconnectDelay d * 2) maxReconnectDelay)
                  (isConnected d) (portPath d) (serialPort d) (isShuttingDown d));;
      startReconnection
  end.
End DMXDriver.


(** ** The transmitter: frame encoding and reconnection delays *)

Module DriverFacts.
Import JSFacts DMXDriver.
Local Open Scope Z_scope.

Lemma fmap_mod_bytes (l : list Z) :
  Forall byte l -> (fun b => b mod 256) <$> l = l.
Proof.
  induction 1 as [|b l Hb _ IH]; [reflexivity|].
  cbn [fmap list_fmap]. fold (fmap (M:=list) (fun b => b mod 256) l). rewrite IH.
  unfold byte in Hb. rewrite Z.mod_small by lia. reflexivity.
Qed.

(** The copy loop after [n] iterations: the header, the first [n] channel
    bytes, and the part of the buffer still zero. *)
Lemma copy_loop (header channels : list Z) (rest n : nat) :
  (n <= length channels)%nat ->
  for_range n
    (fun i packet => buffer_set packet (length header + i) (default 0 (channels !! i)))
    (header ++ replicate (length channels + rest) 0)
  = header ++ ((fun b => b mod 256) <$> take n channels)
           ++ replicate (length channels - n + rest) 0.
Proof.
  induction n as [|n IH]; intros Hn.
  - cbn [take fmap list_fmap app]. rewrite Nat.sub_0_r. reflexivity.
  - rewrite for_range_S, IH by lia. clear IH.
    destruct (lookup_lt_is_Some_2 channels n) as [b Hb]; [lia|].
    rewrite Hb, (take_S_r _ _ _ Hb), fmap_app. cbn [default fmap list_fmap].
    unfold buffer_set.
    rewrite insert_app_r_alt by lia.
    rewrite insert_app_r_alt by (rewrite length_fmap, length_take; lia).
    rewrite length_fmap, length_take.
    replace (length header + n - length header - n `min` length channels)%nat
      with 0%nat by lia.
    replace (length channels - n + rest)%nat
      with (S (length channels - S n + rest)) by lia.
    cbn [replicate insert list_insert]. rewrite <- app_assoc. reflexivity.
Qed.

Lemma copy_loop5 (h0 h1 h2 h3 h4 : Z) (channels : list Z) (rest : nat) :
  for_range (length channels)
    (fun i packet => buffer_set packet (5 + i) (default 0 (channels !! i)))
    ([h0; h1; h2; h3; h4] ++ replicate (length channels + rest) 0)
  = [h0; h1; h2; h3; h4] ++ ((fun b => b mod 256) <$> channels) ++ replicate rest 0.
Proof.
  pose proof (copy_loop [h0; h1; h2; h3; h4] channels rest (length channels)
                (Nat.le_refl _)) as H.
  rewrite firstn_all, Nat.sub_diag in H. exact H.
Qed.

Lemma header_stores (v0 v1 v2 v3 v4 : Z) (rest : list Z) :
  buffer_set (buffer_set (buffer_set (buffer_set (buffer_set
    (0 :: 0 :: 0 :: 0 :: 0 :: rest) 0 v0) 1 v1) 2 v2) 3 v3) 4 v4
  = [v0 mod 256; v1 mod 256; v2 mod 256; v3 mod 256; v4 mod 256] ++ rest.
Proof. reflexivity. Qed.

(** The frame for any channel array: label 6, the length of the data
    (start code included) in little endian, the start code, the data. *)
Lemma buildDMXPacket_frame (channels : list Z) :
  Forall byte channels ->
  buildDMXPacket channels =
    [0x7e; 6; (Z.of_nat (length channels) + 1) mod 256;
     ((Z.of_nat (length channels) + 1) / 256) mod 256; 0]
    ++ channels ++ [0xe7].
Proof.
  intros Hbytes. unfold buildDMXPacket. cbv zeta.
  replace (Z.to_nat (Z.of_nat (length channels) + 1 + 5))
    with (5 + (length channels + 1))%nat by lia.
  change (replicate (5 + (length channels + 1)) 0)
    with (0 :: 0 :: 0 :: 0 :: 0 :: replicate (length channels + 1) 0).
  rewrite !header_stores, !copy_loop5, fmap_mod_bytes by exact Hbytes.
  unfold buffer_set.
  replace (length (_ ++ channels ++ replicate 1 0%Z) - 1)%nat
    with (5 + (length channels + 0))%nat
    by (rewrite !length_app, length_replicate; cbn [length]; lia).
  rewrite insert_app_r_alt by (cbn [length]; lia).
  rewrite insert_app_r_alt by (cbn [length]; lia).
  cbn [length].
  replace (5 + (length channels + 0) - 5 - length channels)%nat with 0%nat by lia.
  cbn [replicate insert list_insert].
  change 255 with (Z.ones 8). rewrite !Z.land_ones, Z.shiftr_div_pow2 by lia.
  change (2 ^ 8) with 256. rewrite !Z.mod_mod by lia. reflexivity.
Qed.

(** C4.  For every array of 512 channel bytes the packet builder returns
    518 bytes: 7E 06 01 02 00, then the 512 bytes in order at offsets
    5..516, then E7. *)
Theorem buildDMXPacket_512 (channels : list Z) :
  length channels = 512%nat -> Forall byte channels ->
  let packet := buildDMXPacket channels in
  length packet = 518%nat /\
  take 5 packet = [0x7e; 0x06; 0x01; 0x02; 0x00] /\
  packet !! 517%nat = Some 0xe7 /\
  (forall i, (i < 512)%nat -> packet !! (5 + i)%nat = channels !! i) /\
  packet = [0x7e; 0x06; 0x01; 0x02; 0x00] ++ channels ++ [0xe7].
Proof.
  intros Hlen Hbytes. cbv zeta.
  rewrite (buildDMXPacket_frame channels Hbytes), Hlen.
  change ((Z.of_nat 512 + 1) mod 256) with 1.
  change (((Z.of_nat 512 + 1) / 256) mod 256) with 2.
  split; [|split; [|split; [|split]]].
  - rewrite !length_app, Hlen. reflexivity.
  - reflexivity.
  - change 517%nat with (5 + 512)%nat.
    rewrite (lookup_app_r [_; _; _; _; _]) by (cbn [length]; lia).
    cbn [length]. rewrite lookup_app_r by lia.
    replace (5 + 512 - 5 - length channels)%nat with 0%nat by lia. reflexivity.
  - intros i Hi.
    rewrite (lookup_app_r [_; _; _; _; _]) by (cbn [length]; lia).
    cbn [length]. replace (5 + i - 5)%nat with i by lia.
    apply lookup_app_l. lia.
  - reflexivity.
Qed.

Lemma buildDMXPacket_512_witness :
  let packet := buildDMXPacket (replicate 512 7) in
  length packet = 518%nat /\
  take 5 packet = [0x7e; 0x06; 0x01; 0x02; 0x00] /\
  packet !! 517%nat = Some 0xe7 /\
  (forall i, (i < 512)%nat -> packet !! (5 + i)%nat = replicate 512 7 !! i) /\
  packet = [0x7e; 0x06; 0x01; 0x02; 0x00] ++ replicate 512 7 ++ [0xe7].
Proof.
  apply (buildDMXPacket_512 (replicate 512 7)).
  - apply length_replicate.
  - apply Forall_replicate. unfold byte. lia.
Defined.

(** *** Reconnection delays *)

(** The delays handed to [setTimeout], in order. *)
Definition timeouts (tr : list event) : list Z :=
  omap (fun e => match e with SetTimeout delay => Some delay | _ => None end) tr.

Lemma timeouts_app tr1 tr2 : timeouts (tr1 ++ tr2) = timeouts tr1 ++ timeouts tr2.
Proof. apply omap_app. Qed.

(** A run of reconnection attempts, each with what the environment
    answers: the port detected (if any) and the outcome of [open]. *)
Definition attempts (outcomes : list (option string * open_result)) : M unit :=
  Eff.for_of outcomes (fun o => reconnectAttempt o.1 o.2).

Definition with_delay (d : t) (delay : Z) : t :=
  mk true delay (isConnected d) (portPath d) (serialPort d) (isShuttingDown d).

Lemma startReconnection_run d :
  isShuttingDown d = false ->
  Eff.state (startReconnection d) = with_delay d (reconnectDelay d) /\
  timeouts (Eff.trace (startReconnection d)) = [reconnectDelay d].
Proof.
  intros Hs. destruct d as [timer delay connected port serial down].
  cbn in Hs. subst down. destruct timer; split; reflexivity.
Qed.

Lemma no_device_run answer d :
  isShuttingDown d = false ->
  let r := reconnectAttempt None answer d in
  Eff.state r = with_delay d (Z.min (reconnectDelay d * 2) maxReconnectDelay) /\
  timeouts (Eff.trace r) = [Z.min (reconnectDelay d * 2) maxReconnectDelay].
Proof.
  intros Hs. cbv zeta. unfold reconnectAttempt, mbind, M_bind, Eff.bind.
  change (Eff.get d) with (d, d, @nil event). cbv beta iota zeta. unfold Eff.put.
  set (d' := mk _ _ _ _ _ _).
  destruct (startReconnection_run d' Hs) as [Hst Htr].
  destruct (startReconnection d') as [[[] d''] tr].
  cbn [Eff.state Eff.trace fst snd app] in *. split; [exact Hst|exact Htr].
Qed.

Lemma attempts_cons o os d :
  Eff.state (attempts (o :: os) d)
    = Eff.state (attempts os (Eff.state (reconnectAttempt o.1 o.2 d))) /\
  Eff.trace (attempts (o :: os) d)
    = Eff.trace (reconnectAttempt o.1 o.2 d)
      ++ Eff.trace (attempts os (Eff.state (reconnectAttempt o.1 o.2 d))).
Proof.
  unfold attempts. cbn [Eff.for_of]. unfold Eff.bind.
  destruct (reconnectAttempt o.1 o.2 d) as [[[] d1] t1]. cbn [Eff.state fst snd].
  destruct (Eff.for_of os _ d1) as [[[] d2] t2]. split; reflexivity.
Qed.

(** The delay after [k] doublings from [delay], under the cap. *)
Definition backoff (delay : Z) (k : nat) : Z :=
  Z.min (delay * 2 ^ Z.of_nat k) maxReconnectDelay.

Lemma backoff_step delay k :
  0 < delay ->
  Z.min (backoff delay k * 2) maxReconnectDelay = backoff delay (S k).
Proof.
  intros Hd. unfold backoff, maxReconnectDelay.
  rewrite Nat2Z.inj_succ, Z.pow_succ_r by lia.
  pose proof (Z.pow_pos_nonneg 2 (Z.of_nat k) ltac:(lia) ltac:(lia)). nia.
Qed.

(** While no device is detected, each attempt doubles the delay up to the
    cap: [n] attempts in a row schedule the delays of 1, 2, ..., n
    doublings. *)
Lemma no_device_backoff answer n k delay d :
  isShuttingDown d = false -> 0 < delay ->
  reconnectDelay d = backoff delay k ->
  let r := attempts (replicate n (None, answer)) d in
  timeouts (Eff.trace r) = (fun i => backoff delay (k + i)) <$> seq 1 n /\
  reconnectDelay (Eff.state r) = backoff delay (k + n).
Proof.
  intros Hs Hd. revert k d Hs. induction n as [|n IH]; intros k d Hs Hk; cbv zeta.
  - cbn. rewrite Nat.add_0_r. split; [reflexivity|exact Hk].
  - cbn [replicate]. destruct (attempts_cons (None, answer) (replicate n (None, answer)) d)
      as [-> ->].
    cbn [fst snd]. destruct (no_device_run answer d Hs) as [Hst Htr].
    rewrite timeouts_app, Htr, Hst. rewrite Hk, backoff_step by exact Hd.
    destruct (IH (S k) (with_delay d (backoff delay (S k))) Hs eq_refl) as [Ht Hdl].
    rewrite Ht, Hdl. split.
    + cbn [seq fmap list_fmap app]. rewrite Nat.add_1_r. f_equal.
      rewrite <- (fmap_S_seq 1 n), <- list_fmap_compose. apply list_fmap_ext.
      intros _ i _. unfold compose. f_equal. lia.
    + f_equal. lia.
Qed.

(** A successful open resets the delay to 1000 ms. *)
Lemma connect_success_resets path d :
  reconnectDelay (Eff.state (connect path OpenSucceeds d)) = 1000 /\
  isConnected (Eff.state (connect path OpenSucceeds d)) = true.
Proof. split; reflexivity. Qed.

(** When the device is found but cannot be opened, the attempt is
    rescheduled with the delay unchanged. *)
Lemma open_failure_keeps_delay path d :
  isShuttingDown d = false ->
  let r := reconnectAttempt (Some path) OpenFails d in
  reconnectDelay (Eff.state r) = reconnectDelay d /\
  timeouts (Eff.trace r) = [reconnectDelay d].
Proof.
  intros Hs. cbv zeta. unfold reconnectAttempt, connect, mbind, M_bind, Eff.bind.
  change (Eff.get d) with (d, d, @nil event). cbv beta iota zeta.
  unfold Eff.put, Eff.emit, Eff.get. cbv beta iota zeta.
  set (d' := mk _ _ _ _ None _).
  destruct (startReconnection_run d' Hs) as [Hst Htr].
  destruct (startReconnection d') as [[[] d''] tr].
  cbn [Eff.state Eff.trace fst snd app] in *. rewrite Hst. split; [reflexivity|exact Htr].
Qed.

(** C7 at the input on which it fails.  The port opens, then closes; the
    adapter is detected at each of the next three attempts but [open]
    fails each time.  The four delays scheduled are 1000, 1000, 1000,
    1000: the failed attempts did not double the delay.  (With no device
    detected, the same three attempts schedule 1000, 2000, 4000, 8000.) *)
Theorem open_failures_do_not_back_off :
  let lost := connect "usbserial-A" OpenSucceeds;; onClose in
  let busy := (Some "usbserial-A", OpenFails) in
  let absent := (@None string, OpenFails) in
  timeouts (Eff.trace ((lost;; attempts [busy; busy; busy]) constructor))
    = [1000; 1000; 1000; 1000] /\
  timeouts (Eff.trace ((lost;; attempts [absent; absent; absent]) constructor))
    = [1000; 2000; 4000; 8000].
Proof. split; vm_compute; reflexivity. Qed.
End DriverFacts.

(** ** fade-engine.ts *)

Module FadeEngine.
Import JS.
Local Open Scope Z_scope.

Definition FADE_STEP_INTERVAL : Z := 25.

(** Promises are named by the order of their creation. *)
Definition promise := nat.

(** What [fadeTo] returns: [Promise.resolve()], or a promise that is
    still pending. *)
Inductive returned := AlreadyResolved | Pending (p : promise).

Inductive event :=
| Universe (e : DMXUniverse.event)
| PromiseResolved (p : promise)
| SetInterval (ms : Z)
| ClearInterval
| LogDebugStarting (durationMs : number)
| LogDebugCancelled
| LogDebugComplete.

(** The variables captured by the callback handed to [setInterval]. *)
Record fade := mkFade {
  targetChannels : list number;
  durationMs : number;
  startChannels : list number;
  startTime : Z
}.

(** The engine's fields; [activeFade] holds the interval, that is its
    callback; [created] counts the promises made so far. *)
Record t := mk {
  activeFade : option fade;
  fadeResolve : option promise;
  created : nat
}.

Definition constructor : t := mk None None 0.

(** The engine together with the universe it was constructed on. *)
Definition M := Eff.M (DMXUniverse.t * t) event.

Definition universe {A} (c : DMXUniverse.M A) : M A :=
  Eff.zoom fst (fun s u => (u, s.2)) Universe c.

Definition this : M t := s ← Eff.get; Eff.ret s.2.
Definition set_this (e : t) : M unit := s ← Eff.get; Eff.put (s.1, e).

Definition cancelFade : M unit :=
  e ← this;
  match activeFade e with
  | Some _ =>
      Eff.emit ClearInterval;;
      set_this (mk None (fadeResolve e) (created e));;
      Eff.emit LogDebugCancelled
  | None => Eff.ret tt
  end;;
  e ← this;
  match fadeResolve e with
  | Some p =>
      Eff.emit (PromiseResolved p);;
      set_this (mk (activeFade e) None (created e))
  | None => Eff.ret tt
  end.

Definition completeFade : M unit :=
  e ← this;
  match activeFade e with
  | Some _ =>
      Eff.emit ClearInterval;;
      set_this (mk None (fadeResolve e) (created e))
  | None => Eff.ret tt
  end;;
  e ← this;
  match fadeResolve e with
  | Some p =>
      Eff.emit (PromiseResolved p);;
      set_this (mk (activeFade e) None (created e))
  | None => Eff.ret tt
  end;;
  Eff.emit LogDebugComplete.

(** [fadeTo(targetChannels, durationMs)], called when [Date.now()] is [now]. *)
Definition fadeTo (targetChannels : list number) (durationMs : number) (now : Z)
  : M returned :=
  cancelFade;;
  if le durationMs (of_Z 0) then
    universe (DMXUniverse.applySnapshot targetChannels);;
    Eff.ret AlreadyResolved
  else
    e ← this;
    let p := created e in
    set_this (mk (activeFade e) (Some p) (S (created e)));;
    startChannels ← universe DMXUniverse.getRawChannelsArray;
    let startTime := now in
    Eff.emit (LogDebugStarting durationMs);;
    Eff.emit (SetInterval FADE_STEP_INTERVAL);;
    e ← this;
    set_this (mk (Some (mkFade targetChannels durationMs startChannels startTime))
                 (fadeResolve e) (created e));;
    Eff.ret (Pending p).

Definition progress_at (f : fade) (now : Z) : number :=
  let elapsed := of_Z (now - startTime f) in
  Math_fmin (of_Z 1) (div elapsed (durationMs f)).

(** The value the callback computes for channel index [i]. *)
Definition interpolate (f : fade) (progress : number) (i : nat) : integral :=
  let start := or_zero (startChannels f !! i) in
  let end_ := or_zero (targetChannels f !! i) in
  let value := add start (mul (sub end_ start) progress) in
  clamp255 value.

(** The callback of the interval, run when [Date.now()] is [now].  A
    cleared interval does not call it.  The slots of [new Array(512)] are
    all assigned before the array is read. *)
Definition tick (now : Z) : M unit :=
  e ← this;
  match activeFade e with
  | None => Eff.ret tt
  | Some f =>
      let progress := progress_at f now in
      let interpolated :=
        for_range 512
          (fun i interpolated => <[i := to_number (interpolate f progress i)]> interpolated)
          (replicate 512 NaN) in
      universe (DMXUniverse.applySnapshot interpolated);;
      if ge progress (of_Z 1) then completeFade else Eff.ret tt
  end.

Definition isFading : M bool :=
  e ← this; Eff.ret (bool_decide (activeFade e ≠ None)).

Definition fadeToBlackout (durationMs : number) (now : Z) : M returned :=
  let blackout := replicate 512 (of_Z 0) in
  fadeTo blackout durationMs now.
End FadeEngine.


(** ** The fade engine: interpolation, completion, cancellation *)

Module FadeFacts.
Import JS JSFacts DoubleFacts DMXUniverse UniverseFacts FadeEngine.
Local Open Scope Z_scope.

(** The linear interpolation of the specification, in the arithmetic of
    the code: [start + (target - start) * progress]. *)
Definition lerp (start target progress : number) : number :=
  add start (mul (sub target start) progress).

(** *** Runs of the engine's methods *)

Definition cancel_trace (e : FadeEngine.t) : list FadeEngine.event :=
  (if activeFade e is Some _ then [ClearInterval; LogDebugCancelled] else [])
  ++ (if fadeResolve e is Some p then [PromiseResolved p] else []).

Definition complete_trace (e : FadeEngine.t) : list FadeEngine.event :=
  (if activeFade e is Some _ then [ClearInterval] else [])
  ++ (if fadeResolve e is Some p then [PromiseResolved p] else [])
  ++ [LogDebugComplete].

Definition idle (e : FadeEngine.t) : FadeEngine.t := FadeEngine.mk None None (created e).

Lemma cancelFade_run u e : cancelFade (u, e) = (tt, (u, idle e), cancel_trace e).
Proof. destruct e as [[f|] [p|] n]; reflexivity. Qed.

Lemma completeFade_run u e : completeFade (u, e) = (tt, (u, idle e), complete_trace e).
Proof. destruct e as [[f|] [p|] n]; reflexivity. Qed.

Lemma universe_run {A} (c : DMXUniverse.M A) u e a u' tr :
  c u = (a, u', tr) -> universe c (u, e) = (a, (u', e), Universe <$> tr).
Proof. intros H. unfold universe, Eff.zoom. cbn [fst snd]. rewrite H. reflexivity. Qed.

Definition applied (snapshot : list number) (u : DMXUniverse.t) : DMXUniverse.t :=
  with_channels u
    (for_range 512 (fun i c => <[i := snapshot_byte snapshot i]> c) (channels u)).

Lemma fadeTo_instant target d now u e :
  le d (of_Z 0) = true ->
  fadeTo target d now (u, e)
  = (AlreadyResolved, (applied target u, idle e),
     cancel_trace e ++ (Universe <$> notification (applied target u))).
Proof.
  intros Hd. unfold fadeTo, mbind, M_bind, Eff.bind.
  rewrite cancelFade_run, Hd.
  rewrite (universe_run _ _ _ _ _ _ (applySnapshot_run target u)).
  cbn [Eff.ret]. rewrite app_nil_r. reflexivity.
Qed.

Definition started (target : list number) (d : number) (now : Z)
    (u : DMXUniverse.t) (e : FadeEngine.t) : FadeEngine.t :=
  FadeEngine.mk (Some (mkFade target d (of_Z <$> channels u) now))
                (Some (created e)) (S (created e)).

Lemma fadeTo_start target d now u e :
  le d (of_Z 0) = false ->
  fadeTo target d now (u, e)
  = (Pending (created e), (u, started target d now u e),
     cancel_trace e ++ [LogDebugStarting d; SetInterval FADE_STEP_INTERVAL]).
Proof.
  intros Hd. unfold fadeTo, mbind, M_bind, Eff.bind.
  rewrite cancelFade_run, Hd. reflexivity.
Qed.

Definition interpolated (f : fade) (progress : number) : list number :=
  for_range 512
    (fun i interpolated => <[i := to_number (interpolate f progress i)]> interpolated)
    (replicate 512 NaN).

Lemma tick_run now u e f :
  activeFade e = Some f ->
  let progress := progress_at f now in
  let u' := applied (interpolated f progress) u in
  tick now (u, e)
  = (tt, (u', if ge progress (of_Z 1) then idle e else e),
     (Universe <$> notification u')
     ++ (if ge progress (of_Z 1) then complete_trace e else [])).
Proof.
  intros Hf. cbv zeta. unfold tick, mbind, M_bind, Eff.bind.
  change (this (u, e)) with (e, (u, e), @nil FadeEngine.event).
  cbv beta iota zeta. rewrite Hf. fold (interpolated f (progress_at f now)).
  rewrite (universe_run _ _ _ _ _ _ (applySnapshot_run _ u)).
  fold (applied (interpolated f (progress_at f now)) u).
  destruct (ge (progress_at f now) (of_Z 1)).
  - rewrite completeFade_run. reflexivity.
  - cbn [Eff.ret]. rewrite app_nil_r. reflexivity.
Qed.

Lemma tick_idle now u e :
  activeFade e = None -> tick now (u, e) = (tt, (u, e), []).
Proof.
  intros Hf. unfold tick, mbind, M_bind, Eff.bind.
  change (this (u, e)) with (e, (u, e), @nil FadeEngine.event).
  cbv beta iota zeta. rewrite Hf. reflexivity.
Qed.

(** *** What a tick writes *)

Lemma applied_lookup snapshot u i :
  length (channels u) = 512%nat -> (i < 512)%nat ->
  channels (applied snapshot u) !! i = Some (snapshot_byte snapshot i).
Proof.
  intros Hlen Hi. unfold applied, with_channels, channels at 1.
  apply for_range_insert_lookup_lt; lia.
Qed.

Lemma applied_length snapshot u :
  length (channels (applied snapshot u)) = length (channels u).
Proof. unfold applied, with_channels, channels at 1. apply for_range_insert_length. Qed.

Lemma interpolated_lookup f progress i :
  (i < 512)%nat ->
  interpolated f progress !! i = Some (to_number (interpolate f progress i)).
Proof.
  intros Hi. unfold interpolated.
  apply (for_range_insert_lookup_lt 512 (fun i => to_number (interpolate f progress i)));
    [exact Hi|rewrite length_replicate; exact Hi].
Qed.

(** A byte handed to [applySnapshot] as a number comes back as itself. *)
Definition reclamp_ok (b : Z) : bool :=
  match clamp255 (or_zero (Some (of_Z b))) with
  | Int z => z =? b
  | _ => false
  end.

Lemma reclamp_table : forallb reclamp_ok bytes = true.
Proof. vm_compute. reflexivity. Qed.

Lemma reclamp b : byte b -> clamp255 (or_zero (Some (of_Z b))) = Int b.
Proof.
  intros Hb. pose proof (forallb_bytes _ b reclamp_table Hb) as H.
  unfold reclamp_ok in H.
  destruct (clamp255 (or_zero (Some (of_Z b)))); try discriminate.
  apply Z.eqb_eq in H. congruence.
Qed.

(** The value the callback has clamped is stored unchanged by
    [applySnapshot], NaN becoming 0. *)
Lemma clamp_again v :
  ToUint8 (clamp255 (or_zero (Some (to_number (clamp255 v))))) = ToUint8 (clamp255 v).
Proof.
  destruct (clamp255_cases v) as [[_ ->]|[_ (b & Hb & ->)]].
  - reflexivity.
  - cbn [to_number]. rewrite (reclamp b Hb). reflexivity.
Qed.

Lemma tick_channel f progress u i :
  length (channels u) = 512%nat -> (i < 512)%nat ->
  channels (applied (interpolated f progress) u) !! i
  = Some (ToUint8 (clamp255 (lerp (or_zero (startChannels f !! i))
                                  (or_zero (targetChannels f !! i)) progress))).
Proof.
  intros Hlen Hi. rewrite (applied_lookup _ _ _ Hlen Hi). f_equal.
  unfold snapshot_byte. rewrite (interpolated_lookup _ _ _ Hi).
  unfold interpolate. apply clamp_again.
Qed.

(** *** Completion *)

Lemma fmin_one_reached x :
  ge (Math_fmin (of_Z 1) x) (of_Z 1) = true -> Math_fmin (of_Z 1) x = of_Z 1.
Proof.
  unfold ge, Math_fmin, SFleb.
  destruct (SFcompare (of_Z 1) x) as [[]|] eqn:Hc.
  - intros _. change (of_Z 1) with (S754_finite false 4503599627370496 (-52)).
    reflexivity.
  - intros _. reflexivity.
  - rewrite Hc. discriminate.
  - change (SFcompare (of_Z 1) S754_nan) with (@None comparison). discriminate.
Qed.

(** Once the time elapsed is at least the duration, the progress the
    callback computes is at least 1. *)
Lemma progress_reaches_one d (elapsed : Z) :
  double d -> isFinite d = true -> gt d (of_Z 0) = true ->
  le d (of_Z elapsed) = true ->
  ge (Math_fmin (of_Z 1) (div (of_Z elapsed) d)) (of_Z 1) = true.
Proof.
  intros Hd Hfin Hpos Hle.
  pose proof (div_reaches_one (of_Z elapsed) d (of_Z_double elapsed) Hd Hfin Hpos Hle) as Hq.
  unfold ge, SFleb in Hq. unfold Math_fmin.
  destruct (SFcompare (of_Z 1) (div (of_Z elapsed) d)) as [[]|]; try discriminate Hq;
    reflexivity.
Qed.

(** At progress 1 the interpolation between two bytes is the target
    byte: all 65536 pairs, in double precision. *)
Definition arrival_ok (start : number) (s e : Z) : bool :=
  ToUint8 (clamp255 (lerp start (or_zero (Some (of_Z e))) (of_Z 1))) =? e.

Lemma arrival_table :
  forallb (fun s => forallb (arrival_ok (or_zero (Some (of_Z s))) s) bytes) bytes = true.
Proof. vm_compute. reflexivity. Qed.

Lemma arrival s e :
  byte s -> byte e ->
  ToUint8 (clamp255 (lerp (or_zero (Some (of_Z s))) (or_zero (Some (of_Z e))) (of_Z 1))) = e.
Proof.
  intros Hs He. apply Z.eqb_eq.
  exact (forallb_bytes2 (fun s => or_zero (Some (of_Z s))) arrival_ok arrival_table s e Hs He).
Qed.

Lemma gt_not_le a b : gt a b = true -> le a b = false.
Proof.
  intros Hgt. destruct (le a b) eqn:Hle; [|reflexivity].
  rewrite (le_not_gt _ _ Hle) in Hgt. discriminate.
Qed.

(** The channels after the tick at which progress reaches 1, when the
    fade runs between two arrays of bytes. *)
Lemma tick_arrives f (raw target : list Z) u :
  startChannels f = of_Z <$> raw -> targetChannels f = of_Z <$> target ->
  Forall byte raw -> Forall byte target ->
  length raw = 512%nat -> length target = 512%nat ->
  length (channels u) = 512%nat ->
  channels (applied (interpolated f (of_Z 1)) u) = target.
Proof.
  intros Hstart Htarget Hraw Htgt Hlr Hlt Hlu.
  apply list_eq. intros i.
  destruct (decide (i < 512)%nat) as [Hi|Hi].
  - rewrite (tick_channel _ _ _ _ Hlu Hi), Hstart, Htarget, !list_lookup_fmap.
    destruct (lookup_lt_is_Some_2 raw i) as [s Hs]; [lia|].
    destruct (lookup_lt_is_Some_2 target i) as [e He]; [lia|].
    rewrite Hs, He. cbn [fmap option_fmap option_map]. f_equal.
    apply arrival.
    + exact (Forall_lookup_1 _ _ _ _ Hraw Hs).
    + exact (Forall_lookup_1 _ _ _ _ Htgt He).
  - rewrite !lookup_ge_None_2; [reflexivity|lia|rewrite applied_length; lia].
Qed.

Lemma getRaw_value u : Eff.value (getRaw u) = channels u.
Proof. reflexivity. Qed.

(** C5.  (1) [fadeTo] with a duration <= 0 applies the target at once and
    returns a resolved promise, having resolved the promise of a fade it
    found active.  (2) With a duration > 0 it records the
    raw channels and the time, sets an interval of 25 ms and returns a
    pending promise; each tick of the interval then runs [applySnapshot] on the interpolated array,
    which leaves in every raw channel i the clamped rounded value of
    start[i] + (target[i] - start[i]) * min(1, elapsed / duration).
    (3) The tick at which progress reaches 1 clears the interval, resolves
    the promise and, the target being bytes, leaves the raw channels
    equal to the target.  (4) A second [fadeTo] (T2, d2) issued while a
    fade is active resolves the promise of the first, and a tick of the
    second once the time elapsed is at least d2 (a finite double) leaves
    the raw channels equal to T2 and resolves the second promise. *)
Theorem fadeTo_interpolates_and_completes :
  (forall target d now u e,
      le d (of_Z 0) = true ->
      let r := fadeTo target d now (u, e) in
      Eff.value r = AlreadyResolved /\
      (Eff.state r).1 = Eff.state (applySnapshot target u) /\
      activeFade (Eff.state r).2 = None /\
      (forall p, fadeResolve e = Some p -> PromiseResolved p ∈ Eff.trace r)) /\
  (forall target d now0 u0 e0,
      gt d (of_Z 0) = true ->
      let r0 := fadeTo target d now0 (u0, e0) in
      (exists p, Eff.value r0 = Pending p /\ fadeResolve (Eff.state r0).2 = Some p) /\
      (Eff.state r0).1 = u0 /\
      activeFade (Eff.state r0).2 = Some (mkFade target d (of_Z <$> channels u0) now0) /\
      SetInterval 25 ∈ Eff.trace r0 /\
      forall u now i,
        length (channels u) = 512%nat -> (i < 512)%nat ->
        let r := tick now (u, (Eff.state r0).2) in
        let progress := Math_fmin (of_Z 1) (div (of_Z (now - now0)) d) in
        (exists snapshot, (Eff.state r).1 = Eff.state (applySnapshot snapshot u)) /\
        channels (Eff.state r).1 !! i
        = Some (ToUint8 (clamp255 (lerp (or_zero ((of_Z <$> channels u0) !! i))
                                        (or_zero (target !! i)) progress)))) /\
  (forall f p n u now (target : list Z) (raw : list Z),
      ge (progress_at f now) (of_Z 1) = true ->
      startChannels f = of_Z <$> raw -> targetChannels f = of_Z <$> target ->
      Forall byte raw -> Forall byte target ->
      length raw = 512%nat -> length target = 512%nat -> length (channels u) = 512%nat ->
      let r := tick now (u, FadeEngine.mk (Some f) (Some p) n) in
      activeFade (Eff.state r).2 = None /\
      ClearInterval ∈ Eff.trace r /\
      PromiseResolved p ∈ Eff.trace r /\
      Eff.value (getRaw (Eff.state r).1) = target) /\
  (forall f1 p1 n u (T2 : list Z) d2 now2 u' now,
      (p1 < n)%nat ->
      double d2 -> isFinite d2 = true -> gt d2 (of_Z 0) = true ->
      Forall byte T2 -> length T2 = 512%nat ->
      well_formed u -> length (channels u') = 512%nat ->
      le d2 (of_Z (now - now2)) = true ->
      let r2 := fadeTo (of_Z <$> T2) d2 now2 (u, FadeEngine.mk (Some f1) (Some p1) n) in
      let r := tick now (u', (Eff.state r2).2) in
      PromiseResolved p1 ∈ Eff.trace r2 /\
      (exists p2, Eff.value r2 = Pending p2 /\ p2 <> p1 /\ PromiseResolved p2 ∈ Eff.trace r) /\
      activeFade (Eff.state r).2 = None /\
      Eff.value (getRaw (Eff.state r).1) = T2).
Proof.
  split; [|split; [|split]].
  - intros target d now u e Hd. cbv zeta.
    rewrite (fadeTo_instant _ _ _ _ _ Hd), applySnapshot_run.
    split; [reflexivity|]. split; [reflexivity|]. split; [reflexivity|].
    intros p Hp. cbn [Eff.trace snd]. apply elem_of_app. left.
    unfold cancel_trace. rewrite Hp. apply elem_of_app. right. left.
  - intros target d now0 u0 e0 Hd. cbv zeta.
    rewrite (fadeTo_start _ _ _ _ _ (gt_not_le _ _ Hd)).
    cbn [Eff.value Eff.state fst snd started activeFade fadeResolve].
    split; [eexists; split; reflexivity|]. split; [reflexivity|]. split; [reflexivity|].
    split; [cbn [Eff.trace snd]; apply elem_of_app; right; right; left|].
    intros u now i Hlen Hi.
    rewrite (tick_run now u (started target d now0 u0 e0)
               (mkFade target d (of_Z <$> channels u0) now0) eq_refl).
    cbv zeta. cbn [Eff.state fst snd].
    split.
    + exists (interpolated (mkFade target d (of_Z <$> channels u0) now0)
                (progress_at (mkFade target d (of_Z <$> channels u0) now0) now)).
      rewrite applySnapshot_run. reflexivity.
    + exact (tick_channel (mkFade target d (of_Z <$> channels u0) now0) _ u i Hlen Hi).
  - intros f p n u now target raw Hp Hstart Htarget Hraw Htgt Hlr Hlt Hlu. cbv zeta.
    rewrite (tick_run now u (FadeEngine.mk (Some f) (Some p) n) f eq_refl). cbv zeta. rewrite Hp.
    cbn [Eff.state Eff.trace Eff.value fst snd idle activeFade].
    split; [reflexivity|]. split; [|split].
    + apply elem_of_app. right. cbn. left.
    + apply elem_of_app. right. cbn. right. left.
    + rewrite getRaw_value. unfold progress_at in Hp |- *.
      rewrite (fmin_one_reached _ Hp).
      exact (tick_arrives f raw target u Hstart Htarget Hraw Htgt Hlr Hlt Hlu).
  - intros f1 p1 n u T2 d2 now2 u' now Hp1 Hdouble Hfin Hd Hb2 Hl2 [Hlu Hbu] Hlu' Hle.
    pose proof (progress_reaches_one d2 (now - now2) Hdouble Hfin Hd Hle) as Hp.
    cbv zeta. rewrite (fadeTo_start _ _ _ _ _ (gt_not_le _ _ Hd)).
    cbn [Eff.value Eff.state Eff.trace fst snd started created].
    rewrite (tick_run now u' (started (of_Z <$> T2) d2 now2 u (FadeEngine.mk (Some f1) (Some p1) n))
               (mkFade (of_Z <$> T2) d2 (of_Z <$> channels u) now2) eq_refl).
    cbv zeta.
    unfold progress_at. cbn [startTime durationMs]. rewrite Hp.
    cbn [Eff.state Eff.trace Eff.value fst snd idle activeFade].
    split; [|split; [|split]].
    + apply elem_of_app. left. cbn. right. right. left.
    + exists n. split; [reflexivity|]. split.
      * lia.
      * apply elem_of_app. right. cbn. right. left.
    + reflexivity.
    + rewrite getRaw_value, (fmin_one_reached _ Hp).
      exact (tick_arrives (mkFade (of_Z <$> T2) d2 (of_Z <$> channels u) now2)
               (channels u) T2 u' eq_refl eq_refl Hbu Hb2 Hlu Hl2 Hlu').
Qed.

Definition sample_fade : fade := mkFade [] (of_Z 100) [] 0.

Lemma fadeTo_interpolates_and_completes_witness :
  let r2 := fadeTo (of_Z <$> replicate 512 9) (of_Z 50) 1030
              (DMXUniverse.constructor, FadeEngine.mk (Some sample_fade) (Some 0%nat) 1) in
  let r := tick 1080 (DMXUniverse.constructor, (Eff.state r2).2) in
  PromiseResolved 0%nat ∈ Eff.trace r2 /\
  (exists p2, Eff.value r2 = Pending p2 /\ p2 <> 0%nat /\ PromiseResolved p2 ∈ Eff.trace r) /\
  activeFade (Eff.state r).2 = None /\
  Eff.value (getRaw (Eff.state r).1) = replicate 512 9.
Proof.
  apply (proj2 (proj2 (proj2 fadeTo_interpolates_and_completes))
           sample_fade 0%nat 1%nat DMXUniverse.constructor (replicate 512 9) (of_Z 50) 1030
           DMXUniverse.constructor 1080).
  - lia.
  - vm_compute. reflexivity.
  - reflexivity.
  - reflexivity.
  - apply Forall_replicate. unfold byte. lia.
  - apply length_replicate.
  - exact constructor_well_formed.
  - apply length_replicate.
  - vm_compute. reflexivity.
Defined.
End FadeFacts.

(** ** fixture-manager.ts *)

(** DMX addresses, mode values and default values are integers; object
    literals whose keys matter in order ([profile.channels], [mode.controls],
    [mode.defaults]) are association lists in the order of [Object.keys]. *)

Module FixtureManager.
Local Open Scope Z_scope.

Record FixtureChannel := mkFixtureChannel {
  channel_name : string;
  dmxChannel : Z
}.

Inductive ColorMode := rgb | hsb.

Inductive ProfileControlType := fader | momentary | toggle | stepped.

Record ProfileControl := mkProfileControl {
  control_label : string;
  control_type : ProfileControlType;
  control_icon : option string;
  steps : option (list (string * Z));
  extraButtons : option (list (string * Z * option string))
}.

Record ProfileChannelDef := mkProfileChannelDef {
  role : string;
  label : string
}.

Record ColorWheelGroup := mkColorWheelGroup {
  hueChannel : string;
  saturationChannel : string;
  brightnessChannel : option string
}.

Record ProfileMode := mkProfileMode {
  mode_name : string;
  channelValue : Z;
  mode_icon : option string;
  controls : list (string * option ProfileControl);
  colorWheelGroup : option ColorWheelGroup;
  defaults : option (list (string * Z))
}.

Record FixtureProfile := mkFixtureProfile {
  fixture : string;
  channelCount : Z;
  modeChannel : option string;
  profile_channels : list (string * ProfileChannelDef);
  modes : list ProfileMode
}.

Record CanvasLayout := mkCanvasLayout {
  x : Z; y : Z; rotation : Z; width : Z; height : Z
}.

Record Fixture := mkFixture {
  id : string;
  name : string;
  type : string;
  colorMode : option ColorMode;
  channels : list FixtureChannel;
  createdAt : string;
  updatedAt : string;
  profile : option FixtureProfile;
  startAddress : option Z;
  activeMode : option string;
  onCanvas : option bool;
  canvasLayout : option CanvasLayout
}.

#[global] Instance FixtureChannel_eq_dec : EqDecision FixtureChannel.
Proof. solve_decision. Defined.
#[global] Instance ColorMode_eq_dec : EqDecision ColorMode.
Proof. solve_decision. Defined.
#[global] Instance ProfileControlType_eq_dec : EqDecision ProfileControlType.
Proof. solve_decision. Defined.
#[global] Instance ProfileControl_eq_dec : EqDecision ProfileControl.
Proof. solve_decision. Defined.
#[global] Instance ProfileChannelDef_eq_dec : EqDecision ProfileChannelDef.
Proof. solve_decision. Defined.
#[global] Instance ColorWheelGroup_eq_dec : EqDecision ColorWheelGroup.
Proof. solve_decision. Defined.
#[global] Instance ProfileMode_eq_dec : EqDecision ProfileMode.
Proof. solve_decision. Defined.
#[global] Instance FixtureProfile_eq_dec : EqDecision FixtureProfile.
Proof. solve_decision. Defined.

(** An entry of the list [setActiveMode] returns. *)
Record write := mkWrite {
  channel : Z;
  value : Z
}.

Inductive event :=
| LogInfoSynced (fixtureName targetName : string)
| LogWarnNoModeChannel (profileName : string)
| LogInfoSetMode (modeName fixtureName : string) (dmxChannel channelValue : Z)
    (defaultCount : nat).

(** The manager: the 'fixtures' key of the store, and the bundled
    profiles in the insertion order of the [Map]. *)
Record t := mk {
  store_fixtures : list Fixture;
  bundledProfiles : list (string * FixtureProfile)
}.

Definition M := Eff.M t event.

(** The result of a method that may [throw new Error(message)]. *)
Inductive result (A : Type) :=
| Ok (a : A)
| Throw (message : string).
Arguments Ok {A} a.
Arguments Throw {A} message.

(** [s] between double quotes, as the error messages show names. *)
Definition quoted (s : string) : string :=
  String (Ascii.ascii_of_nat 34) s +:+ String (Ascii.ascii_of_nat 34) EmptyString.

(** [s || fallback] on strings: the empty string is falsy. *)
Definition or_string (s fallback : string) : string :=
  if decide (s = "") then fallback else s.

Definition findBundledProfileByFixtureName (m : t) (fixtureName : string)
  : option FixtureProfile :=
  if decide (fixtureName = "") then None
  else (fun found => found.2.2)
         <$> list_find (fun e => fixture e.2 = fixtureName) (bundledProfiles m).

Definition with_profile (f : Fixture) (p : option FixtureProfile) : Fixture :=
  mkFixture (id f) (name f) (type f) (colorMode f) (channels f) (createdAt f)
    (updatedAt f) p (startAddress f) (activeMode f) (onCanvas f) (canvasLayout f).

Definition with_colorMode (f : Fixture) (c : option ColorMode) : Fixture :=
  mkFixture (id f) (name f) (type f) c (channels f) (createdAt f)
    (updatedAt f) (profile f) (startAddress f) (activeMode f) (onCanvas f) (canvasLayout f).

Definition with_activeMode (f : Fixture) (mode : string) (now : string) : Fixture :=
  mkFixture (id f) (name f) (type f) (colorMode f) (channels f) (createdAt f)
    now (profile f) (startAddress f) (Some mode) (onCanvas f) (canvasLayout f).

(** The body of the [map] callback in [getAll]: the fixture returned,
    and whether [didUpdate] was set.  Two profiles have the same
    [JSON.stringify] image when they are equal. *)
Definition normalize (m : t) (f : Fixture) : Fixture * bool :=
  let normalized := with_colorMode f (Some (default rgb (colorMode f))) in
  match profile normalized with
  | Some stored =>
      let targetName := or_string (fixture stored) (type normalized) in
      match findBundledProfileByFixtureName m targetName with
      | Some bundledProfile =>
          if decide (stored = bundledProfile) then (normalized, false)
          else (with_profile normalized (Some bundledProfile), true)
      | None => (normalized, false)
      end
  | None => (normalized, false)
  end.

Definition getAll : M (list Fixture) :=
  m ← Eff.get;
  let fixtures := store_fixtures m in
  let updated := normalize m <$> fixtures in
  let updatedFixtures := fst <$> updated in
  Eff.for_of (filter (fun r => r.2 = true) updated)
    (fun r => Eff.emit (LogInfoSynced (name r.1)
                (default "" ((fun p => or_string (fixture p) (type r.1)) <$> profile r.1))));;
  (if existsb snd updated
   then Eff.put (mk updatedFixtures (bundledProfiles m))
   else Eff.ret tt);;
  Eff.ret updatedFixtures.

Definition getById (fixtureId : string) : M (option Fixture) :=
  fixtures ← getAll;
  Eff.ret (snd <$> list_find (fun f => id f = fixtureId) fixtures).

(** [Object.keys(o).sort()]: the keys in ascending order of their code
    units. *)
Fixpoint insert_sorted (k : string) (l : list string) : list string :=
  match l with
  | [] => [k]
  | k' :: l' => if String.leb k k' then k :: l else k' :: insert_sorted k l'
  end.

Definition sort (l : list string) : list string := foldr insert_sorted [] l.

(** [a.indexOf(x)], [None] standing for -1. *)
Definition indexOf (a : list string) (x : string) : option nat :=
  fst <$> list_find (fun k => k = x) a.

Definition setActiveMode (fixtureId modeName : string) (now : string)
  : M (result (list write)) :=
  fixtures ← getAll;
  match list_find (fun f => id f = fixtureId) fixtures with
  | None => Eff.ret (Throw ("Fixture not found: " +:+ fixtureId))
  | Some (index, fixture_) =>
  match profile fixture_ with
  | None => Eff.ret (Throw ("Fixture " +:+ quoted (name fixture_) +:+ " is not a profile fixture"))
  | Some profile_ =>
  match list_find (fun m => mode_name m = modeName) (modes profile_) with
  | None => Eff.ret (Throw ("Mode " +:+ quoted modeName +:+ " not found in profile "
                            +:+ quoted (fixture profile_)))
  | Some (_, mode) =>
  match modeChannel profile_ with
  | None | Some "" =>
      Eff.emit (LogWarnNoModeChannel (fixture profile_));;
      Eff.ret (Ok [])
  | Some modeChannelKey =>
  let channelKeys := sort (fst <$> profile_channels profile_) in
  match indexOf channelKeys modeChannelKey, startAddress fixture_ with
  | None, _ | _, None | _, Some 0 => Eff.ret (Ok [])
  | Some modeChannelIndex, Some startAddress_ =>
      let dmxChannel_ := startAddress_ + Z.of_nat modeChannelIndex in
      let results := [mkWrite dmxChannel_ (channelValue mode)] in
      let results :=
        foldl (fun results '(chKey, val) =>
                 match indexOf channelKeys chKey with
                 | Some chIndex => results ++ [mkWrite (startAddress_ + Z.of_nat chIndex) val]
                 | None => results
                 end)
              results (default [] (defaults mode)) in
      m ← Eff.get;
      Eff.put (mk (<[index := with_activeMode fixture_ modeName now]> fixtures)
                  (bundledProfiles m));;
      Eff.emit (LogInfoSetMode modeName (name fixture_) dmxChannel_ (channelValue mode)
                  (length results - 1));;
      Eff.ret (Ok results)
  end end end end end.
End FixtureManager.

(** ** Fixtures: mode activation *)

Module FixtureFacts.
Import FixtureManager.
Local Open Scope Z_scope.

(** *** [getAll] returns fixtures it would return again *)

Lemma findBundled_Some m targetName bp :
  findBundledProfileByFixtureName m targetName = Some bp ->
  targetName <> "" /\ fixture bp = targetName.
Proof.
  unfold findBundledProfileByFixtureName.
  destruct (decide (targetName = "")) as [|Hne]; [discriminate|].
  destruct (list_find _ _) as [[i [key p]]|] eqn:Hfind; [|discriminate].
  cbn. intros [= <-]. apply list_find_Some in Hfind as (_ & Hp & _).
  split; [exact Hne|exact Hp].
Qed.

#[local] Arguments findBundledProfileByFixtureName : simpl never.
#[local] Arguments or_string : simpl never.

Lemma normalize_idempotent m f :
  normalize m (normalize m f).1 = ((normalize m f).1, false).
Proof.
  destruct f as [fid fname ftype fcm fch fca fua [stored|] fsa fam foc fcl];
    unfold normalize; cbn; [|reflexivity].
  destruct (findBundledProfileByFixtureName m (or_string (fixture stored) ftype))
    as [bp|] eqn:Hfind; cbn.
  - destruct (decide (stored = bp)) as [->|Hne]; cbn.
    + rewrite Hfind. destruct (decide (bp = bp)); [reflexivity|congruence].
    + destruct (findBundled_Some _ _ _ Hfind) as [Hne' Hfix].
      assert (Htarget : or_string (fixture bp) ftype = or_string (fixture stored) ftype).
      { rewrite Hfix. unfold or_string at 1.
        destruct (decide (or_string (fixture stored) ftype = "")); congruence. }
      rewrite Htarget, Hfind.
      destruct (decide (bp = bp)); [reflexivity|congruence].
  - rewrite Hfind. reflexivity.
Qed.

(** A fixture the [map] of [getAll] returns as it is. *)
Definition normalized (bundled : list (string * FixtureProfile)) (f : Fixture) : Prop :=
  forall m, bundledProfiles m = bundled -> normalize m f = (f, false).

Lemma normalize_bundled m m' f :
  bundledProfiles m = bundledProfiles m' -> normalize m f = normalize m' f.
Proof.
  intros H. unfold normalize, findBundledProfileByFixtureName. rewrite H. reflexivity.
Qed.

Lemma normalize_normalized m f : normalized (bundledProfiles m) (normalize m f).1.
Proof.
  intros m' Hm'. rewrite (normalize_bundled m' m _ Hm'). apply normalize_idempotent.
Qed.

Lemma normalized_with_activeMode bundled f mode now :
  normalized bundled f -> normalized bundled (with_activeMode f mode now).
Proof.
  intros Hf m Hm. specialize (Hf m Hm). revert Hf.
  destruct f as [fid fname ftype fcm fch fca fua [stored|] fsa fam foc fcl];
    unfold normalize; cbn.
  - destruct (findBundledProfileByFixtureName m (or_string (fixture stored) ftype))
      as [bp|]; cbn.
    + destruct (decide (stored = bp)); cbn; [|discriminate].
      unfold with_colorMode, with_activeMode. cbn. intros Heq. congruence.
    + unfold with_colorMode, with_activeMode. cbn. intros Heq. congruence.
  - unfold with_colorMode, with_activeMode. cbn. intros Heq. congruence.
Qed.

(** The fixtures as [getAll] returns them. *)
Definition fixtures_of (m : t) : list Fixture :=
  fst <$> (normalize m <$> store_fixtures m).

Lemma getAll_value m : Eff.value (getAll m) = fixtures_of m.
Proof.
  unfold getAll, mbind, M_bind, Eff.bind.
  change (Eff.get m) with (m, m, @nil event). cbv beta iota zeta.
  destruct (Eff.for_of _ _ m) as [[[] m1] t1].
  destruct (existsb snd (normalize m <$> store_fixtures m)); reflexivity.
Qed.

Lemma getAll_bundled m : bundledProfiles (Eff.state (getAll m)) = bundledProfiles m.
Proof.
  unfold getAll, mbind, M_bind, Eff.bind.
  change (Eff.get m) with (m, m, @nil event). cbv beta iota zeta.
  rewrite for_of_emit.
  destruct (existsb snd (normalize m <$> store_fixtures m)); reflexivity.
Qed.

Lemma fixtures_of_normalized m : Forall (normalized (bundledProfiles m)) (fixtures_of m).
Proof.
  unfold fixtures_of. rewrite <- list_fmap_compose.
  apply Forall_fmap, Forall_forall. intros f _. apply normalize_normalized.
Qed.

Lemma fixtures_of_fixpoint l bundled :
  Forall (normalized bundled) l -> fixtures_of (mk l bundled) = l.
Proof.
  intros H. unfold fixtures_of. cbn [store_fixtures].
  induction H as [|f l Hf _ IH]; [reflexivity|].
  cbn [fmap list_fmap]. rewrite (Hf (mk (f :: l) bundled) eq_refl). cbn [fst]. f_equal.
  etransitivity; [|exact IH].
  apply (f_equal (fmap fst)). apply list_fmap_ext. intros _ g _.
  apply normalize_bundled. reflexivity.
Qed.

(** *** The writes of a mode *)

(** The DMX address of the mode-select channel, when the guards of
    [setActiveMode] let it through: the profile names a mode channel, the
    name is one of the profile's channel keys, and the fixture has a
    start address other than 0. *)
Definition mode_select (p : FixtureProfile) (f : Fixture) : option (Z * nat) :=
  match modeChannel p with
  | None | Some "" => None
  | Some modeChannelKey =>
      match indexOf (sort (fst <$> profile_channels p)) modeChannelKey, startAddress f with
      | None, _ | _, None | _, Some 0 => None
      | Some i, Some a => Some (a, i)
      end
  end.

(** One write per default whose key is a channel key of the profile. *)
Definition default_writes (a : Z) (channelKeys : list string) (defaults : list (string * Z))
  : list write :=
  omap (fun '(chKey, val) =>
          (fun chIndex => mkWrite (a + Z.of_nat chIndex) val) <$> indexOf channelKeys chKey)
       defaults.

Lemma defaults_loop a channelKeys defaults results :
  foldl (fun results '(chKey, val) =>
           match indexOf channelKeys chKey with
           | Some chIndex => results ++ [mkWrite (a + Z.of_nat chIndex) val]
           | None => results
           end) results defaults
  = results ++ default_writes a channelKeys defaults.
Proof.
  revert results. induction defaults as [|[chKey val] defaults IH]; intros results.
  - cbn. rewrite app_nil_r. reflexivity.
  - cbn [foldl]. rewrite IH. unfold default_writes. cbn [omap list_omap].
    destruct (indexOf channelKeys chKey) as [chIndex|]; cbn [fmap option_fmap option_map].
    + rewrite <- app_assoc. reflexivity.
    + reflexivity.
Qed.

Lemma run_eta {S E A} (r : A * S * list E) : r = (Eff.value r, Eff.state r, Eff.trace r).
Proof. destruct r as [[a s] t]. reflexivity. Qed.

Ltac enter_setActiveMode m :=
  unfold setActiveMode, mbind, M_bind, Eff.bind;
  rewrite (run_eta (getAll m)), getAll_value; cbv beta iota zeta.

Lemma setActiveMode_unknown_fixture m fixtureId modeName now :
  list_find (fun f => id f = fixtureId) (fixtures_of m) = None ->
  let r := setActiveMode fixtureId modeName now m in
  Eff.value r = Throw ("Fixture not found: " +:+ fixtureId) /\
  Eff.state r = Eff.state (getAll m).
Proof. intros Hfind. cbv zeta. enter_setActiveMode m. rewrite Hfind. split; reflexivity. Qed.

Lemma setActiveMode_not_profile m fixtureId modeName now index f :
  list_find (fun f => id f = fixtureId) (fixtures_of m) = Some (index, f) ->
  profile f = None ->
  let r := setActiveMode fixtureId modeName now m in
  Eff.value r = Throw ("Fixture " +:+ quoted (name f) +:+ " is not a profile fixture") /\
  Eff.state r = Eff.state (getAll m).
Proof.
  intros Hfind Hp. cbv zeta. enter_setActiveMode m. rewrite Hfind, Hp. split; reflexivity.
Qed.

Lemma setActiveMode_unknown_mode m fixtureId modeName now index f p :
  list_find (fun f => id f = fixtureId) (fixtures_of m) = Some (index, f) ->
  profile f = Some p ->
  list_find (fun md => mode_name md = modeName) (modes p) = None ->
  let r := setActiveMode fixtureId modeName now m in
  Eff.value r = Throw ("Mode " +:+ quoted modeName +:+ " not found in profile "
                       +:+ quoted (fixture p)) /\
  Eff.state r = Eff.state (getAll m).
Proof.
  intros Hfind Hp Hmode. cbv zeta. enter_setActiveMode m.
  rewrite Hfind, Hp, Hmode. split; reflexivity.
Qed.

Lemma setActiveMode_no_mode_select m fixtureId modeName now index f p j mode :
  list_find (fun f => id f = fixtureId) (fixtures_of m) = Some (index, f) ->
  profile f = Some p ->
  list_find (fun md => mode_name md = modeName) (modes p) = Some (j, mode) ->
  mode_select p f = None ->
  let r := setActiveMode fixtureId modeName now m in
  Eff.value r = Ok [] /\ Eff.state r = Eff.state (getAll m).
Proof.
  intros Hfind Hp Hmode Hsel. cbv zeta. enter_setActiveMode m.
  rewrite Hfind, Hp, Hmode. unfold mode_select in Hsel.
  destruct (modeChannel p) as [[|c key]|]; [split; reflexivity| |split; reflexivity].
  destruct (indexOf _ _) as [i|]; [|split; reflexivity].
  destruct (startAddress f) as [[|a|a]|]; try discriminate; split; reflexivity.
Qed.

Lemma setActiveMode_success m fixtureId modeName now index f p j mode a i :
  list_find (fun f => id f = fixtureId) (fixtures_of m) = Some (index, f) ->
  profile f = Some p ->
  list_find (fun md => mode_name md = modeName) (modes p) = Some (j, mode) ->
  mode_select p f = Some (a, i) ->
  let r := setActiveMode fixtureId modeName now m in
  Eff.value r
  = Ok (mkWrite (a + Z.of_nat i) (channelValue mode)
        :: default_writes a (sort (fst <$> profile_channels p)) (default [] (defaults mode))) /\
  Eff.state r
  = mk (<[index := with_activeMode f modeName now]> (fixtures_of m)) (bundledProfiles m).
Proof.
  intros Hfind Hp Hmode Hsel. cbv zeta. enter_setActiveMode m.
  rewrite Hfind, Hp, Hmode. unfold mode_select in Hsel.
  destruct (modeChannel p) as [[|c key]|]; try discriminate.
  destruct (indexOf _ _) as [i'|]; [|discriminate].
  destruct (startAddress f) as [[|a'|a']|]; try discriminate;
    injection Hsel as <- <-; rewrite defaults_loop;
    cbn [Eff.value Eff.state Eff.get Eff.put Eff.emit Eff.ret fst snd app];
    rewrite getAll_bundled; split; reflexivity.
Qed.

(** After the store has been written, the fixture is read back with its
    new active mode. *)
Lemma getById_after_setActiveMode m fixtureId index f modeName now :
  list_find (fun f => id f = fixtureId) (fixtures_of m) = Some (index, f) ->
  Eff.value (getById fixtureId
               (mk (<[index := with_activeMode f modeName now]> (fixtures_of m))
                   (bundledProfiles m)))
  = Some (with_activeMode f modeName now).
Proof.
  intros Hfind. unfold getById, mbind, M_bind, Eff.bind.
  rewrite (run_eta (getAll _)), getAll_value. cbn [Eff.value Eff.ret fst].
  rewrite fixtures_of_fixpoint.
  - apply list_find_Some in Hfind as (Hlookup & Hid & Hfirst).
    assert (Hnew : list_find (fun f => id f = fixtureId)
                     (<[index := with_activeMode f modeName now]> (fixtures_of m))
                   = Some (index, with_activeMode f modeName now)).
    { apply list_find_insert_Some. right. left.
      split; [reflexivity|]. split; [reflexivity|].
      split; [exact (lookup_lt_Some _ _ _ Hlookup)|].
      split; [exact Hid|]. intros j g Hg Hj. exact (Hfirst j g Hg Hj). }
    rewrite Hnew. reflexivity.
  - apply Forall_insert; [apply fixtures_of_normalized|].
    apply normalized_with_activeMode.
    apply list_find_Some in Hfind as (Hlookup & _).
    exact (Forall_lookup_1 _ _ _ _ (fixtures_of_normalized m) Hlookup).
Qed.

(** *** The claim as the specification words it *)

(** [indexOf] as a number: -1 when the key is absent. *)
Definition indexOf_number (a : list string) (k : string) : Z :=
  match indexOf a k with
  | Some i => Z.of_nat i
  | None => -1
  end.

(** The list the specification describes: the mode-select write first,
    omitted if the profile has no mode channel, then one write per entry
    of the defaults. *)
Definition specified_writes (a : Z) (p : FixtureProfile) (mode : ProfileMode) : list write :=
  let channelKeys := sort (fst <$> profile_channels p) in
  match modeChannel p with
  | Some key => [mkWrite (a + indexOf_number channelKeys key) (channelValue mode)]
  | None => []
  end
  ++ ((fun '(key, val) => mkWrite (a + indexOf_number channelKeys key) val)
        <$> default [] (defaults mode)).

Definition strobe : ProfileMode :=
  mkProfileMode "Strobe" 128 None [] None (Some [("ch4", 50)]).

Definition par_without_mode_channel : FixtureProfile :=
  mkFixtureProfile "Par" 5 None
    [("ch1", mkProfileChannelDef "dimmer" "Dimmer");
     ("ch2", mkProfileChannelDef "mode-select" "Mode");
     ("ch3", mkProfileChannelDef "dynamic" "Speed");
     ("ch4", mkProfileChannelDef "dynamic" "Rate");
     ("ch5", mkProfileChannelDef "dynamic" "Tail")]
    [mkProfileMode "Static" 0 None [] None None; strobe].

Definition par_at_10 : Fixture :=
  mkFixture "f1" "Left par" "Par" (Some rgb) [] "t0" "t0"
    (Some par_without_mode_channel) (Some 10) (Some "Static") None None.

(** C6, counterexample.  A profile without a mode channel, whose mode
    "Strobe" has the default ch4 -> 50, on a fixture at address 10: the
    specification promises the list [{13, 50}] and the active mode
    stored; [setActiveMode] returns the empty list and the stored active
    mode is still "Static". *)
Lemma setActiveMode_without_mode_channel :
  let m := mk [par_at_10] [] in
  let r := setActiveMode "f1" "Strobe" "t1" m in
  specified_writes 10 par_without_mode_channel strobe = [mkWrite 13 50] /\
  Eff.value r = Ok [] /\
  Eff.value r <> Ok (specified_writes 10 par_without_mode_channel strobe) /\
  activeMode <$> Eff.value (getById "f1" (Eff.state r)) = Some (Some "Static").
Proof.
  cbv zeta. split; [reflexivity|]. split; [reflexivity|]. split; [|reflexivity].
  intros H. vm_compute in H. discriminate H.
Qed.

Lemma mode_select_Some p f a i :
  mode_select p f = Some (a, i) <->
  exists key, modeChannel p = Some key /\ key <> "" /\
              indexOf (sort (fst <$> profile_channels p)) key = Some i /\
              startAddress f = Some a /\ a <> 0.
Proof.
  unfold mode_select. split.
  - destruct (modeChannel p) as [[|c key]|]; try discriminate.
    destruct (indexOf _ _) as [i'|] eqn:Hi; [|discriminate].
    destruct (startAddress f) as [[|a'|a']|]; cbn; try discriminate;
      intros [= <- <-]; exists (String c key);
      (split; [reflexivity|]); (split; [discriminate|]); (split; [exact Hi|]);
      (split; [reflexivity|discriminate]).
  - intros (key & -> & Hkey & -> & -> & Ha).
    destruct key as [|c key]; [congruence|]. destruct a; congruence.
Qed.

(** C6, as amended.  [setActiveMode] throws for an unknown fixture, for a
    fixture without profile and for a mode the profile does not have.
    Otherwise, when the profile names a mode channel that is one of its
    channel keys and the fixture has a start address other than 0
    ([mode_select]), it returns the mode-select write followed, in order,
    by one write per default whose key is a channel key of the profile,
    and the fixture is read back with the new active mode; in the
    remaining cases it returns the empty list and writes nothing. *)
Theorem setActiveMode_writes m fixtureId modeName now :
  let r := setActiveMode fixtureId modeName now m in
  let found := list_find (fun f => id f = fixtureId) (Eff.value (getAll m)) in
  (found = None -> exists message, Eff.value r = Throw message) /\
  (forall index f, found = Some (index, f) ->
     (profile f = None -> exists message, Eff.value r = Throw message) /\
     (forall p, profile f = Some p ->
        let mode_found := list_find (fun md => mode_name md = modeName) (modes p) in
        (mode_found = None -> exists message, Eff.value r = Throw message) /\
        (forall j mode, mode_found = Some (j, mode) ->
           (mode_select p f = None ->
              Eff.value r = Ok [] /\ Eff.state r = Eff.state (getAll m)) /\
           (forall a i, mode_select p f = Some (a, i) ->
              Eff.value r
              = Ok (mkWrite (a + Z.of_nat i) (channelValue mode)
                    :: default_writes a (sort (fst <$> profile_channels p))
                         (default [] (defaults mode))) /\
              Eff.value (getById fixtureId (Eff.state r))
              = Some (with_activeMode f modeName now))))).
Proof.
  cbv zeta. rewrite getAll_value. split.
  - intros Hfind. eexists.
    exact (proj1 (setActiveMode_unknown_fixture m fixtureId modeName now Hfind)).
  - intros index f Hfind. split.
    + intros Hp. eexists.
      exact (proj1 (setActiveMode_not_profile m _ modeName now _ _ Hfind Hp)).
    + intros p Hp. split.
      * intros Hmode. eexists.
        exact (proj1 (setActiveMode_unknown_mode m _ _ now _ _ _ Hfind Hp Hmode)).
      * intros j mode Hmode. split.
        -- intros Hsel.
           exact (setActiveMode_no_mode_select m _ _ now _ _ _ _ _ Hfind Hp Hmode Hsel).
        -- intros a i Hsel.
           destruct (setActiveMode_success m _ _ now _ _ _ _ _ _ _ Hfind Hp Hmode Hsel)
             as [Hval Hst].
           split; [exact Hval|]. rewrite Hst.
           apply getById_after_setActiveMode, Hfind.
Qed.

(** The profile of scenario S5: mode channel ch2, a mode of value 128
    with the default ch4 -> 50. *)
Definition par_with_mode_channel : FixtureProfile :=
  mkFixtureProfile "Par" 5 (Some "ch2")
    [("ch1", mkProfileChannelDef "dimmer" "Dimmer");
     ("ch2", mkProfileChannelDef "mode-select" "Mode");
     ("ch3", mkProfileChannelDef "dynamic" "Speed");
     ("ch4", mkProfileChannelDef "dynamic" "Rate");
     ("ch5", mkProfileChannelDef "dynamic" "Tail")]
    [mkProfileMode "Static" 0 None [] None None; strobe].

Definition par_s5 : Fixture :=
  mkFixture "f1" "Left par" "Par" (Some rgb) [] "t0" "t0"
    (Some par_with_mode_channel) (Some 10) (Some "Static") None None.

Lemma setActiveMode_writes_witness :
  let r := setActiveMode "f1" "Strobe" "t1" (mk [par_s5] []) in
  Eff.value r = Ok [mkWrite 11 128; mkWrite 13 50] /\
  Eff.value (getById "f1" (Eff.state r)) = Some (with_activeMode par_s5 "Strobe" "t1").
Proof.
  exact (proj2 (proj2 (proj2 (proj2 (setActiveMode_writes (mk [par_s5] []) "f1" "Strobe" "t1")
                                0%nat par_s5 eq_refl)
                         par_with_mode_channel eq_refl)
                  1%nat strobe eq_refl)
           10 1%nat eq_refl).
Defined.
End FixtureFacts.

(** ** preset-manager.ts *)

Module PresetManager.
Import JS.
Local Open Scope Z_scope.

Record Preset := mkPreset {
  id : string;
  name : string;
  channels : list number;
  fadeTime : number;
  color : string;
  fixtureModes : option (list (string * string));
  createdAt : string;
  updatedAt : string
}.

Inductive event :=
| LogInfoCreated (name id : string)
| LogInfoUpdated (name id : string)
| LogInfoDeleted (name id : string)
| LogWarnNotFound (id : string).

(** The manager is the 'presets' key of the store. *)
Definition t := list Preset.

Definition M := Eff.M t event.

Inductive result (A : Type) :=
| Ok (a : A)
| Throw (message : string).
Arguments Ok {A} a.
Arguments Throw {A} message.

Definition getAll : M (list Preset) := Eff.get.

Definition getById (id_ : string) : M (option Preset) :=
  presets ← getAll;
  Eff.ret (snd <$> list_find (fun p => id p = id_) presets).

Definition with_channels (p : Preset) (c : list number) : Preset :=
  mkPreset (id p) (name p) c (fadeTime p) (color p) (fixtureModes p)
    (createdAt p) (updatedAt p).

(** [create]; [uuid] is what [uuidv4()] returns, [now1] and [now2] what
    the two [new Date().toISOString()] return.  The padding loop pushes
    a 0 while the length is below 512, that is 512 - length times. *)
Definition create (name_ : string) (channels_ : list number) (fadeTime_ : number)
    (color_ : string) (fixtureModes_ : option (list (string * string)))
    (uuid now1 now2 : string) : M Preset :=
  let preset :=
    mkPreset uuid name_ (take 512 channels_) fadeTime_ color_ fixtureModes_ now1 now2 in
  let preset :=
    with_channels preset
      (for_range (512 - length (channels preset))
         (fun _ c => c ++ [of_Z 0]) (channels preset)) in
  presets ← getAll;
  Eff.put (presets ++ [preset]);;
  Eff.emit (LogInfoCreated name_ (id preset));;
  Eff.ret preset.

(** The fields a patch may carry: all but [id] and [createdAt]. *)
Record Patch := mkPatch {
  patch_name : option string;
  patch_channels : option (list number);
  patch_fadeTime : option number;
  patch_color : option string;
  patch_fixtureModes : option (option (list (string * string)))
}.

Definition update (id_ : string) (patch : Patch) (now : string) : M (result Preset) :=
  presets ← getAll;
  match list_find (fun p => id p = id_) presets with
  | None => Eff.ret (Throw ("Preset not found: " +:+ id_))
  | Some (index, old) =>
      let updated :=
        mkPreset (id old)
          (default (name old) (patch_name patch))
          (default (channels old) (patch_channels patch))
          (default (fadeTime old) (patch_fadeTime patch))
          (default (color old) (patch_color patch))
          (default (fixtureModes old) (patch_fixtureModes patch))
          (createdAt old) now in
      Eff.put (<[index := updated]> presets);;
      Eff.emit (LogInfoUpdated (name updated) id_);;
      Eff.ret (Ok updated)
  end.

Definition delete (id_ : string) : M bool :=
  presets ← getAll;
  match list_find (fun p => id p = id_) presets with
  | None => Eff.emit (LogWarnNotFound id_);; Eff.ret false
  | Some (index, removed) =>
      Eff.put (take index presets ++ drop (S index) presets);;
      Eff.emit (LogInfoDeleted (name removed) id_);;
      Eff.ret true
  end.

Definition captureFromUniverse (name_ : string) (universe : DMXUniverse.t)
    (fadeTime_ : number) (color_ : string) (fixtureModes_ : option (list (string * string)))
    (uuid now1 now2 : string) : M Preset :=
  let channels_ := Eff.value (DMXUniverse.getRawChannelsArray universe) in
  create name_ channels_ fadeTime_ color_ fixtureModes_ uuid now1 now2.
End PresetManager.

(** ** Presets: padding and read-back *)

Module PresetFacts.
Import JS JSFacts DoubleFacts PresetManager.
Local Open Scope Z_scope.

(** A number that lies in [0, 255]. *)
Definition in_byte_range (x : number) : bool := le (of_Z 0) x && le x (of_Z 255).

Lemma padding_loop {A} (k : nat) (z : A) (l : list A) :
  for_range k (fun _ c => c ++ [z]) l = l ++ replicate k z.
Proof.
  induction k as [|k IH].
  - cbn. rewrite app_nil_r. reflexivity.
  - rewrite for_range_S, IH, <- app_assoc. f_equal.
    change (replicate k z ++ [z]) with (replicate k z ++ replicate 1 z).
    rewrite <- replicate_add. f_equal. lia.
Qed.

(** The channel array [create] stores for the array it is given. *)
Definition padded (channels_ : list number) : list number :=
  take 512 channels_ ++ replicate (512 - length (take 512 channels_)) (of_Z 0).

Lemma padded_length channels_ : length (padded channels_) = 512%nat.
Proof. unfold padded. rewrite length_app, length_replicate, length_take. lia. Qed.

Lemma create_run name_ channels_ fadeTime_ color_ fixtureModes_ uuid now1 now2 presets :
  let preset :=
    mkPreset uuid name_ (padded channels_) fadeTime_ color_ fixtureModes_ now1 now2 in
  create name_ channels_ fadeTime_ color_ fixtureModes_ uuid now1 now2 presets
  = (preset, presets ++ [preset], [LogInfoCreated name_ uuid]).
Proof.
  cbv zeta. unfold create, with_channels. cbn [channels id name fadeTime color
    fixtureModes createdAt updatedAt].
  rewrite padding_loop. reflexivity.
Qed.

Lemma getById_created uuid preset presets :
  id preset = uuid ->
  (forall q, q ∈ presets -> id q <> uuid) ->
  Eff.value (getById uuid (presets ++ [preset])) = Some preset.
Proof.
  intros Hid Hfresh. unfold getById, getAll, mbind, M_bind, Eff.bind. cbn.
  assert (H : list_find (fun p => id p = uuid) (presets ++ [preset])
              = Some (length presets, preset)).
  { apply list_find_Some. split; [|split].
    - rewrite lookup_app_r, Nat.sub_diag by lia. reflexivity.
    - exact Hid.
    - intros j q Hq Hj. rewrite lookup_app_l in Hq by exact Hj.
      apply Hfresh. exact (list_elem_of_lookup_2 _ _ _ Hq). }
  rewrite H. reflexivity.
Qed.

(** C8, counterexample.  [create] stores the entries it is given: an
    entry 300 stays 300. *)
Lemma create_keeps_out_of_range_entry :
  let r := create "Warm" [of_Z 300] (of_Z 0) "#fff" None "id-1" "t1" "t1" [] in
  channels (Eff.value r) !! 0%nat = Some (of_Z 300) /\
  in_byte_range (of_Z 300) = false /\
  ~ Forall (fun x => in_byte_range x = true) (channels (Eff.value r)).
Proof.
  cbv zeta. split; [reflexivity|]. split; [reflexivity|].
  intros H. apply (Forall_lookup_1 _ _ 0%nat (of_Z 300)) in H; [|reflexivity].
  vm_compute in H. discriminate H.
Qed.

(** *** The identifiers [uuidv4()] draws *)

(** The calls that change the store, and the calls of [uuidv4()] that
    other parts of the program make. *)
Inductive operation :=
| Create (name_ : string) (channels_ : list number) (fadeTime_ : number) (color_ : string)
    (fixtureModes_ : option (list (string * string))) (now1 now2 : string)
| Update (id_ : string) (patch : Patch) (now : string)
| Delete (id_ : string)
| DrawElsewhere.

Section Identifiers.
(** [uuidv4 n] is what call number [n] of [uuidv4()] returns, the calls
    of every part of the program counted from the installation on; these
    are identifiers because no two calls return the same. *)
Variable uuidv4 : nat -> string.
Hypothesis uuidv4_unique : forall i j, uuidv4 i = uuidv4 j -> i = j.

(** The store, and the number of identifiers drawn so far. *)
Definition perform (s : PresetManager.t * nat) (o : operation) : PresetManager.t * nat :=
  match o with
  | Create name_ channels_ fadeTime_ color_ fixtureModes_ now1 now2 =>
      (Eff.state (create name_ channels_ fadeTime_ color_ fixtureModes_ (uuidv4 s.2)
                    now1 now2 s.1),
       S s.2)
  | Update id_ patch now => (Eff.state (update id_ patch now s.1), s.2)
  | Delete id_ => (Eff.state (delete id_ s.1), s.2)
  | DrawElsewhere => (s.1, S s.2)
  end.

(** The constructor sets the 'presets' key of a new store to []. *)
Definition history (os : list operation) : PresetManager.t * nat :=
  foldl perform ([], 0%nat) os.

(** Every stored identifier was drawn earlier. *)
Definition drawn (s : PresetManager.t * nat) : Prop :=
  Forall (fun q => exists i, (i < s.2)%nat /\ id q = uuidv4 i) s.1.

Lemma perform_drawn s o : drawn s -> drawn (perform s o).
Proof.
  destruct s as [presets n]. unfold drawn. cbn [fst snd]. intros H.
  destruct o as [name_ channels_ fadeTime_ color_ fixtureModes_ now1 now2|id_ patch now|id_|];
    cbn [perform fst snd].
  - rewrite create_run. cbn [Eff.state fst snd]. apply Forall_app. split.
    + eapply Forall_impl; [exact H|]. intros q (i & Hi & Hq). exists i. split; [lia|exact Hq].
    + repeat constructor. exists n. split; [lia|reflexivity].
  - unfold update, getAll, mbind, M_bind, Eff.bind. cbn [Eff.get].
    destruct (list_find (fun p => id p = id_) presets) as [[index old]|] eqn:Hfind;
      [|exact H].
    cbn. apply list_find_Some in Hfind as (Hold & _ & _).
    apply Forall_insert; [exact H|].
    exact (Forall_lookup_1 _ _ _ _ H Hold).
  - unfold delete, getAll, mbind, M_bind, Eff.bind. cbn [Eff.get].
    destruct (list_find (fun p => id p = id_) presets) as [[index removed]|]; [|exact H].
    cbn. apply Forall_app. split; [apply Forall_take, H|apply Forall_drop, H].
  - eapply Forall_impl; [exact H|]. intros q (i & Hi & Hq). exists i. split; [lia|exact Hq].
Qed.

Lemma history_drawn os : drawn (history os).
Proof.
  unfold history. assert (H : drawn ([], 0%nat)) by constructor.
  revert H. generalize (([], 0%nat) : PresetManager.t * nat).
  induction os as [|o os IH]; intros s Hs; [exact Hs|].
  cbn [foldl]. apply IH, perform_drawn, Hs.
Qed.

Lemma next_is_fresh s : drawn s -> Forall (fun q => id q <> uuidv4 s.2) s.1.
Proof.
  intros H. eapply Forall_impl; [exact H|]. intros q (i & Hi & Hq) Heq.
  rewrite Hq in Heq. apply uuidv4_unique in Heq. lia.
Qed.

(** C8, as amended.  [create] trims or zero-pads the given array to
    exactly 512 entries and stores them as they are, without clamping:
    they lie in [0, 255] when the given entries do.  Whatever was created,
    updated and deleted since the installation, the preset gets an
    identifier that no stored preset has, and the two timestamps; and
    [getById] of that identifier returns the channels stored, which are
    the given array after trimming and padding.  The store keeps JSON,
    which has no NaN and no Infinity: the entries read back are those
    given when these are finite. *)
Theorem create_pads_to_512 (os : list operation)
    name_ channels_ fadeTime_ color_ fixtureModes_ now1 now2 :
  let presets := (history os).1 in
  let r := create name_ channels_ fadeTime_ color_ fixtureModes_
             (uuidv4 (history os).2) now1 now2 presets in
  let preset := Eff.value r in
  length (channels preset) = 512%nat /\
  channels preset
  = take 512 channels_ ++ replicate (512 - length (take 512 channels_)) (of_Z 0) /\
  (Forall (fun x => in_byte_range x = true) channels_ ->
   Forall (fun x => in_byte_range x = true) (channels preset)) /\
  Forall (fun q => id q <> id preset) presets /\
  createdAt preset = now1 /\ updatedAt preset = now2 /\
  (Forall (fun x => isFinite x = true) channels_ ->
   channels <$> Eff.value (getById (id preset) (Eff.state r))
   = Some (take 512 channels_ ++ replicate (512 - length (take 512 channels_)) (of_Z 0))).
Proof.
  cbv zeta. rewrite create_run.
  cbn [Eff.value Eff.state fst snd channels id createdAt updatedAt].
  pose proof (next_is_fresh _ (history_drawn os)) as Hfresh.
  split; [apply padded_length|]. split; [reflexivity|]. split; [|split; [exact Hfresh|]].
  - intros Hin. unfold padded. apply Forall_app. split.
    + apply Forall_take, Hin.
    + apply Forall_replicate. reflexivity.
  - split; [reflexivity|]. split; [reflexivity|]. intros _.
    rewrite getById_created; [reflexivity|reflexivity|].
    intros q Hq. exact (proj1 (Forall_forall _ _) Hfresh q Hq).
Qed.
End Identifiers.

Lemma create_pads_to_512_witness :
  let uuidv4 := fun n : nat => "id-" +:+ pretty n in
  let os := [Create "Cold" [of_Z 1] (of_Z 0) "#00f" None "t0" "t0"; DrawElsewhere;
             Delete "id-0"; Create "Dim" [] (of_Z 500) "#333" None "t1" "t1"] in
  let r := create "Warm" [of_Z 200; of_Z 10] (of_Z 0) "#fff" None
             (uuidv4 (history uuidv4 os).2) "t2" "t3" (history uuidv4 os).1 in
  id (Eff.value r) = "id-3" /\
  Forall (fun x => in_byte_range x = true) (channels (Eff.value r)) /\
  Forall (fun q => id q <> id (Eff.value r)) (history uuidv4 os).1 /\
  channels <$> Eff.value (getById (id (Eff.value r)) (Eff.state r))
  = Some (take 512 [of_Z 200; of_Z 10]
          ++ replicate (512 - length (take 512 [of_Z 200; of_Z 10])) (of_Z 0)).
Proof.
  cbv zeta.
  assert (Hunique : forall i j : nat, "id-" +:+ pretty i = "id-" +:+ pretty j -> i = j).
  { intros i j H. injection H as H. exact (pretty_nat_inj _ _ H). }
  pose proof (create_pads_to_512 (fun n : nat => "id-" +:+ pretty n) Hunique
                [Create "Cold" [of_Z 1] (of_Z 0) "#00f" None "t0" "t0"; DrawElsewhere;
                 Delete "id-0"; Create "Dim" [] (of_Z 500) "#333" None "t1" "t1"]
                "Warm" [of_Z 200; of_Z 10] (of_Z 0) "#fff" None "t2" "t3")
    as (_ & _ & Hrange & Hfresh & _ & _ & Hget).
  split; [reflexivity|]. split; [|split].
  - apply Hrange. repeat constructor.
  - exact Hfresh.
  - apply Hget. repeat constructor.
Defined.

Lemma byte_in_range_table : forallb (fun b => in_byte_range (of_Z b)) bytes = true.
Proof. vm_compute. reflexivity. Qed.

(** A preset captured from the universe holds the 512 raw bytes. *)
Lemma capture_in_range name_ u fadeTime_ color_ fixtureModes_ uuid now1 now2 presets :
  UniverseFacts.well_formed u ->
  let preset := Eff.value (captureFromUniverse name_ u fadeTime_ color_ fixtureModes_
                             uuid now1 now2 presets) in
  channels preset = of_Z <$> DMXUniverse.channels u /\
  Forall (fun x => in_byte_range x = true) (channels preset).
Proof.
  intros [Hlen Hbytes]. cbv zeta. unfold captureFromUniverse. rewrite create_run.
  cbn [Eff.value fst channels].
  change (Eff.value (DMXUniverse.getRawChannelsArray u)) with (of_Z <$> DMXUniverse.channels u).
  unfold padded. rewrite firstn_all2 by (rewrite length_fmap; lia).
  rewrite length_fmap, Hlen. cbn [Nat.sub replicate]. rewrite app_nil_r.
  split; [reflexivity|].
  apply Forall_fmap. eapply Forall_impl; [exact Hbytes|].
  intros b Hb. exact (forallb_bytes _ b byte_in_range_table Hb).
Qed.
End PresetFacts.

(** ** socket-companion.ts *)

Module CompanionServer.
Import JS.
Local Open Scope Z_scope.

(** A client socket. *)
Definition ws := nat.

Module Command.
(** [CompanionCommand]; an absent field is [None]. *)
Record t := mk {
  action : string;
  id : option string;
  fixtureId : option string;
  modeName : option string;
  fadeTime : option number;
  channel : option number;
  value : option number;
  state : option string
}.
End Command.

Inductive status := ok | error.

Inductive data :=
| DataRecall (presetId : string) (fadeTime : number)
| DataBlackout (fadeTime : number)
| DataSetChannel (channel value : number)
| DataState (channels : list number) (master : integral)
| DataPresets (presets : list (string * string * number * string))
| DataMaster (value : number)
| DataSetMode (fixtureId modeName : string) (channels : list FixtureManager.write)
| DataTrigger (channel : number) (state : string) (value : number).

Module Response.
Record t := mk {
  status : CompanionServer.status;
  action : string;
  data : option CompanionServer.data;
  message : option string
}.
End Response.

Inductive broadcast_event :=
| PresetActivated (id name : string)
| DmxStatus (connected : bool).

Inductive event :=
| Engine (e : FadeEngine.event)
| Fixtures (e : FixtureManager.event)
| Presets (e : PresetManager.event)
| Send (client : ws) (r : Response.t)
| SendEvent (client : ws) (e : broadcast_event)
| PresetRecalled (id name : string)
| LogInfoReceived (action : string).

(** The objects the server was constructed on. *)
Record t := mk {
  engine : DMXUniverse.t * FadeEngine.t;
  presetManager : PresetManager.t;
  fixtureManager : FixtureManager.t
}.

Definition M := Eff.M t event.

Definition fadeEngine {A} (c : FadeEngine.M A) : M A :=
  Eff.zoom engine (fun s e => mk e (presetManager s) (fixtureManager s)) Engine c.

Definition universe {A} (c : DMXUniverse.M A) : M A :=
  fadeEngine (FadeEngine.universe c).

Definition presets {A} (c : PresetManager.M A) : M A :=
  Eff.zoom presetManager (fun s p => mk (engine s) p (fixtureManager s)) Presets c.

Definition fixtures {A} (c : FixtureManager.M A) : M A :=
  Eff.zoom fixtureManager (fun s f => mk (engine s) (presetManager s) f) Fixtures c.

(** [!s] for an optional string: absent or empty. *)
Definition missing (s : option string) : bool :=
  match s with
  | None | Some "" => true
  | Some _ => false
  end.

(** An [async] handler either runs to its end, or stops at an [await]
    on a pending promise with the rest of its body to run. *)
Inductive continuation :=
| RecallPresetDone (client : ws) (preset : PresetManager.Preset) (fadeTime : number)
| BlackoutDone (client : ws) (fadeTime : number).

Inductive outcome :=
| Returned
| Awaiting (p : FadeEngine.promise) (k : continuation).

(** [err.message || 'Failed to set mode'] *)
Definition or_failed (message : string) : string :=
  if decide (message = "") then "Failed to set mode" else message.

Section Sockets.
(** The sockets in [this.clients], and of each socket whether
    [readyState === WebSocket.OPEN], while a piece of code runs. *)
Variable clients : list ws.
Variable readyStateOpen : ws -> bool.

Definition sendResponse (client : ws) (response : Response.t) : M unit :=
  if readyStateOpen client then Eff.emit (Send client response) else Eff.ret tt.

Definition broadcast (e : broadcast_event) : M unit :=
  Eff.for_of clients
    (fun client =>
       if readyStateOpen client then Eff.emit (SendEvent client e) else Eff.ret tt).

Definition notifyPresetRecalled (id name : string) : M unit :=
  Eff.emit (PresetRecalled id name).

(** The part of a handler that follows its [await]. *)
Definition resume (k : continuation) : M unit :=
  match k with
  | RecallPresetDone client preset fadeTime =>
      sendResponse client
        (Response.mk ok "recall_preset"
           (Some (DataRecall (PresetManager.id preset) fadeTime)) None);;
      broadcast (PresetActivated (PresetManager.id preset) (PresetManager.name preset));;
      notifyPresetRecalled (PresetManager.id preset) (PresetManager.name preset)
  | BlackoutDone client fadeTime =>
      sendResponse client
        (Response.mk ok "blackout" (Some (DataBlackout fadeTime)) None)
  end.

Definition await (promise : FadeEngine.returned) (k : continuation) : M outcome :=
  match promise with
  | FadeEngine.AlreadyResolved => resume k;; Eff.ret Returned
  | FadeEngine.Pending p => Eff.ret (Awaiting p k)
  end.

Definition handleRecallPreset (client : ws) (command : Command.t) (now : Z) : M outcome :=
  match Command.id command with
  | None | Some "" =>
      sendResponse client
        (Response.mk error "recall_preset" None (Some "Missing preset id"));;
      Eff.ret Returned
  | Some id =>
      found ← presets (PresetManager.getById id);
      match found with
      | None =>
          sendResponse client
            (Response.mk error "recall_preset" None (Some "Preset not found"));;
          Eff.ret Returned
      | Some preset =>
          let fadeTime :=
            default (PresetManager.fadeTime preset) (Command.fadeTime command) in
          if gt fadeTime (of_Z 0) then
            promise ← fadeEngine
                        (FadeEngine.fadeTo (PresetManager.channels preset) fadeTime now);
            await promise (RecallPresetDone client preset fadeTime)
          else
            universe (DMXUniverse.applySnapshot (PresetManager.channels preset));;
            resume (RecallPresetDone client preset fadeTime);;
            Eff.ret Returned
      end
  end.

Definition handleBlackout (client : ws) (command : Command.t) (now : Z) : M outcome :=
  let fadeTime := default (of_Z 0) (Command.fadeTime command) in
  if gt fadeTime (of_Z 0) then
    promise ← fadeEngine (FadeEngine.fadeToBlackout fadeTime now);
    await promise (BlackoutDone client fadeTime)
  else
    universe DMXUniverse.blackout;;
    resume (BlackoutDone client fadeTime);;
    Eff.ret Returned.

Definition handleSetChannel (client : ws) (command : Command.t) : M unit :=
  match Command.channel command, Command.value command with
  | Some channel, Some value =>
      universe (DMXUniverse.setChannel channel value);;
      sendResponse client
        (Response.mk ok "set_channel" (Some (DataSetChannel channel value)) None)
  | _, _ =>
      sendResponse client
        (Response.mk error "set_channel" None (Some "Missing channel or value"))
  end.

Definition handleGetState (client : ws) : M unit :=
  channels ← universe DMXUniverse.getRawChannelsArray;
  master ← universe DMXUniverse.getMasterDimmer;
  sendResponse client (Response.mk ok "get_state" (Some (DataState channels master)) None).

Definition handleListPresets (client : ws) : M unit :=
  all ← presets PresetManager.getAll;
  let presets :=
    (fun p => (PresetManager.id p, PresetManager.name p, PresetManager.fadeTime p,
               PresetManager.color p)) <$> all in
  sendResponse client (Response.mk ok "list_presets" (Some (DataPresets presets)) None).

Definition handleMasterDimmer (client : ws) (command : Command.t) : M unit :=
  match Command.value command with
  | None =>
      sendResponse client (Response.mk error "master_dimmer" None (Some "Missing value"))
  | Some value =>
      universe (DMXUniverse.setMasterDimmer value);;
      sendResponse client (Response.mk ok "master_dimmer" (Some (DataMaster value)) None)
  end.

Definition handleSetMode (client : ws) (command : Command.t) (iso : string) : M unit :=
  if missing (Command.fixtureId command) || missing (Command.modeName command) then
    sendResponse client
      (Response.mk error "set_mode" None (Some "Missing fixtureId or modeName"))
  else
    let fixtureId := default "" (Command.fixtureId command) in
    let modeName := default "" (Command.modeName command) in
    results ← fixtures (FixtureManager.setActiveMode fixtureId modeName iso);
    match results with
    | FixtureManager.Ok results =>
        Eff.for_of results
          (fun r => universe (DMXUniverse.setChannel (of_Z (FixtureManager.channel r))
                                                     (of_Z (FixtureManager.value r))));;
        sendResponse client
          (Response.mk ok "set_mode" (Some (DataSetMode fixtureId modeName results)) None)
    | FixtureManager.Throw message =>
        sendResponse client
          (Response.mk error "set_mode" None (Some (or_failed message)))
    end.

Definition handleTrigger (client : ws) (command : Command.t) : M unit :=
  match Command.channel command, missing (Command.state command) with
  | Some channel, false =>
      let state := default "" (Command.state command) in
      let value := if decide (state = "on") then of_Z 255 else of_Z 0 in
      universe (DMXUniverse.setChannel channel value);;
      sendResponse client
        (Response.mk ok "trigger" (Some (DataTrigger channel state value)) None)
  | _, _ =>
      sendResponse client
        (Response.mk error "trigger" None (Some "Missing channel or state (on/off)"))
  end.

(** [handleCommand], run when [Date.now()] is [now] and
    [new Date().toISOString()] is [iso]; the cases of the [switch] are
    compared with [===] from the first on. *)
Definition handleCommand (client : ws) (command : Command.t) (now : Z) (iso : string)
  : M outcome :=
  Eff.emit (LogInfoReceived (Command.action command));;
  let action := Command.action command in
  if decide (action = "recall_preset") then handleRecallPreset client command now
  else if decide (action = "blackout") then handleBlackout client command now
  else if decide (action = "set_channel") then
    handleSetChannel client command;; Eff.ret Returned
  else if decide (action = "get_state") then handleGetState client;; Eff.ret Returned
  else if decide (action = "list_presets") then handleListPresets client;; Eff.ret Returned
  else if decide (action = "master_dimmer") then
    handleMasterDimmer client command;; Eff.ret Returned
  else if decide (action = "set_mode") then
    handleSetMode client command iso;; Eff.ret Returned
  else if decide (action = "trigger") then handleTrigger client command;; Eff.ret Returned
  else
    sendResponse client
      (Response.mk error (Command.action command) None
         (Some ("Unknown action: " +:+ Command.action command)));;
    Eff.ret Returned.

End Sockets.
End CompanionServer.

(** ** The automation server: one response per command *)

Module CompanionFacts.
Import JS CompanionServer.
Local Open Scope Z_scope.

(** *** Traces of composed computations *)

Lemma bind_value {S E A B} (c : Eff.M S E A) (k : A -> Eff.M S E B) s :
  Eff.value (Eff.bind c k s) = Eff.value (k (Eff.value (c s)) (Eff.state (c s))).
Proof.
  unfold Eff.bind. destruct (c s) as [[a s1] t1]. cbn.
  destruct (k a s1) as [[b s2] t2]. reflexivity.
Qed.

Lemma bind_state {S E A B} (c : Eff.M S E A) (k : A -> Eff.M S E B) s :
  Eff.state (Eff.bind c k s) = Eff.state (k (Eff.value (c s)) (Eff.state (c s))).
Proof.
  unfold Eff.bind. destruct (c s) as [[a s1] t1]. cbn.
  destruct (k a s1) as [[b s2] t2]. reflexivity.
Qed.

Lemma bind_trace {S E A B} (c : Eff.M S E A) (k : A -> Eff.M S E B) s :
  Eff.trace (Eff.bind c k s)
  = Eff.trace (c s) ++ Eff.trace (k (Eff.value (c s)) (Eff.state (c s))).
Proof.
  unfold Eff.bind. destruct (c s) as [[a s1] t1]. cbn.
  destruct (k a s1) as [[b s2] t2]. reflexivity.
Qed.

Lemma zoom_trace {S1 S2 E1 E2 A} (proj : S2 -> S1) upd (inj : E1 -> E2)
    (c : Eff.M S1 E1 A) s :
  Eff.trace (Eff.zoom proj upd inj c s) = inj <$> Eff.trace (c (proj s)).
Proof. unfold Eff.zoom. destruct (c (proj s)) as [[a s1] t1]. reflexivity. Qed.

(** *** The responses a socket receives *)

Definition responses_to (client : ws) (tr : list event) : list Response.t :=
  omap (fun e => match e with
                 | Send c r => if decide (c = client) then Some r else None
                 | _ => None
                 end) tr.

Lemma responses_to_app client tr1 tr2 :
  responses_to client (tr1 ++ tr2) = responses_to client tr1 ++ responses_to client tr2.
Proof. apply omap_app. Qed.

(** Events of the engine, of the stores and of the broadcast are not
    responses. *)
Definition internal (e : event) : Prop :=
  match e with
  | Send _ _ => False
  | _ => True
  end.

Lemma responses_to_internal client tr :
  Forall internal tr -> responses_to client tr = [].
Proof.
  induction 1 as [|e tr He _ IH]; [reflexivity|].
  cbn [responses_to omap list_omap]. fold (responses_to client tr). rewrite IH.
  destruct e; try reflexivity. destruct He.
Qed.

Lemma fmap_internal {E} (inj : E -> event) (tr : list E) :
  (forall e, internal (inj e)) -> Forall internal (inj <$> tr).
Proof. intros H. apply Forall_fmap, Forall_forall. intros e _. apply H. Qed.

(** A computation that sends the socket no response. *)
Definition quiet {A} (client : ws) (c : M A) : Prop :=
  forall s, responses_to client (Eff.trace (c s)) = [].

(** A computation that sends the socket exactly one response, of the
    given kind. *)
Definition replies {A} (client : ws) (c : M A) (P : Response.t -> Prop) : Prop :=
  forall s, exists resp, responses_to client (Eff.trace (c s)) = [resp] /\ P resp.

Section Composition.
Context {A B : Type} (client : ws).
Implicit Types (c : M A) (k : A -> M B).

Lemma quiet_bind c k : quiet client c -> (forall a, quiet client (k a)) -> quiet client (c ≫= k).
Proof.
  intros Hc Hk s. unfold mbind, M_bind. rewrite bind_trace, responses_to_app, Hc, Hk.
  reflexivity.
Qed.

Lemma replies_then_quiet c k P :
  replies client c P -> (forall a, quiet client (k a)) -> replies client (c ≫= k) P.
Proof.
  intros Hc Hk s. destruct (Hc s) as (resp & Hresp & HP). exists resp.
  unfold mbind, M_bind. rewrite bind_trace, responses_to_app, Hresp, Hk.
  split; [reflexivity|exact HP].
Qed.

Lemma quiet_then_replies c k P :
  quiet client c -> (forall a, replies client (k a) P) -> replies client (c ≫= k) P.
Proof.
  intros Hc Hk s. destruct (Hk (Eff.value (c s)) (Eff.state (c s))) as (resp & Hresp & HP).
  exists resp. unfold mbind, M_bind. rewrite bind_trace, responses_to_app, Hc, Hresp.
  split; [reflexivity|exact HP].
Qed.
End Composition.

Lemma quiet_ret {A} client (a : A) : quiet client (Eff.ret a).
Proof. intros s. reflexivity. Qed.

Lemma quiet_emit client e : internal e -> quiet client (Eff.emit e).
Proof. intros He s. cbn. destruct e; try reflexivity. destruct He. Qed.

Lemma quiet_fadeEngine {A} client (c : FadeEngine.M A) : quiet client (fadeEngine c).
Proof.
  intros s. unfold fadeEngine. rewrite zoom_trace.
  apply responses_to_internal, fmap_internal. intros e. exact I.
Qed.

Lemma quiet_universe {A} client (c : DMXUniverse.M A) : quiet client (universe c).
Proof. apply quiet_fadeEngine. Qed.

Lemma quiet_presets {A} client (c : PresetManager.M A) : quiet client (presets c).
Proof.
  intros s. unfold presets. rewrite zoom_trace.
  apply responses_to_internal, fmap_internal. intros e. exact I.
Qed.

Lemma quiet_fixtures {A} client (c : FixtureManager.M A) : quiet client (fixtures c).
Proof.
  intros s. unfold fixtures. rewrite zoom_trace.
  apply responses_to_internal, fmap_internal. intros e. exact I.
Qed.

Lemma quiet_for_of {X} client (xs : list X) (body : X -> M unit) :
  (forall x, quiet client (body x)) -> quiet client (Eff.for_of xs body).
Proof.
  intros Hbody. induction xs as [|x xs IH]; [apply quiet_ret|].
  cbn [Eff.for_of]. apply (quiet_bind client (body x)); [apply Hbody|intros _; exact IH].
Qed.

Section Sockets.
Variable clients : list ws.
Variable readyStateOpen : ws -> bool.
Variable client : ws.
Hypothesis client_open : readyStateOpen client = true.

Lemma replies_sendResponse response (P : Response.t -> Prop) :
  P response -> replies client (sendResponse readyStateOpen client response) P.
Proof.
  intros HP s. exists response. unfold sendResponse. rewrite client_open. cbn.
  destruct (decide (client = client)); [|congruence]. split; [reflexivity|exact HP].
Qed.

Lemma quiet_broadcast e : quiet client (broadcast clients readyStateOpen e).
Proof.
  unfold broadcast. apply quiet_for_of. intros c.
  destruct (readyStateOpen c); [apply quiet_emit; exact I|apply quiet_ret].
Qed.
End Sockets.

Lemma zoom_value {S1 S2 E1 E2 A} (proj : S2 -> S1) upd (inj : E1 -> E2)
    (c : Eff.M S1 E1 A) s :
  Eff.value (Eff.zoom proj upd inj c s) = Eff.value (c (proj s)).
Proof. unfold Eff.zoom. destruct (c (proj s)) as [[a s1] t1]. reflexivity. Qed.

Lemma zoom_state {S1 S2 E1 E2 A} (proj : S2 -> S1) upd (inj : E1 -> E2)
    (c : Eff.M S1 E1 A) s :
  Eff.state (Eff.zoom proj upd inj c s) = upd s (Eff.state (c (proj s))).
Proof. unfold Eff.zoom. destruct (c (proj s)) as [[a s1] t1]. reflexivity. Qed.

(** *** What a handler owes its client *)

(** [o] is absent. *)
Definition absent {A} (o : option A) : bool :=
  match o with
  | None => true
  | Some _ => false
  end.

(** The arguments each command requires, after section 4.8 of the
    specification; [fadeTime] is optional everywhere. *)
Definition arguments_missing (command : Command.t) : bool :=
  let action := Command.action command in
  if decide (action = "recall_preset") then missing (Command.id command)
  else if decide (action = "set_channel") then
    absent (Command.channel command) || absent (Command.value command)
  else if decide (action = "master_dimmer") then absent (Command.value command)
  else if decide (action = "set_mode") then
    missing (Command.fixtureId command) || missing (Command.modeName command)
  else if decide (action = "trigger") then
    absent (Command.channel command) || missing (Command.state command)
  else false.

(** An error response carries a message that is not empty. *)
Definition is_error (resp : Response.t) : Prop :=
  Response.status resp = error /\
  exists message, Response.message resp = Some message /\ message <> "".

(** The response owed to a command of the given action. *)
Definition answer_to (action : string) (must_fail : bool) (resp : Response.t) : Prop :=
  Response.action resp = action /\ (must_fail = true -> is_error resp).

Definition success_for (action : string) (resp : Response.t) : Prop :=
  Response.action resp = action /\ Response.status resp = ok.

(** A handler answers when it returns having sent exactly one response,
    or awaits the engine's pending promise having sent none, the rest of
    its body then sending exactly one. *)
Definition answers (client : ws) (action : string) (must_fail : bool)
    (r : outcome * CompanionServer.t * list event) : Prop :=
  match Eff.value r with
  | Returned =>
      exists resp, responses_to client (Eff.trace r) = [resp] /\
                   answer_to action must_fail resp
  | Awaiting p k =>
      responses_to client (Eff.trace r) = [] /\
      must_fail = false /\
      FadeEngine.fadeResolve (engine (Eff.state r)).2 = Some p /\
      forall clients' readyStateOpen',
        readyStateOpen' client = true ->
        replies client (resume clients' readyStateOpen' k) (success_for action)
  end.

Lemma answers_after_quiet {A} client action must_fail (c : M A) (k : A -> M outcome) s :
  quiet client c ->
  answers client action must_fail (k (Eff.value (c s)) (Eff.state (c s))) ->
  answers client action must_fail ((c ≫= k) s).
Proof.
  intros Hc Hk. unfold answers, mbind, M_bind in *.
  rewrite bind_value, bind_trace, bind_state, responses_to_app, Hc. exact Hk.
Qed.

Lemma answers_returned client action must_fail (h : M unit) s :
  replies client h (answer_to action must_fail) ->
  answers client action must_fail ((h;; Eff.ret Returned) s).
Proof.
  intros Hh. unfold answers, mbind, M_bind.
  rewrite bind_value, bind_trace, responses_to_app. cbn [Eff.ret Eff.value Eff.trace fst snd].
  rewrite app_nil_r. exact (Hh s).
Qed.

Lemma resume_replies clients readyStateOpen client k :
  readyStateOpen client = true ->
  match k with
  | RecallPresetDone c _ _ =>
      c = client ->
      replies client (resume clients readyStateOpen k) (success_for "recall_preset")
  | BlackoutDone c _ =>
      c = client ->
      replies client (resume clients readyStateOpen k) (success_for "blackout")
  end.
Proof.
  intros client_open.
  destruct k as [c preset fadeTime|c fadeTime]; intros ->; unfold resume.
  - apply replies_then_quiet.
    + apply replies_sendResponse; [exact client_open|]. split; reflexivity.
    + intros _. apply quiet_bind; [apply quiet_broadcast|].
      intros _. apply quiet_emit. exact I.
  - apply replies_sendResponse; [exact client_open|]. split; reflexivity.
Qed.

Lemma success_answers action resp : success_for action resp -> answer_to action false resp.
Proof. intros [Hact _]. split; [exact Hact|discriminate]. Qed.

Lemma replies_weaken {A} client (c : M A) (P Q : Response.t -> Prop) :
  (forall resp, P resp -> Q resp) -> replies client c P -> replies client c Q.
Proof. intros HPQ Hc s. destruct (Hc s) as (resp & Hresp & HP). eauto. Qed.

Section Handlers.
Variable clients : list ws.
Variable readyStateOpen : ws -> bool.
Variable client : ws.
Hypothesis client_open : readyStateOpen client = true.

Lemma replies_error action must_fail (message : string) :
  message <> "" ->
  replies client
    (sendResponse readyStateOpen client (Response.mk error action None (Some message)))
    (answer_to action must_fail).
Proof.
  intros Hm. apply replies_sendResponse; [exact client_open|].
  split; [reflexivity|]. intros _. split; [reflexivity|]. exists message. auto.
Qed.

Lemma replies_ok action data :
  replies client
    (sendResponse readyStateOpen client (Response.mk ok action data None))
    (answer_to action false).
Proof.
  apply replies_sendResponse; [exact client_open|].
  split; [reflexivity|]. discriminate.
Qed.

Lemma handleSetChannel_replies command :
  replies client (handleSetChannel readyStateOpen client command)
    (answer_to "set_channel"
       (absent (Command.channel command) || absent (Command.value command))).
Proof.
  unfold handleSetChannel.
  destruct (Command.channel command) as [channel|], (Command.value command) as [value|];
    cbn [absent orb]; try (apply replies_error; discriminate).
  apply quiet_then_replies; [apply quiet_universe|]. intros _. apply replies_ok.
Qed.

Lemma handleGetState_replies must_fail :
  must_fail = false ->
  replies client (handleGetState readyStateOpen client) (answer_to "get_state" must_fail).
Proof.
  intros ->. unfold handleGetState.
  apply quiet_then_replies; [apply quiet_universe|]. intros channels.
  apply quiet_then_replies; [apply quiet_universe|]. intros master.
  apply replies_ok.
Qed.

Lemma handleListPresets_replies must_fail :
  must_fail = false ->
  replies client (handleListPresets readyStateOpen client)
    (answer_to "list_presets" must_fail).
Proof.
  intros ->. unfold handleListPresets.
  apply quiet_then_replies; [apply quiet_presets|]. intros all. apply replies_ok.
Qed.

Lemma handleMasterDimmer_replies command :
  replies client (handleMasterDimmer readyStateOpen client command)
    (answer_to "master_dimmer" (absent (Command.value command))).
Proof.
  unfold handleMasterDimmer. destruct (Command.value command) as [value|]; cbn [absent].
  - apply quiet_then_replies; [apply quiet_universe|]. intros _. apply replies_ok.
  - apply replies_error. discriminate.
Qed.

Lemma or_failed_not_empty message : or_failed message <> "".
Proof. unfold or_failed. destruct (decide (message = "")); [discriminate|assumption]. Qed.

Lemma handleSetMode_replies command iso :
  replies client (handleSetMode readyStateOpen client command iso)
    (answer_to "set_mode"
       (missing (Command.fixtureId command) || missing (Command.modeName command))).
Proof.
  unfold handleSetMode.
  destruct (missing (Command.fixtureId command) || missing (Command.modeName command)).
  - apply replies_error. discriminate.
  - apply quiet_then_replies; [apply quiet_fixtures|]. intros [results|message].
    + apply quiet_then_replies; [|intros _; apply replies_ok].
      apply quiet_for_of. intros r. apply quiet_universe.
    + apply replies_error, or_failed_not_empty.
Qed.

Lemma handleTrigger_replies command :
  replies client (handleTrigger readyStateOpen client command)
    (answer_to "trigger"
       (absent (Command.channel command) || missing (Command.state command))).
Proof.
  unfold handleTrigger.
  destruct (Command.channel command) as [channel|]; cbn [absent orb];
    [|apply replies_error; discriminate].
  destruct (missing (Command.state command)); [apply replies_error; discriminate|].
  apply quiet_then_replies; [apply quiet_universe|]. intros _. apply replies_ok.
Qed.

Lemma fade_started target d now (s : CompanionServer.t) :
  gt d (of_Z 0) = true ->
  let r := fadeEngine (FadeEngine.fadeTo target d now) s in
  exists p, Eff.value r = FadeEngine.Pending p /\
            FadeEngine.fadeResolve (engine (Eff.state r)).2 = Some p.
Proof.
  intros Hd. cbv zeta. unfold fadeEngine. rewrite zoom_value, zoom_state.
  destruct (engine s) as [u e].
  rewrite (FadeFacts.fadeTo_start target d now u e (FadeFacts.gt_not_le _ _ Hd)).
  eexists. split; reflexivity.
Qed.

(** A handler that awaits a fade: none of its steps so far has sent a
    response, and the promise awaited is the one the engine holds. *)
Lemma await_fade_answers action target d now k (s : CompanionServer.t) :
  gt d (of_Z 0) = true ->
  (forall clients' readyStateOpen',
      readyStateOpen' client = true ->
      replies client (resume clients' readyStateOpen' k) (success_for action)) ->
  answers client action false
    ((promise ← fadeEngine (FadeEngine.fadeTo target d now);
      await clients readyStateOpen promise k) s).
Proof.
  intros Hd Hk. destruct (fade_started target d now s Hd) as (p & Hval & Hres).
  unfold answers, mbind, M_bind.
  rewrite bind_value, bind_trace, bind_state, responses_to_app, Hval.
  cbn [await Eff.ret Eff.value Eff.state Eff.trace fst snd].
  rewrite quiet_fadeEngine. split; [reflexivity|]. split; [reflexivity|].
  split; [exact Hres|exact Hk].
Qed.

Lemma handleRecallPreset_answers command now s :
  answers client "recall_preset" (missing (Command.id command))
    (handleRecallPreset clients readyStateOpen client command now s).
Proof.
  unfold handleRecallPreset.
  destruct (Command.id command) as [[|c id]|]; cbn [missing];
    try (apply answers_returned, replies_error; discriminate).
  apply answers_after_quiet; [apply quiet_presets|].
  destruct (Eff.value (presets _ s)) as [preset|];
    [|apply answers_returned, replies_error; discriminate].
  destruct (gt _ (of_Z 0)) eqn:Hfade.
  - apply await_fade_answers; [exact Hfade|].
    intros clients' readyStateOpen' Hopen.
    exact (resume_replies clients' readyStateOpen' client
             (RecallPresetDone client preset _) Hopen eq_refl).
  - apply answers_after_quiet; [apply quiet_universe|].
    apply answers_returned.
    apply (replies_weaken _ _ _ _ (success_answers "recall_preset")).
    exact (resume_replies clients readyStateOpen client
             (RecallPresetDone client preset _) client_open eq_refl).
Qed.

Lemma handleBlackout_answers command now s :
  answers client "blackout" false
    (handleBlackout clients readyStateOpen client command now s).
Proof.
  unfold handleBlackout.
  destruct (gt _ (of_Z 0)) eqn:Hfade.
  - unfold FadeEngine.fadeToBlackout. apply await_fade_answers; [exact Hfade|].
    intros clients' readyStateOpen' Hopen.
    exact (resume_replies clients' readyStateOpen' client
             (BlackoutDone client _) Hopen eq_refl).
  - apply answers_after_quiet; [apply quiet_universe|].
    apply answers_returned.
    apply (replies_weaken _ _ _ _ (success_answers "blackout")).
    exact (resume_replies clients readyStateOpen client
             (BlackoutDone client _) client_open eq_refl).
Qed.

Lemma handleCommand_answers command now iso s :
  answers client (Command.action command) (arguments_missing command)
    (handleCommand clients readyStateOpen client command now iso s).
Proof.
  unfold handleCommand. apply answers_after_quiet; [apply quiet_emit; exact I|].
  cbv zeta. unfold arguments_missing.
  generalize (Eff.state (Eff.emit (LogInfoReceived (Command.action command)) s)).
  intros s1.
  destruct (decide (Command.action command = "recall_preset")) as [Ha|Hn1].
  { rewrite Ha. apply handleRecallPreset_answers. }
  destruct (decide (Command.action command = "blackout")) as [Ha|Hn2].
  { rewrite Ha. repeat (case_decide; [congruence|]). apply handleBlackout_answers. }
  destruct (decide (Command.action command = "set_channel")) as [Ha|Hn3].
  { rewrite Ha. apply answers_returned, handleSetChannel_replies. }
  destruct (decide (Command.action command = "get_state")) as [Ha|Hn4].
  { rewrite Ha. repeat (case_decide; [congruence|]).
    apply answers_returned, handleGetState_replies. reflexivity. }
  destruct (decide (Command.action command = "list_presets")) as [Ha|Hn5].
  { rewrite Ha. repeat (case_decide; [congruence|]).
    apply answers_returned, handleListPresets_replies. reflexivity. }
  destruct (decide (Command.action command = "master_dimmer")) as [Ha|Hn6].
  { rewrite Ha. apply answers_returned, handleMasterDimmer_replies. }
  destruct (decide (Command.action command = "set_mode")) as [Ha|Hn7].
  { rewrite Ha. apply answers_returned, handleSetMode_replies. }
  destruct (decide (Command.action command = "trigger")) as [Ha|Hn8].
  { rewrite Ha. apply answers_returned, handleTrigger_replies. }
  apply answers_returned. apply replies_sendResponse; [exact client_open|].
  split; [reflexivity|discriminate].
Qed.
End Handlers.

Definition quiet_stage : CompanionServer.t :=
  CompanionServer.mk (DMXUniverse.constructor, FadeEngine.constructor) []
    (FixtureManager.mk [] []).

End CompanionFacts.

(** ** Integers among the doubles *)

Module IntegerFacts.
Import JS JSFacts DoubleFacts.
Local Open Scope Z_scope.

(** An integer every double below 2^53 in magnitude represents exactly. *)
Definition safe (z : Z) : Prop := - 2 ^ 53 < z < 2 ^ 53.

(** *** The double of a safe integer *)

Lemma iter_xO_pow p k : Z.pos (Pos.iter xO p k) = Z.pos p * 2 ^ Z.pos k.
Proof.
  induction k as [|k IH] using Pos.peano_ind.
  - cbn. lia.
  - rewrite Pos.iter_succ, Pos2Z.inj_xO, IH, Pos2Z.inj_succ, Z.pow_succ_r by lia. lia.
Qed.

(** A mantissa of exactly 53 bits is not rounded. *)
Lemma binary_round_aux_exact s m e :
  Z.pos (digits2_pos m) = 53 -> -1074 <= e <= 971 ->
  binary_round_aux prec emax s (Z.pos m) e loc_Exact = S754_finite s m e.
Proof.
  intros Hd He. unfold binary_round_aux, shr_fexp. cbn [Zdigits2]. rewrite Hd.
  assert (Hf : fexp prec emax (53 + e) - e = 0) by (unfold fexp, emin, prec, emax; lia).
  rewrite Hf. cbn [shr shr_record_of_loc shr_m loc_of_shr_record round_nearest_even Zdigits2].
  rewrite Hd, Hf. cbn [shr shr_record_of_loc shr_m].
  replace (e <=? emax - prec) with true; [reflexivity|].
  symmetry. apply Z.leb_le. unfold emax, prec. lia.
Qed.

(** The mantissa and the exponent of the double of a positive integer of
    at most 53 bits. *)
Definition mantissa (p : positive) : positive :=
  match (Z.pos (digits2_pos p) - 53)%Z with
  | Z.neg k => Pos.iter xO p k
  | _ => p
  end.

Definition exponent (p : positive) : Z := Z.pos (digits2_pos p) - 53.

Lemma mantissa_value p :
  Z.pos (digits2_pos p) <= 53 -> Z.pos (mantissa p) = Z.pos p * 2 ^ (- exponent p).
Proof.
  intros Hd. unfold mantissa, exponent.
  destruct (Z.pos (digits2_pos p) - 53) as [|k|k] eqn:Hk; try lia.
  rewrite iter_xO_pow. reflexivity.
Qed.

Lemma mantissa_digits p :
  Z.pos (digits2_pos p) <= 53 -> Z.pos (digits2_pos (mantissa p)) = 53.
Proof.
  intros Hd. unfold mantissa.
  destruct (Z.pos (digits2_pos p) - 53) as [|k|k] eqn:Hk; try lia.
  rewrite digits_shifted. lia.
Qed.

Lemma binary_round_small s p :
  Z.pos (digits2_pos p) <= 53 ->
  binary_round prec emax s p 0 = S754_finite s (mantissa p) (exponent p).
Proof.
  intros Hd. unfold binary_round, shl_align.
  assert (Hf : fexp prec emax (Z.pos (digits2_pos p) + 0) = Z.pos (digits2_pos p) - 53)
    by (unfold fexp, emin, prec, emax; lia).
  rewrite Hf, Z.sub_0_r.
  pose proof (mantissa_digits p Hd) as Hm. unfold mantissa, exponent in *.
  destruct (Z.pos (digits2_pos p) - 53) as [|k|k] eqn:Hk; try lia.
  - apply binary_round_aux_exact; [exact Hm|lia].
  - apply binary_round_aux_exact; [exact Hm|lia].
Qed.

Lemma safe_digits p : Z.pos p < 2 ^ 53 -> Z.pos (digits2_pos p) <= 53.
Proof.
  intros Hp. pose proof (digits_bounds p) as [Hlow _].
  destruct (Z.le_gt_cases (Z.pos (digits2_pos p)) 53) as [|Hgt]; [assumption|].
  assert (2 ^ 53 <= 2 ^ (Z.pos (digits2_pos p) - 1)) by (apply Z.pow_le_mono_r; lia).
  lia.
Qed.

Lemma of_Z_pos p :
  Z.pos p < 2 ^ 53 -> of_Z (Z.pos p) = S754_finite false (mantissa p) (exponent p).
Proof. intros Hp. apply binary_round_small, safe_digits, Hp. Qed.

Lemma of_Z_neg p :
  Z.pos p < 2 ^ 53 -> of_Z (Z.neg p) = S754_finite true (mantissa p) (exponent p).
Proof. intros Hp. apply binary_round_small, safe_digits, Hp. Qed.

(** *** Rounding and clamping an integer *)

Lemma round_half_up v k : 0 <= k -> (2 * (v * 2 ^ k) + 2 ^ k) / 2 ^ (k + 1) = v.
Proof.
  intros Hk. rewrite Z.pow_add_r by lia.
  assert (H2 : 0 < 2 ^ k) by (apply Z.pow_pos_nonneg; lia).
  replace (2 * (v * 2 ^ k) + 2 ^ k) with ((2 * v + 1) * 2 ^ k) by ring.
  change (2 ^ 1) with 2. rewrite (Z.mul_comm (2 ^ k) 2).
  rewrite Z.div_mul_cancel_r by lia.
  rewrite Z.mul_comm, Z.div_add_l by lia. change (1 / 2) with 0. lia.
Qed.

Lemma Math_round_finite s p :
  Z.pos (digits2_pos p) <= 53 ->
  Math_round (S754_finite s (mantissa p) (exponent p))
  = Int (if s then Z.neg p else Z.pos p).
Proof.
  intros Hd. pose proof (mantissa_value p Hd) as Hm.
  unfold Math_round. unfold exponent in *.
  set (v := if s then Z.neg (mantissa p) else Z.pos (mantissa p)).
  set (z := if s then Z.neg p else Z.pos p).
  assert (Hv : v = z * 2 ^ (- (Z.pos (digits2_pos p) - 53))).
  { unfold v, z. destruct s; [|exact Hm].
    rewrite <- !Pos2Z.opp_pos, Hm. ring. }
  destruct (Z.pos (digits2_pos p) - 53) as [|k|k] eqn:Hk; try lia.
  - f_equal. rewrite Hv. cbn. lia.
  - f_equal. rewrite Hv. change (- Z.neg k) with (Z.pos k).
    apply round_half_up. lia.
Qed.

(** [Math.round] of a safe integer is the integer. *)
Lemma Math_round_of_Z z : safe z -> Math_round (of_Z z) = Int z.
Proof.
  unfold safe. intros Hz. destruct z as [|p|p].
  - reflexivity.
  - rewrite of_Z_pos by lia. apply (Math_round_finite false), safe_digits. lia.
  - rewrite of_Z_neg by lia. apply (Math_round_finite true), safe_digits. lia.
Qed.

(** The double of a large integer rounds to a large integer. *)
Lemma Math_round_large s p :
  2 ^ 53 <= Z.pos p ->
  Math_round (binary_round prec emax s p 0) = IntInf s \/
  exists r, Math_round (binary_round prec emax s p 0) = Int (if s then - r else r) /\
            2 ^ 53 <= r.
Proof.
  intros Hp. unfold binary_round, shl_align.
  assert (Hd : 54 <= Z.pos (digits2_pos p)).
  { pose proof (digits_ge (Z.pos p) 53 ltac:(lia) Hp) as H. cbn [Zdigits2] in H. lia. }
  assert (Hf : fexp prec emax (Z.pos (digits2_pos p) + 0) = Z.pos (digits2_pos p) - 53)
    by (unfold fexp, emin, prec, emax; lia).
  rewrite Hf, Z.sub_0_r.
  destruct (Z.pos (digits2_pos p) - 53) as [|k|k] eqn:Hk; try lia.
  destruct (binary_round_aux_normal s (Z.pos p) 0 loc_Exact) as [->|(m' & e' & -> & Hd' & He')];
    [lia|cbn [Zdigits2]; lia|cbn [Zdigits2]; lia|left; reflexivity|].
  right. cbn [Zdigits2] in He'.
  pose proof (digits_bounds m') as [Hlow _]. rewrite Hd' in Hlow.
  change (2 ^ (53 - 1)) with 4503599627370496 in Hlow.
  assert (H2 : 2 ^ 1 <= 2 ^ e') by (apply Z.pow_le_mono_r; lia).
  change (2 ^ 1) with 2 in H2. change (2 ^ 53) with 9007199254740992.
  unfold Math_round. destruct e' as [|e'|e']; try lia.
  exists (Z.pos m' * 2 ^ Z.pos e'). split; [|nia].
  destruct s; [|reflexivity]. f_equal. rewrite <- Pos2Z.opp_pos. ring.
Qed.

(** The clamp of the universe, on an integer: the integer itself when it
    is a byte, 0 below and 255 above. *)
Lemma clamp255_of_Z z : clamp255 (of_Z z) = Int (Z.max 0 (Z.min 255 z)).
Proof.
  destruct (Z.lt_ge_cases (Z.abs z) (2 ^ 53)) as [Hsafe|Hlarge].
  - unfold clamp255. rewrite Math_round_of_Z by (unfold safe; lia). reflexivity.
  - unfold clamp255, of_Z, binary_normalize.
    change (2 ^ 53) with 9007199254740992 in Hlarge.
    destruct z as [|p|p]; [cbn in Hlarge; lia| |].
    + destruct (Math_round_large false p) as [->|(r & -> & Hr)];
        [change (2 ^ 53) with 9007199254740992; lia| |].
      * cbn. f_equal. lia.
      * change (2 ^ 53) with 9007199254740992 in Hr. cbn [Math_min Math_max]. f_equal. lia.
    + destruct (Math_round_large true p) as [->|(r & -> & Hr)];
        [change (2 ^ 53) with 9007199254740992; lia| |].
      * cbn. f_equal.
      * change (2 ^ 53) with 9007199254740992 in Hr. cbn [Math_min Math_max]. f_equal. lia.
Qed.

(** *** The order of safe integers *)

Lemma compare_pos p q :
  Z.pos p < 2 ^ 53 -> Z.pos q < 2 ^ 53 ->
  match Z.compare (exponent p) (exponent q) with
  | Lt => Lt
  | Gt => Gt
  | Eq => Pos.compare_cont Eq (mantissa p) (mantissa q)
  end = Pos.compare p q.
Proof.
  intros Hp Hq.
  pose proof (safe_digits p Hp) as Hdp. pose proof (safe_digits q Hq) as Hdq.
  pose proof (mantissa_value p Hdp) as Hmp. pose proof (mantissa_value q Hdq) as Hmq.
  pose proof (digits_bounds p) as Hbp. pose proof (digits_bounds q) as Hbq.
  unfold exponent in *.
  set (dp := Z.pos (digits2_pos p)) in *. set (dq := Z.pos (digits2_pos q)) in *.
  destruct (Z.compare_spec (dp - 53) (dq - 53)) as [Heq|Hlt|Hgt].
  - change (Pos.compare_cont Eq (mantissa p) (mantissa q))
      with (Pos.compare (mantissa p) (mantissa q)).
    rewrite !Pos2Z.inj_compare, Hmp, Hmq.
    replace dq with dp by lia.
    assert (0 < 2 ^ (- (dp - 53))) by (apply Z.pow_pos_nonneg; lia).
    destruct (Z.compare_spec (Z.pos p) (Z.pos q));
      [apply Z.compare_eq_iff|apply Z.compare_lt_iff|apply Z.compare_gt_iff]; nia.
  - symmetry. apply Pos.compare_lt_iff.
    assert (2 ^ dp <= 2 ^ (dq - 1)) by (apply Z.pow_le_mono_r; lia). lia.
  - symmetry. apply Pos.compare_gt_iff.
    assert (2 ^ dq <= 2 ^ (dp - 1)) by (apply Z.pow_le_mono_r; lia). lia.
Qed.

(** The doubles of two safe integers compare as the integers do. *)
Lemma compare_of_Z a b :
  safe a -> safe b -> SFcompare (of_Z a) (of_Z b) = Some (a ?= b).
Proof.
  unfold safe. intros Ha Hb.
  destruct a as [|p|p], b as [|q|q];
    rewrite ?of_Z_pos, ?of_Z_neg by lia; try reflexivity.
  - cbn [SFcompare]. f_equal. rewrite compare_pos by lia. reflexivity.
  - cbn [SFcompare]. f_equal.
    pose proof (compare_pos p q ltac:(lia) ltac:(lia)) as H.
    change (Z.neg p ?= Z.neg q) with (CompOpp (Pos.compare p q)). rewrite <- H.
    destruct (exponent p ?= exponent q); reflexivity.
Qed.

Lemma lt_of_Z a b : safe a -> safe b -> lt (of_Z a) (of_Z b) = (a <? b).
Proof.
  intros Ha Hb. unfold lt, SFltb, Z.ltb. rewrite compare_of_Z by assumption.
  destruct (a ?= b); reflexivity.
Qed.

Lemma le_of_Z a b : safe a -> safe b -> le (of_Z a) (of_Z b) = (a <=? b).
Proof.
  intros Ha Hb. unfold le, SFleb, Z.leb. rewrite compare_of_Z by assumption.
  destruct (a ?= b); reflexivity.
Qed.

Lemma gt_of_Z a b : safe a -> safe b -> gt (of_Z a) (of_Z b) = (b <? a).
Proof. intros Ha Hb. apply lt_of_Z; assumption. Qed.

Lemma ge_of_Z a b : safe a -> safe b -> ge (of_Z a) (of_Z b) = (b <=? a).
Proof. intros Ha Hb. apply le_of_Z; assumption. Qed.
End IntegerFacts.

(** ** The universe: what each mutator changes and what it leaves *)

Module UniverseLaws.
Import JS JSFacts DoubleFacts IntegerFacts DMXUniverse UniverseFacts.
Local Open Scope Z_scope.

(** *** Channel numbers as indices *)

(** [channel - 1] as the index of a typed array, for the 512 channel
    numbers. *)
Definition index_ok (c : Z) : bool :=
  match as_index (sub (of_Z c) (of_Z 1)) with
  | Some i => Nat.eqb i (Z.to_nat (c - 1))
  | None => false
  end.

Lemma index_table : forallb index_ok (Z.of_nat <$> seq 1 512) = true.
Proof. vm_compute. reflexivity. Qed.

Lemma channel_index c :
  1 <= c <= 512 -> as_index (sub (of_Z c) (of_Z 1)) = Some (Z.to_nat (c - 1)).
Proof.
  intros Hc. pose proof index_table as H. rewrite forallb_forall in H.
  specialize (H c). unfold index_ok in H.
  destruct (as_index (sub (of_Z c) (of_Z 1))) as [i|].
  - f_equal. apply Nat.eqb_eq, H, list_elem_of_In, list_elem_of_fmap.
    exists (Z.to_nat c). split; [lia|]. apply elem_of_seq. lia.
  - discriminate H. apply list_elem_of_In, list_elem_of_fmap.
    exists (Z.to_nat c). split; [lia|]. apply elem_of_seq. lia.
Qed.

Lemma safe_small z : -512 <= z <= 512 -> safe z.
Proof. unfold safe. change (2 ^ 53) with 9007199254740992. lia. Qed.

Lemma guard_of_Z c :
  safe c ->
  lt (of_Z c) (of_Z 1) || gt (of_Z c) (of_Z 512) = (c <? 1) || (512 <? c).
Proof.
  intros Hc. rewrite lt_of_Z, gt_of_Z by (try assumption; apply safe_small; lia).
  reflexivity.
Qed.

Lemma clamp_byte v : byte (Z.max 0 (Z.min 255 v)).
Proof. unfold byte. lia. Qed.

(** X1.  [setChannel] on integers.  A channel number c in 1..512 selects
    the raw channel of index c - 1, which takes the value clamped to
    0..255; every other raw channel, the master dimmer and the listeners
    stay as they were, and the listeners are notified once.  A channel
    number outside 1..512 leaves the state untouched and only logs a
    warning. *)
Theorem setChannel_on_integers (c v : Z) (u : t) :
  safe c -> length (channels u) = 512%nat ->
  let r := setChannel (of_Z c) (of_Z v) u in
  (1 <= c <= 512 ->
   channels (Eff.state r) !! Z.to_nat (c - 1) = Some (Z.max 0 (Z.min 255 v)) /\
   (forall i, i <> Z.to_nat (c - 1) -> channels (Eff.state r) !! i = channels u !! i) /\
   masterDimmer (Eff.state r) = masterDimmer u /\
   listeners (Eff.state r) = listeners u /\
   Eff.trace r = notification (Eff.state r)) /\
  (c < 1 \/ 512 < c -> r = (tt, u, [LogWarnInvalidChannel (of_Z c)])).
Proof.
  intros Hc Hlen. cbv zeta. split.
  - intros Hin.
    rewrite setChannel_run_in by (rewrite guard_of_Z by exact Hc; lia).
    cbn [Eff.state Eff.trace fst snd with_channels channels masterDimmer listeners].
    unfold store. rewrite (channel_index c Hin), clamp255_of_Z.
    rewrite (ToUint8_Int_byte _ (clamp_byte v)).
    split; [apply list_lookup_insert_eq; lia|].
    split; [|repeat split].
    intros i Hi. apply list_lookup_insert_ne. congruence.
  - intros Hout. apply setChannel_run_out. rewrite guard_of_Z by exact Hc. lia.
Qed.

Lemma setChannel_on_integers_witness :
  let r := setChannel (of_Z 3) (of_Z 300) constructor in
  (1 <= 3 <= 512 ->
   channels (Eff.state r) !! Z.to_nat (3 - 1) = Some (Z.max 0 (Z.min 255 300)) /\
   (forall i, i <> Z.to_nat (3 - 1) ->
              channels (Eff.state r) !! i = channels constructor !! i) /\
   masterDimmer (Eff.state r) = masterDimmer constructor /\
   listeners (Eff.state r) = listeners constructor /\
   Eff.trace r = notification (Eff.state r)) /\
  (3 < 1 \/ 512 < 3 -> r = (tt, constructor, [LogWarnInvalidChannel (of_Z 3)])).
Proof.
  apply (setChannel_on_integers 3 300 constructor).
  - apply safe_small. lia.
  - reflexivity.
Defined.

(** *** The master dimmer *)

Lemma round_ratio_le raw m : 0 <= raw -> 0 <= m <= 255 -> 0 <= round_ratio (raw * m) 255 <= raw.
Proof.
  intros Hraw Hm. unfold round_ratio. split.
  - apply Z.div_pos; nia.
  - apply Z.lt_succ_r, Z.div_lt_upper_bound; nia.
Qed.

Lemma round_ratio_mono raw m m' :
  0 <= raw -> m <= m' -> round_ratio (raw * m) 255 <= round_ratio (raw * m') 255.
Proof.
  intros Hraw Hm. unfold round_ratio. apply Z.div_le_mono; nia.
Qed.

Lemma round_ratio_full raw : round_ratio (raw * 255) 255 = raw.
Proof.
  unfold round_ratio. replace (2 * (raw * 255) + 255) with (255 + raw * (2 * 255)) by ring.
  rewrite Z.div_add by lia. reflexivity.
Qed.

Lemma effective_scaled u m i raw :
  well_formed u -> masterDimmer u = Int m -> byte m -> channels u !! i = Some raw ->
  effective u !! i = Some (round_ratio (raw * m) 255).
Proof.
  intros [Hlen Hbytes] Hmaster Hm Hraw.
  assert (Hi : (i < 512)%nat) by (rewrite <- Hlen; exact (lookup_lt_Some _ _ _ Hraw)).
  rewrite (effective_lookup u i Hi). f_equal.
  unfold effective_byte, read. rewrite Hraw, Hmaster. cbn [to_number].
  apply scale_exact; [|exact Hm].
  exact (Forall_lookup_1 _ _ _ _ Hbytes Hraw).
Qed.

(** X2.  The master dimmer only dims.  In a well-formed state whose
    master dimmer is a byte, each effective byte lies between 0 and the
    raw byte of the same channel, and a higher master dimmer never gives a
    lower effective byte. *)
Theorem master_dimmer_only_dims (u : t) (m : Z) :
  well_formed u -> masterDimmer u = Int m -> byte m ->
  (forall i raw, channels u !! i = Some raw ->
     exists e, Eff.value (getState u) !! i = Some e /\ 0 <= e <= raw) /\
  (forall m' i e e',
     byte m' -> m <= m' ->
     Eff.value (getState u) !! i = Some e ->
     Eff.value (getState (with_master u (Int m'))) !! i = Some e' ->
     e <= e').
Proof.
  intros Hwf Hmaster Hm. split.
  - intros i raw Hraw. exists (round_ratio (raw * m) 255).
    split; [exact (effective_scaled u m i raw Hwf Hmaster Hm Hraw)|].
    pose proof (Forall_lookup_1 _ _ _ _ (proj2 Hwf) Hraw) as Hb.
    unfold byte in *. apply round_ratio_le; lia.
  - intros m' i e e' Hm' Hle He He'.
    fold (effective u) in He. fold (effective (with_master u (Int m'))) in He'.
    assert (Hi : (i < 512)%nat).
    { rewrite <- (effective_length u). exact (lookup_lt_Some _ _ _ He). }
    destruct (lookup_lt_is_Some_2 (channels u) i) as [raw Hraw];
      [rewrite (proj1 Hwf); exact Hi|].
    rewrite (effective_scaled u m i raw Hwf Hmaster Hm Hraw) in He.
    rewrite (effective_scaled (with_master u (Int m')) m' i raw Hwf eq_refl Hm' Hraw) in He'.
    injection He as <-. injection He' as <-.
    pose proof (Forall_lookup_1 _ _ _ _ (proj2 Hwf) Hraw) as Hb.
    unfold byte in Hb. apply round_ratio_mono; lia.
Qed.

Lemma master_dimmer_only_dims_witness :
  (forall i raw, channels sample_universe !! i = Some raw ->
     exists e, Eff.value (getState sample_universe) !! i = Some e /\ 0 <= e <= raw) /\
  (forall m' i e e',
     byte m' -> 128 <= m' ->
     Eff.value (getState sample_universe) !! i = Some e ->
     Eff.value (getState (with_master sample_universe (Int m'))) !! i = Some e' ->
     e <= e').
Proof.
  apply (master_dimmer_only_dims sample_universe 128).
  - split; [reflexivity|]. apply (bool_decide_unpack _). vm_compute. exact I.
  - reflexivity.
  - unfold byte. lia.
Defined.

Lemma effective_full u :
  well_formed u -> masterDimmer u = Int 255 -> effective u = channels u.
Proof.
  intros Hwf Hm. apply list_eq. intros i.
  destruct (channels u !! i) as [raw|] eqn:Hraw.
  - rewrite (effective_scaled u 255 i raw Hwf Hm ltac:(unfold byte; lia) Hraw).
    rewrite round_ratio_full. reflexivity.
  - apply lookup_ge_None. rewrite effective_length, <- (proj1 Hwf).
    apply lookup_ge_None. exact Hraw.
Qed.

Lemma effective_zero u :
  well_formed u -> masterDimmer u = Int 0 -> effective u = replicate 512 0.
Proof.
  intros Hwf Hm. apply list_eq. intros i.
  destruct (channels u !! i) as [raw|] eqn:Hraw.
  - rewrite (effective_scaled u 0 i raw Hwf Hm ltac:(unfold byte; lia) Hraw).
    symmetry. rewrite Z.mul_0_r. apply lookup_replicate_2.
    rewrite <- (proj1 Hwf). exact (lookup_lt_Some _ _ _ Hraw).
  - apply lookup_ge_None in Hraw. rewrite (proj1 Hwf) in Hraw.
    transitivity (@None Z); [|symmetry].
    + apply lookup_ge_None. rewrite effective_length. exact Hraw.
    + apply lookup_ge_None. rewrite length_replicate. exact Hraw.
Qed.

(** X3.  [setMasterDimmer] on integers stores the value clamped to 0..255
    and never touches the raw channels; the listeners are notified once,
    with the new effective view.  At 255 or more the effective view is
    the raw view; at 0 or less it is dark, the raw view being kept. *)
Theorem setMasterDimmer_on_integers (v : Z) (u : t) :
  well_formed u ->
  let r := setMasterDimmer (of_Z v) u in
  masterDimmer (Eff.state r) = Int (Z.max 0 (Z.min 255 v)) /\
  channels (Eff.state r) = channels u /\
  Eff.trace r = LogDebugMaster (Int (Z.max 0 (Z.min 255 v))) :: notification (Eff.state r) /\
  (255 <= v -> Eff.value (getState (Eff.state r)) = channels u) /\
  (v <= 0 -> Eff.value (getState (Eff.state r)) = replicate 512 0).
Proof.
  intros Hwf. cbv zeta. rewrite setMasterDimmer_run. cbv zeta. rewrite clamp255_of_Z.
  cbn [Eff.state Eff.trace fst snd].
  split; [reflexivity|]. split; [reflexivity|]. split; [reflexivity|]. split.
  - intros Hv. replace (Z.max 0 (Z.min 255 v)) with 255 by lia.
    change (effective (with_master u (Int 255)) = channels (with_master u (Int 255))).
    apply effective_full; [exact Hwf|reflexivity].
  - intros Hv. replace (Z.max 0 (Z.min 255 v)) with 0 by lia.
    change (effective (with_master u (Int 0)) = replicate 512 0).
    apply effective_zero; [exact Hwf|reflexivity].
Qed.

Lemma setMasterDimmer_on_integers_witness :
  let r := setMasterDimmer (of_Z 300) sample_universe in
  masterDimmer (Eff.state r) = Int (Z.max 0 (Z.min 255 300)) /\
  channels (Eff.state r) = channels sample_universe /\
  Eff.trace r = LogDebugMaster (Int (Z.max 0 (Z.min 255 300))) :: notification (Eff.state r) /\
  (255 <= 300 -> Eff.value (getState (Eff.state r)) = channels sample_universe) /\
  (300 <= 0 -> Eff.value (getState (Eff.state r)) = replicate 512 0).
Proof.
  apply (setMasterDimmer_on_integers 300 sample_universe).
  split; [reflexivity|]. apply (bool_decide_unpack _). vm_compute. exact I.
Defined.

(** *** Blackout *)

Lemma effective_byte_of_zero u i :
  channels u !! i = Some 0 \/ channels u !! i = None -> effective_byte u i = 0.
Proof.
  unfold effective_byte, read. intros [->| ->].
  - change (of_Z 0) with (S754_zero false).
    destruct (div (to_number (masterDimmer u)) (of_Z 255)) as [s|s| |s m e]; reflexivity.
  - destruct (div (to_number (masterDimmer u)) (of_Z 255)) as [s|s| |s m e]; reflexivity.
Qed.

Lemma effective_dark u :
  Forall (fun b => b = 0) (channels u) -> effective u = replicate 512 0.
Proof.
  intros Hz. apply list_eq. intros i.
  destruct (decide (i < 512)%nat) as [Hi|Hi].
  - rewrite (effective_lookup u i Hi), lookup_replicate_2 by exact Hi. f_equal.
    apply effective_byte_of_zero.
    destruct (channels u !! i) as [b|] eqn:Hb; [left|right; reflexivity].
    f_equal. exact (Forall_lookup_1 _ _ _ _ Hz Hb).
  - transitivity (@None Z); [|symmetry]; apply lookup_ge_None;
      rewrite ?effective_length, ?length_replicate; lia.
Qed.

(** X4.  [blackout] zeroes every raw channel and keeps the master dimmer
    and the listeners; whatever the master dimmer holds, the effective
    view is then all zeros too.  Each listener is called once with that
    view, and the blackout is logged after the calls. *)
Theorem blackout_zeroes_all_channels (u : t) :
  let r := blackout u in
  channels (Eff.state r) = replicate (length (channels u)) 0 /\
  masterDimmer (Eff.state r) = masterDimmer u /\
  listeners (Eff.state r) = listeners u /\
  Eff.value (getState (Eff.state r)) = replicate 512 0 /\
  Eff.trace r
  = ((fun l => ListenerCalled l (replicate 512 0)) <$> listeners u) ++ [LogInfoBlackout].
Proof.
  cbv zeta. rewrite blackout_run. cbv zeta.
  cbn [Eff.state Eff.trace fst snd with_channels channels masterDimmer listeners].
  assert (Hdark : effective (with_channels u (replicate (length (channels u)) 0))
                  = replicate 512 0).
  { apply effective_dark. cbn. apply Forall_replicate. reflexivity. }
  split; [reflexivity|]. split; [reflexivity|]. split; [reflexivity|].
  split; [exact Hdark|].
  unfold notification. rewrite Hdark. reflexivity.
Qed.

(** *** Listeners *)

Lemma onChange_run l u :
  onChange l u
  = (tt, if decide (l ∈ listeners u) then u else with_listeners u (listeners u ++ [l]), []).
Proof.
  unfold onChange, mbind, M_bind, Eff.bind.
  change (Eff.get u) with (u, u, @nil event). cbv beta iota zeta.
  destruct (decide (l ∈ listeners u)); reflexivity.
Qed.

Lemma offChange_run l u :
  offChange l u = (tt, with_listeners u (filter (fun l' => l' ≠ l) (listeners u)), []).
Proof. reflexivity. Qed.

Lemma calls_to_absent l u : l ∉ listeners u -> calls_to l (notification u) = [].
Proof.
  unfold notification, calls_to. generalize (effective u) as state. intros state.
  induction (listeners u) as [|l' ls IH]; intros Hnotin; [reflexivity|].
  apply not_elem_of_cons in Hnotin as [Hne Hnotin].
  cbn [fmap list_fmap omap list_omap].
  destruct (decide (l' = l)); [congruence|]. apply IH, Hnotin.
Qed.

(** X5.  The listeners form a set.  [onChange] registers a callback once
    however often it is called, and [offChange] removes it; neither
    changes the channels or the master dimmer, nor notifies.  After
    [onChange] a mutation calls the callback exactly once, after
    [offChange] not at all, and the other callbacks are called as
    before. *)
Theorem listeners_form_a_set (l : listener) (u : t) :
  NoDup (listeners u) ->
  let added := Eff.state (onChange l u) in
  let removed := Eff.state (offChange l u) in
  (NoDup (listeners added) /\ l ∈ listeners added /\
   Eff.state (onChange l added) = added /\
   channels added = channels u /\ masterDimmer added = masterDimmer u /\
   Eff.trace (onChange l u) = []) /\
  (NoDup (listeners removed) /\ (l ∉ listeners removed) /\
   channels removed = channels u /\ masterDimmer removed = masterDimmer u /\
   Eff.trace (offChange l u) = []) /\
  (forall snapshot,
     let r := applySnapshot snapshot added in
     calls_to l (Eff.trace r) = [Eff.value (getState (Eff.state r))]) /\
  (forall snapshot, calls_to l (Eff.trace (applySnapshot snapshot removed)) = []) /\
  (forall snapshot l',
     l' <> l -> l' ∈ listeners u ->
     let r := applySnapshot snapshot removed in
     calls_to l' (Eff.trace r) = [Eff.value (getState (Eff.state r))]).
Proof.
  intros Hnd. cbv zeta. rewrite !onChange_run, offChange_run.
  cbn [Eff.state Eff.trace fst snd].
  set (added := if decide (l ∈ listeners u) then u
                else with_listeners u (listeners u ++ [l])).
  set (removed := with_listeners u (filter (fun l' => l' ≠ l) (listeners u))).
  assert (Hadded : NoDup (listeners added) /\ l ∈ listeners added).
  { unfold added. destruct (decide (l ∈ listeners u)) as [Hin|Hnotin]; [auto|].
    cbn [with_listeners listeners]. split.
    - apply NoDup_app. split; [exact Hnd|]. split; [|apply NoDup_singleton].
      intros x Hx ->%list_elem_of_singleton. exact (Hnotin Hx).
    - apply elem_of_app. right. left. }
  assert (Hremoved : NoDup (listeners removed) /\ l ∉ listeners removed).
  { unfold removed. cbn [with_listeners listeners]. split.
    - apply NoDup_filter, Hnd.
    - intros [Hne _]%list_elem_of_filter. exact (Hne eq_refl). }
  split; [|split; [|split; [|split]]].
  - split; [exact (proj1 Hadded)|]. split; [exact (proj2 Hadded)|].
    split; [destruct (decide (l ∈ listeners added)) as [|Hn];
            [reflexivity|destruct (Hn (proj2 Hadded))]|].
    unfold added. destruct (decide (l ∈ listeners u)); repeat split.
  - split; [exact (proj1 Hremoved)|]. split; [exact (proj2 Hremoved)|]. repeat split.
  - intros snapshot. rewrite applySnapshot_run. cbv zeta. cbn [Eff.state Eff.trace fst snd].
    apply calls_to_notification; [exact (proj1 Hadded)|exact (proj2 Hadded)].
  - intros snapshot. rewrite applySnapshot_run. cbv zeta. cbn [Eff.trace snd].
    apply calls_to_absent. exact (proj2 Hremoved).
  - intros snapshot l' Hne Hin. rewrite applySnapshot_run. cbv zeta.
    cbn [Eff.state Eff.trace fst snd].
    apply calls_to_notification; [exact (proj1 Hremoved)|].
    cbn [with_channels listeners removed with_listeners].
    apply list_elem_of_filter. split; [exact Hne|exact Hin].
Qed.

Lemma listeners_form_a_set_witness :
  let u := mk (replicate 512 0) (Int 255) [7%nat] in
  let added := Eff.state (onChange 4%nat u) in
  let removed := Eff.state (offChange 4%nat u) in
  (NoDup (listeners added) /\ 4%nat ∈ listeners added /\
   Eff.state (onChange 4%nat added) = added /\
   channels added = channels u /\ masterDimmer added = masterDimmer u /\
   Eff.trace (onChange 4%nat u) = []) /\
  (NoDup (listeners removed) /\ (4%nat ∉ listeners removed) /\
   channels removed = channels u /\ masterDimmer removed = masterDimmer u /\
   Eff.trace (offChange 4%nat u) = []) /\
  (forall snapshot,
     let r := applySnapshot snapshot added in
     calls_to 4%nat (Eff.trace r) = [Eff.value (getState (Eff.state r))]) /\
  (forall snapshot, calls_to 4%nat (Eff.trace (applySnapshot snapshot removed)) = []) /\
  (forall snapshot l',
     l' <> 4%nat -> l' ∈ listeners u ->
     let r := applySnapshot snapshot removed in
     calls_to l' (Eff.trace r) = [Eff.value (getState (Eff.state r))]).
Proof.
  apply (listeners_form_a_set 4%nat (mk (replicate 512 0) (Int 255) [7%nat])).
  apply NoDup_singleton.
Defined.

(** *** Snapshots *)

Lemma snapshot_byte_of_byte (c : list Z) i b :
  c !! i = Some b -> byte b -> snapshot_byte (of_Z <$> c) i = b.
Proof.
  intros Hb Hbyte. unfold snapshot_byte. rewrite list_lookup_fmap, Hb. cbn [fmap option_fmap option_map or_zero].
  assert (Hz : (if falsy (of_Z b) then of_Z 0 else of_Z b) = of_Z b).
  { destruct b as [|p|p]; [reflexivity| |];
      (rewrite ?of_Z_pos, ?of_Z_neg; [reflexivity|];
       unfold byte in Hbyte; change (2 ^ 53) with 9007199254740992; lia). }
  rewrite Hz, clamp255_of_Z. rewrite ToUint8_Int_byte by apply clamp_byte.
  unfold byte in Hbyte. lia.
Qed.

Lemma snapshot_byte_missing (snapshot : list number) i :
  snapshot !! i = None -> snapshot_byte snapshot i = 0.
Proof. unfold snapshot_byte. intros ->. reflexivity. Qed.

(** The array of the raw channels of a universe, applied to another. *)
Lemma snapshot_round_trip u u' :
  well_formed u -> length (channels u') = 512%nat ->
  channels (Eff.state (applySnapshot (of_Z <$> channels u) u')) = channels u.
Proof.
  intros [Hlen Hbytes] Hlen'. rewrite applySnapshot_run. cbv zeta.
  cbn [Eff.state fst snd with_channels channels].
  apply list_eq. intros i. destruct (decide (i < 512)%nat) as [Hi|Hi].
  - rewrite for_range_insert_lookup_lt by lia.
    destruct (lookup_lt_is_Some_2 (channels u) i) as [b Hb]; [lia|].
    rewrite Hb. f_equal. apply snapshot_byte_of_byte; [exact Hb|].
    exact (Forall_lookup_1 _ _ _ _ Hbytes Hb).
  - transitivity (@None Z); [|symmetry]; apply lookup_ge_None;
      rewrite ?for_range_insert_length; lia.
Qed.

(** X6.  [applySnapshot] reads the first 512 entries of the array it is
    given, a missing entry counting as 0: the universe then holds 512
    channels whatever the length of the array.  The array returned by
    [getRawChannelsArray] is a snapshot that restores the raw channels it
    was read from, in any universe. *)
Theorem applySnapshot_restores_raw_channels :
  (forall snapshot u i,
     length (channels u) = 512%nat -> (i < 512)%nat ->
     let u' := Eff.state (applySnapshot snapshot u) in
     length (channels u') = 512%nat /\
     channels u' !! i = Some (ToUint8 (clamp255 (or_zero (snapshot !! i)))) /\
     ((length snapshot <= i)%nat -> channels u' !! i = Some 0)) /\
  (forall u u',
     well_formed u -> length (channels u') = 512%nat ->
     let saved := Eff.value (getRawChannelsArray u) in
     channels (Eff.state (applySnapshot saved u')) = channels u /\
     masterDimmer (Eff.state (applySnapshot saved u')) = masterDimmer u').
Proof.
  split.
  - intros snapshot u i Hlen Hi. cbv zeta. rewrite applySnapshot_run. cbv zeta.
    cbn [Eff.state fst snd with_channels channels].
    split; [rewrite for_range_insert_length; exact Hlen|].
    split; [rewrite for_range_insert_lookup_lt by lia; reflexivity|].
    intros Hshort. rewrite for_range_insert_lookup_lt by lia. f_equal.
    apply snapshot_byte_missing, lookup_ge_None, Hshort.
  - intros u u' Hwf Hlen'. cbv zeta.
    change (Eff.value (getRawChannelsArray u)) with (of_Z <$> channels u).
    split; [exact (snapshot_round_trip u u' Hwf Hlen')|].
    rewrite applySnapshot_run. reflexivity.
Qed.

Lemma applySnapshot_restores_raw_channels_witness :
  let saved := Eff.value (getRawChannelsArray sample_universe) in
  channels (Eff.state (applySnapshot saved constructor)) = channels sample_universe /\
  masterDimmer (Eff.state (applySnapshot saved constructor)) = masterDimmer constructor.
Proof.
  apply (proj2 applySnapshot_restores_raw_channels sample_universe constructor).
  - split; [reflexivity|]. apply (bool_decide_unpack _). vm_compute. exact I.
  - reflexivity.
Defined.
(** X7.  From its construction on, whatever mutators are called and
    with whatever numbers, the universe holds 512 raw and 512 effective
    bytes, and its master dimmer is a byte or NaN; it is a byte as long as
    [setMasterDimmer] was never given NaN. *)
Theorem any_calls_keep_the_universe_in_range (cs : list call) :
  let u := Eff.state (run_calls cs constructor) in
  (length (Eff.value (getRaw u)) = 512%nat /\ Forall byte (Eff.value (getRaw u))) /\
  (length (Eff.value (getEffective u)) = 512%nat /\
   Forall byte (Eff.value (getEffective u))) /\
  master_byte_or_NaN u /\
  ((forall value, SetMasterDimmer value ∈ cs -> value <> NaN) -> master_byte u).
Proof.
  cbv zeta.
  assert (Hm : master_byte constructor) by (exists 255; split; [reflexivity|unfold byte; lia]).
  destruct (run_calls_bytes cs constructor constructor_well_formed (or_intror Hm))
    as (Hwf & Hmaster & _ & Heff). cbv zeta in Hwf, Hmaster, Heff.
  split; [exact Hwf|]. split; [split; [apply effective_length|exact Heff]|].
  split; [exact Hmaster|].
  intros Hcs. exact (run_calls_master cs constructor constructor_well_formed Hm Hcs).
Qed.

Lemma any_calls_keep_the_universe_in_range_witness :
  let cs := [SetChannel (of_Z 3) (of_Z 999); SetMasterDimmer (of_Z (-5)); Blackout;
             ApplySnapshot [of_Z 70; NaN]] in
  let u := Eff.state (run_calls cs constructor) in
  masterDimmer u = Int 0 /\ channels u !! 0%nat = Some 70 /\ master_byte u.
Proof.
  cbv zeta. split; [reflexivity|]. split; [reflexivity|].
  apply (proj2 (proj2 (proj2 (any_calls_keep_the_universe_in_range _)))).
  intros value Hin Hnan. subst value.
  repeat (apply elem_of_cons in Hin as [Hin|Hin]; [discriminate Hin|]).
  inversion Hin.
Defined.
End UniverseLaws.

(** ** dmx-driver.ts: detection, refresh loop, start and stop *)

Module DMXDriverRuntime.
Import JS DMXDriver.
Local Open Scope Z_scope.

Definition ENTTEC_VENDOR_ID : string := "0403".
Definition ENTTEC_PRODUCT_ID : string := "6001".
Definition DMX_REFRESH_INTERVAL : Z := 25.

(** An entry of [SerialPort.list()]. *)
Record PortInfo := mkPortInfo {
  path : string;
  vendorId : option string;
  productId : option string
}.

(** [toLowerCase] on the characters of ASCII, which are those of the two
    identifiers compared. *)
Definition lower (c : Ascii.ascii) : Ascii.ascii :=
  let n := Ascii.nat_of_ascii c in
  if (65 <=? n)%nat && (n <=? 90)%nat then Ascii.ascii_of_nat (n + 32) else c.

Fixpoint toLowerCase (s : string) : string :=
  match s with
  | EmptyString => EmptyString
  | String c s' => String (lower c) (toLowerCase s')
  end.

(** [s.includes(part)] *)
Fixpoint includes (s part : string) : bool :=
  String.prefix part s ||
  match s with
  | EmptyString => false
  | String _ s' => includes s' part
  end.

Inductive event :=
| Driver (e : DMXDriver.event)
| LogDebugFoundPorts (count : nat)
| LogInfoPathBased (path : string)
| LogWarnMultipleUsbSerial (path : string)
| LogWarnMultipleEnttec (path : string)
| LogInfoDetected (path : string)
| LogErrorScanning
| LogInfoScanning
| LogWarnNoDevice
| LogInfoRestarting
| LogWarnNoDeviceAfterRestart
| LogInfoShuttingDown
| LogInfoShutdownComplete
| LogInfoRefreshLoopStarted
| SetInterval (ms : Z)
| ClearInterval
| ClosePort
| LogErrorClosing (message : string)
| Write (packet : list Z).

(** The driver's fields: those of the reconnection logic, and the
    interval of the refresh loop. *)
Record t := mk {
  driver : DMXDriver.t;
  refreshInterval : bool
}.

Definition constructor : t := mk DMXDriver.constructor false.

Definition M := Eff.M t event.

Definition this {A} (c : DMXDriver.M A) : M A :=
  Eff.zoom driver (fun s d => mk d (refreshInterval s)) Driver c.

(** [p.vendorId?.toLowerCase() === ENTTEC_VENDOR_ID] and the same for the
    product. *)
Definition isEnttec (p : PortInfo) : bool :=
  bool_decide (toLowerCase <$> vendorId p = Some ENTTEC_VENDOR_ID) &&
  bool_decide (toLowerCase <$> productId p = Some ENTTEC_PRODUCT_ID).

(** [detectDevice()]; [listed] is what [SerialPort.list()] resolves to,
    [None] when it rejects. *)
Definition detectDevice (listed : option (list PortInfo)) : M (option string) :=
  match listed with
  | None => Eff.emit LogErrorScanning;; Eff.ret None
  | Some ports =>
      Eff.emit (LogDebugFoundPorts (length ports));;
      let matches := filter (fun p => isEnttec p = true) ports in
      match matches with
      | [] =>
          let pathMatches := filter (fun p => includes (path p) "usbserial" = true) ports in
          match pathMatches with
          | first :: others =>
              Eff.emit (LogInfoPathBased (path first));;
              (if bool_decide (1 < length pathMatches)%nat
               then Eff.emit (LogWarnMultipleUsbSerial (path first))
               else Eff.ret tt);;
              Eff.ret (Some (path first))
          | [] => Eff.ret None
          end
      | first :: others =>
          (if bool_decide (1 < length matches)%nat
           then Eff.emit (LogWarnMultipleEnttec (path first))
           else Eff.ret tt);;
          Eff.emit (LogInfoDetected (path first));;
          Eff.ret (Some (path first))
      end
  end.

Definition startRefreshLoop : M unit :=
  s ← Eff.get;
  (if refreshInterval s then Eff.emit ClearInterval else Eff.ret tt);;
  Eff.emit (SetInterval DMX_REFRESH_INTERVAL);;
  Eff.put (mk (driver s) true);;
  Eff.emit LogInfoRefreshLoopStarted.

(** The callback of the refresh loop; [isOpen] is [serialPort.isOpen],
    [universe] the universe the driver was constructed on. *)
Definition refresh (isOpen : bool) (universe : DMXUniverse.t) : M unit :=
  s ← Eff.get;
  if isConnected (driver s) && bool_decide (serialPort (driver s) ≠ None) && isOpen then
    let state := Eff.value (DMXUniverse.getState universe) in
    let packet := buildDMXPacket state in
    Eff.emit (Write packet)
  else Eff.ret tt.

(** [initialize()]; [answer] is what the port answers to [open] if a
    device is detected. *)
Definition initialize (listed : option (list PortInfo)) (answer : open_result) : M unit :=
  Eff.emit LogInfoScanning;;
  detected ← detectDevice listed;
  match detected with
  | Some detected => this (connect detected answer)
  | None => Eff.emit LogWarnNoDevice;; this emitStatus
  end;;
  startRefreshLoop.

Definition getStatus : M (bool * option string) :=
  s ← Eff.get; Eff.ret (isConnected (driver s), portPath (driver s)).

(** [closePort()]: the port is closed if there is one and it is open,
    [err] being the error its callback receives, if any; in both cases
    the three fields are reset. *)
Definition closePort (isOpen : bool) (err : option string) : M unit :=
  s ← Eff.get;
  (if bool_decide (serialPort (driver s) ≠ None) && isOpen
   then
     Eff.emit ClosePort;;
     match err with
     | Some message => Eff.emit (LogErrorClosing message)
     | None => Eff.ret tt
     end
   else Eff.ret tt);;
  let d := driver s in
  Eff.put (mk (DMXDriver.mk (reconnectTimer d) (reconnectDelay d) false None None
                 (isShuttingDown d))
              (refreshInterval s)).

Definition restart (isOpen : bool) (err : option string)
    (listed : option (list PortInfo)) (answer : open_result) : M unit :=
  Eff.emit LogInfoRestarting;;
  closePort isOpen err;;
  s ← Eff.get;
  let d := driver s in
  Eff.put (mk (DMXDriver.mk (reconnectTimer d) 1000 (isConnected d) (portPath d)
                 (serialPort d) (isShuttingDown d))
              (refreshInterval s));;
  detected ← detectDevice listed;
  match detected with
  | Some detected => this (connect detected answer)
  | None => Eff.emit LogWarnNoDeviceAfterRestart;; this emitStatus
  end.

Definition shutdown (isOpen : bool) (err : option string) : M unit :=
  Eff.emit LogInfoShuttingDown;;
  s ← Eff.get;
  let d := driver s in
  Eff.put (mk (DMXDriver.mk (reconnectTimer d) (reconnectDelay d) (isConnected d)
                 (portPath d) (serialPort d) true)
              (refreshInterval s));;
  s ← Eff.get;
  (if reconnectTimer (driver s) then
     Eff.emit (Driver ClearTimeout);;
     let d := driver s in
     Eff.put (mk (DMXDriver.mk false (reconnectDelay d) (isConnected d) (portPath d)
                    (serialPort d) (isShuttingDown d))
                 (refreshInterval s))
   else Eff.ret tt);;
  s ← Eff.get;
  (if refreshInterval s then
     Eff.emit ClearInterval;;
     Eff.put (mk (driver s) false)
   else Eff.ret tt);;
  closePort isOpen err;;
  Eff.emit LogInfoShutdownComplete.
End DMXDriverRuntime.

(** ** The transmitter: frames of any length, detection, refresh, shutdown *)

Module DriverLaws.
Import JS JSFacts DMXUniverse UniverseFacts UniverseLaws DMXDriver DriverFacts DMXDriverRuntime.
Local Open Scope Z_scope.

(** X8.  The frame of a channel array of any length below 65535: six
    bytes longer than the array, it starts with 7E 06, carries the length
    of the data (the start code included) in little endian, the start
    code 00, the channel bytes in order, and ends with E7.  The length
    field and the payload read back from the frame are the length and the
    array it was built from. *)
Theorem buildDMXPacket_round_trip (channels : list Z) :
  Forall byte channels -> Z.of_nat (length channels) < 65535 ->
  let packet := buildDMXPacket channels in
  length packet = (length channels + 6)%nat /\
  Forall byte packet /\
  take 2 packet = [0x7e; 6] /\
  packet !! 4%nat = Some 0 /\
  last packet = Some 0xe7 /\
  (exists lsb msb,
     packet !! 2%nat = Some lsb /\ packet !! 3%nat = Some msb /\
     lsb + 256 * msb = Z.of_nat (length channels) + 1) /\
  take (length channels) (drop 5 packet) = channels.
Proof.
  intros Hbytes Hlen. cbv zeta. rewrite (buildDMXPacket_frame channels Hbytes).
  set (n := Z.of_nat (length channels) + 1).
  assert (Hn : 0 < n < 65536) by lia.
  assert (Hmsb : (n / 256) mod 256 = n / 256).
  { apply Z.mod_small. split; [apply Z.div_pos; lia|].
    apply Z.div_lt_upper_bound; lia. }
  split.
  { rewrite !length_app. cbn [length]. lia. }
  split.
  { apply Forall_app. split.
    - repeat constructor; unfold byte; try lia.
      + pose proof (Z.mod_pos_bound n 256). lia.
      + pose proof (Z.mod_pos_bound n 256). lia.
      + pose proof (Z.mod_pos_bound (n / 256) 256). lia.
      + pose proof (Z.mod_pos_bound (n / 256) 256). lia.
    - apply Forall_app. split; [exact Hbytes|].
      repeat constructor; unfold byte; lia. }
  split; [reflexivity|]. split; [reflexivity|].
  split; [rewrite app_assoc; apply last_snoc|].
  split.
  - exists (n mod 256), ((n / 256) mod 256).
    split; [reflexivity|]. split; [reflexivity|].
    rewrite Hmsb. pose proof (Z.div_mod n 256). lia.
  - change (drop 5 ([126; 6; n mod 256; (n / 256) mod 256; 0] ++ channels ++ [231]))
      with (channels ++ [231]).
    rewrite take_app_length. reflexivity.
Qed.

Lemma buildDMXPacket_round_trip_witness :
  let packet := buildDMXPacket [1; 2; 3] in
  length packet = (length [1; 2; 3] + 6)%nat /\
  Forall byte packet /\
  take 2 packet = [0x7e; 6] /\
  packet !! 4%nat = Some 0 /\
  last packet = Some 0xe7 /\
  (exists lsb msb,
     packet !! 2%nat = Some lsb /\ packet !! 3%nat = Some msb /\
     lsb + 256 * msb = Z.of_nat (length [1; 2; 3]) + 1) /\
  take (length [1; 2; 3]) (drop 5 packet) = [1; 2; 3].
Proof.
  apply (buildDMXPacket_round_trip [1; 2; 3]).
  - repeat constructor; unfold byte; lia.
  - cbn. lia.
Defined.

(** *** Detection *)

Lemma detectDevice_value listed s :
  Eff.value (detectDevice listed s)
  = ports ← listed;
    match filter (fun p => isEnttec p = true) ports with
    | first :: _ => Some (path first)
    | [] =>
        match filter (fun p => includes (path p) "usbserial" = true) ports with
        | first :: _ => Some (path first)
        | [] => None
        end
    end.
Proof.
  destruct listed as [ports|]; [|reflexivity]. cbn [mbind option_bind].
  unfold detectDevice, mbind, M_bind, Eff.bind, Eff.emit.
  destruct (filter (fun p => isEnttec p = true) ports) as [|first others] eqn:Hm.
  - destruct (filter (fun p => includes (path p) "usbserial" = true) ports)
      as [|first others] eqn:Hp; [reflexivity|].
    destruct (bool_decide (1 < length (first :: others))%nat); reflexivity.
  - destruct (bool_decide (1 < length (first :: others))%nat); reflexivity.
Qed.

Lemma detectDevice_state listed s : Eff.state (detectDevice listed s) = s.
Proof.
  destruct listed as [ports|]; [|reflexivity].
  unfold detectDevice, mbind, M_bind, Eff.bind, Eff.emit.
  destruct (filter (fun p => isEnttec p = true) ports) as [|first others] eqn:Hm.
  - destruct (filter (fun p => includes (path p) "usbserial" = true) ports)
      as [|first others] eqn:Hp; [reflexivity|].
    destruct (bool_decide (1 < length (first :: others))%nat); reflexivity.
  - destruct (bool_decide (1 < length (first :: others))%nat); reflexivity.
Qed.

(** X9.  [detectDevice] returns the path of the first listed port whose
    vendor and product identifiers are those of the adapter, wherever
    ports with a path containing usbserial stand in the list; when no
    port has these identifiers it returns the path of the first port
    whose path contains usbserial; it returns nothing exactly when no
    port qualifies or the listing fails.  Its answer is the path of a
    listed port, and it leaves the driver as it was. *)
Theorem detectDevice_prefers_identifiers :
  (forall ports s before first after,
     ports = before ++ first :: after ->
     isEnttec first = true -> Forall (fun p => isEnttec p = false) before ->
     Eff.value (detectDevice (Some ports) s) = Some (path first)) /\
  (forall ports s before first after,
     Forall (fun p => isEnttec p = false) ports ->
     ports = before ++ first :: after ->
     includes (path first) "usbserial" = true ->
     Forall (fun p => includes (path p) "usbserial" = false) before ->
     Eff.value (detectDevice (Some ports) s) = Some (path first)) /\
  (forall listed s,
     Eff.value (detectDevice listed s) = None <->
     listed = None \/
     exists ports, listed = Some ports /\
       Forall (fun p => isEnttec p = false /\ includes (path p) "usbserial" = false) ports) /\
  (forall ports s found,
     Eff.value (detectDevice (Some ports) s) = Some found -> found ∈ path <$> ports) /\
  (forall listed s, Eff.state (detectDevice listed s) = s).
Proof.
  assert (Hnone : forall (P : PortInfo -> bool) ports,
             Forall (fun p => P p = false) ports -> filter (fun p => P p = true) ports = []).
  { intros P ports H. induction H as [|p ports Hp _ IH]; [reflexivity|].
    rewrite filter_cons. destruct (decide (P p = true)) as [Ht|_]; [congruence|exact IH]. }
  assert (Hfirst : forall (P : PortInfo -> bool) before first after,
             P first = true -> Forall (fun p => P p = false) before ->
             filter (fun p => P p = true) (before ++ first :: after)
             = first :: filter (fun p => P p = true) after).
  { intros P before first after Hf Hb.
    rewrite filter_app, (Hnone P before Hb), filter_cons.
    destruct (decide (P first = true)) as [_|Hn]; [reflexivity|congruence]. }
  split; [|split; [|split; [|split]]].
  - intros ports s before first after -> Hf Hb.
    rewrite detectDevice_value. cbn [mbind option_bind].
    rewrite (Hfirst isEnttec before first after Hf Hb). reflexivity.
  - intros ports s before first after Hno -> Hf Hb.
    rewrite detectDevice_value. cbn [mbind option_bind].
    rewrite (Hnone isEnttec _ Hno).
    rewrite (Hfirst (fun p => includes (path p) "usbserial") before first after Hf Hb).
    reflexivity.
  - intros listed s. rewrite detectDevice_value.
    destruct listed as [ports|]; cbn [mbind option_bind].
    + split.
      * intros Hv. right. exists ports. split; [reflexivity|].
        destruct (filter (fun p => isEnttec p = true) ports) eqn:Hm; [|discriminate].
        destruct (filter (fun p => includes (path p) "usbserial" = true) ports) eqn:Hp;
          [|discriminate].
        apply Forall_forall. intros p Hin. split.
        -- apply not_true_is_false. intros Ht.
           assert (Hp' : p ∈ filter (fun p => isEnttec p = true) ports)
             by (apply list_elem_of_filter; auto).
           rewrite Hm in Hp'. inversion Hp'.
        -- apply not_true_is_false. intros Ht.
           assert (Hp' : p ∈ filter (fun p => includes (path p) "usbserial" = true) ports)
             by (apply list_elem_of_filter; auto).
           rewrite Hp in Hp'. inversion Hp'.
      * intros [Hn|(ports' & [= <-] & Hall)]; [discriminate|].
        rewrite (Hnone isEnttec ports), (Hnone (fun p => includes (path p) "usbserial") ports);
          [reflexivity| |]; eapply Forall_impl; try exact Hall; cbn; intros p [? ?]; assumption.
    + split; [auto|reflexivity].
  - intros ports s found. rewrite detectDevice_value. cbn [mbind option_bind].
    destruct (filter (fun p => isEnttec p = true) ports) as [|first others] eqn:Hm.
    + destruct (filter (fun p => includes (path p) "usbserial" = true) ports)
        as [|first others] eqn:Hp; [discriminate|].
      intros [= <-]. apply list_elem_of_fmap. exists first. split; [reflexivity|].
      assert (Hin : first ∈ filter (fun p => includes (path p) "usbserial" = true) ports)
        by (rewrite Hp; left).
      apply list_elem_of_filter in Hin. tauto.
    + intros [= <-]. apply list_elem_of_fmap. exists first. split; [reflexivity|].
      assert (Hin : first ∈ filter (fun p => isEnttec p = true) ports)
        by (rewrite Hm; left).
      apply list_elem_of_filter in Hin. tauto.
  - intros listed s. apply detectDevice_state.
Qed.

Definition enttec_port : PortInfo :=
  mkPortInfo "/dev/ttyUSB0" (Some "0403") (Some "6001").
Definition usbserial_port : PortInfo :=
  mkPortInfo "/dev/tty.usbserial-A1" None None.

Lemma detectDevice_prefers_identifiers_witness :
  Eff.value (detectDevice (Some [usbserial_port; enttec_port]) DMXDriverRuntime.constructor)
  = Some (path enttec_port).
Proof.
  apply (proj1 detectDevice_prefers_identifiers [usbserial_port; enttec_port]
           DMXDriverRuntime.constructor [usbserial_port] enttec_port []).
  - reflexivity.
  - reflexivity.
  - repeat constructor.
Defined.

(** *** The refresh loop *)

(** X10.  A tick of the refresh loop changes nothing in the driver.  While
    the driver is connected to an open port it writes exactly one frame:
    for a well-formed universe whose master dimmer is a byte m, 518 bytes
    holding at offset 5 + i the raw byte of channel i scaled by m / 255
    and rounded, between the header 7E 06 01 02 00 and the end byte E7.
    Otherwise it writes nothing. *)
Theorem refresh_sends_the_effective_view (isOpen : bool) (u : DMXUniverse.t) (s : DMXDriverRuntime.t) :
  let r := refresh isOpen u s in
  let sending :=
    isConnected (driver s) && bool_decide (serialPort (driver s) ≠ None) && isOpen in
  Eff.state r = s /\
  (sending = false -> Eff.trace r = []) /\
  (sending = true ->
   exists packet,
     Eff.trace r = [Write packet] /\
     packet = [0x7e; 0x06; 0x01; 0x02; 0x00] ++ Eff.value (getState u) ++ [0xe7] /\
     length packet = 518%nat /\
     forall m i raw,
       well_formed u -> masterDimmer u = Int m -> byte m -> channels u !! i = Some raw ->
       packet !! (5 + i)%nat = Some (round_ratio (raw * m) 255)).
Proof.
  cbv zeta. unfold refresh, mbind, M_bind, Eff.bind.
  change (Eff.get s) with (s, s, @nil event). cbv beta iota zeta.
  destruct (isConnected (driver s) && bool_decide (serialPort (driver s) ≠ None) && isOpen).
  - split; [reflexivity|]. split; [discriminate|]. intros _.
    fold (effective u).
    pose proof (buildDMXPacket_512 (effective u) (effective_length u) (effective_bytes u))
      as (Hlen & _ & _ & Hlookup & Hpacket).
    exists (buildDMXPacket (effective u)).
    split; [reflexivity|]. split; [exact Hpacket|]. split; [exact Hlen|].
    intros m i raw Hwf Hm Hb Hraw.
    assert (Hi : (i < 512)%nat).
    { rewrite <- (proj1 Hwf). exact (lookup_lt_Some _ _ _ Hraw). }
    rewrite (Hlookup i Hi). exact (effective_scaled u m i raw Hwf Hm Hb Hraw).
  - split; [reflexivity|]. split; [reflexivity|discriminate].
Qed.

(** *** Shutdown *)

(** What the environment may still deliver to the driver: the 'close'
    event of the port, or the callback of a reconnection timer. *)
Inductive late_event :=
| PortClosed
| TimerFired (detected : option string) (answer : open_result).

Definition deliver (e : late_event) : DMXDriverRuntime.M unit :=
  match e with
  | PortClosed => this onClose
  | TimerFired detected answer => this (reconnectAttempt detected answer)
  end.

Definition schedules (e : DMXDriverRuntime.event) : Prop :=
  exists delay, e = Driver (SetTimeout delay).

Lemma shutdown_state isOpen err s :
  let s' := Eff.state (shutdown isOpen err s) in
  isShuttingDown (driver s') = true /\ reconnectTimer (driver s') = false /\
  refreshInterval s' = false /\ isConnected (driver s') = false /\
  portPath (driver s') = None /\ serialPort (driver s') = None.
Proof.
  destruct s as [[timer delay connected port serial down] interval].
  destruct timer, interval, serial, isOpen, err; repeat split.
Qed.

Lemma startReconnection_stopped d :
  isShuttingDown d = true -> startReconnection d = (tt, d, []).
Proof. intros H. unfold startReconnection, mbind, M_bind, Eff.bind, Eff.get.
  cbv beta iota zeta. rewrite H. reflexivity. Qed.

Lemma deliver_stopped e s :
  isShuttingDown (driver s) = true ->
  isShuttingDown (driver (Eff.state (deliver e s))) = true /\
  Forall (fun e => ~ schedules e) (Eff.trace (deliver e s)).
Proof.
  intros Hdown. destruct s as [[timer delay connected port serial down] interval].
  cbn in Hdown. subst down.
  destruct e as [|[path|] [|]]; cbn; split; try reflexivity;
    repeat constructor; intros [delay' Hd]; discriminate Hd.
Qed.

Lemma late_events_stopped late s :
  isShuttingDown (driver s) = true ->
  Forall (fun e => ~ schedules e) (Eff.trace (Eff.for_of late deliver s)).
Proof.
  revert s. induction late as [|e late IH]; intros s Hdown; [constructor|].
  cbn [Eff.for_of]. unfold Eff.bind.
  destruct (deliver_stopped e s Hdown) as [Hdown' Hquiet].
  destruct (deliver e s) as [[[] s1] t1]. cbn [Eff.state Eff.trace fst snd] in *.
  specialize (IH s1 Hdown').
  destruct (Eff.for_of late deliver s1) as [[[] s2] t2]. cbn [Eff.trace snd] in *.
  apply Forall_app. split; assumption.
Qed.

(** X11.  [shutdown] clears the reconnection timer and the refresh
    interval, closes the port if it is open, and leaves the driver
    disconnected.  No reconnection is scheduled from then on: neither by
    the 'close' event of the port nor by the callback of a timer that had
    already fired, whatever it detects. *)
Theorem shutdown_stops_reconnection (isOpen : bool) (err : option string)
    (s : DMXDriverRuntime.t) (late : list late_event) :
  let r := shutdown isOpen err s in
  let r' := Eff.for_of late deliver (Eff.state r) in
  isConnected (driver (Eff.state r)) = false /\
  reconnectTimer (driver (Eff.state r)) = false /\
  refreshInterval (Eff.state r) = false /\
  (reconnectTimer (driver s) = true -> Driver ClearTimeout ∈ Eff.trace r) /\
  (refreshInterval s = true -> ClearInterval ∈ Eff.trace r) /\
  (serialPort (driver s) <> None -> isOpen = true -> ClosePort ∈ Eff.trace r) /\
  Forall (fun e => ~ schedules e) (Eff.trace r) /\
  Forall (fun e => ~ schedules e) (Eff.trace r').
Proof.
  cbv zeta. destruct (shutdown_state isOpen err s) as (Hdown & Htimer & Hint & Hconn & _ & _).
  split; [exact Hconn|]. split; [exact Htimer|]. split; [exact Hint|].
  split; [|split; [|split; [|split]]].
  - destruct s as [[timer delay connected port serial down] interval]. cbn.
    intros ->. destruct interval, serial, isOpen, err; cbn; solve [repeat (first [left | right])].
  - destruct s as [[timer delay connected port serial down] interval]. cbn.
    intros ->. destruct timer, serial, isOpen, err; cbn; solve [repeat (first [left | right])].
  - destruct s as [[timer delay connected port serial down] interval]. cbn.
    intros Hs ->. destruct serial; [|congruence].
    destruct timer, interval, err; cbn; solve [repeat (first [left | right])].
  - destruct s as [[timer delay connected port serial down] interval].
    destruct timer, interval, serial, isOpen, err; cbn;
      repeat constructor; intros [delay' Hd]; discriminate Hd.
  - apply late_events_stopped, Hdown.
Qed.

(** *** Backoff while no device is found *)

(** X12.  After a connection loss, as long as no device is detected each
    attempt doubles the delay of the next one up to the cap: the n
    attempts that follow the first schedule the delays
    min(1000 * 2^i, 30000) for i = 1..n, each between 1000 and 30000, and
    from the fifth on the delay is 30000.  A successful open then resets
    the delay to 1000. *)
Theorem no_device_doubles_the_delay (n : nat) (answer : open_result) (path : string)
    (d : DMXDriver.t) :
  isShuttingDown d = false -> reconnectDelay d = 1000 ->
  let r := attempts (replicate n (None, answer)) d in
  timeouts (Eff.trace r)
  = (fun i => Z.min (1000 * 2 ^ Z.of_nat i) 30000) <$> seq 1 n /\
  Forall (fun delay => 1000 <= delay <= 30000) (timeouts (Eff.trace r)) /\
  ((5 <= n)%nat -> reconnectDelay (Eff.state r) = 30000) /\
  reconnectDelay (Eff.state (connect path OpenSucceeds (Eff.state r))) = 1000.
Proof.
  intros Hs Hd. cbv zeta.
  destruct (no_device_backoff answer n 0 1000 d Hs ltac:(lia)) as [Ht Hdelay].
  { rewrite Hd. reflexivity. }
  cbv zeta in Ht, Hdelay. rewrite Ht, Hdelay.
  split; [reflexivity|]. split; [|split].
  - apply Forall_fmap, Forall_forall. intros i _. cbn. unfold backoff, maxReconnectDelay.
    pose proof (Z.pow_pos_nonneg 2 (Z.of_nat i) ltac:(lia) ltac:(lia)). lia.
  - intros Hn. unfold backoff, maxReconnectDelay. cbn [Nat.add].
    assert (2 ^ 5 <= 2 ^ Z.of_nat n) by (apply Z.pow_le_mono_r; lia).
    change (2 ^ 5) with 32 in *. lia.
  - reflexivity.
Qed.

Lemma no_device_doubles_the_delay_witness :
  let r := attempts (replicate 6 (None, OpenFails)) DMXDriver.constructor in
  timeouts (Eff.trace r)
  = (fun i => Z.min (1000 * 2 ^ Z.of_nat i) 30000) <$> seq 1 6 /\
  Forall (fun delay => 1000 <= delay <= 30000) (timeouts (Eff.trace r)) /\
  ((5 <= 6)%nat -> reconnectDelay (Eff.state r) = 30000) /\
  reconnectDelay (Eff.state (connect "usbserial-A" OpenSucceeds (Eff.state r))) = 1000.
Proof.
  apply (no_device_doubles_the_delay 6 OpenFails "usbserial-A" DMXDriver.constructor);
    reflexivity.
Defined.
End DriverLaws.

(** ** The fade engine: cancellation, ownership of the channels, fades
    without end *)

Module FadeLaws.
Import JS JSFacts DoubleFacts IntegerFacts DMXUniverse UniverseFacts FadeEngine FadeFacts.
Local Open Scope Z_scope.

(** The promises resolved in a trace, in order. *)
Definition resolved (tr : list FadeEngine.event) : list promise :=
  omap (fun e => match e with PromiseResolved p => Some p | _ => None end) tr.

(** The intervals cleared in a trace. *)
Definition cleared (tr : list FadeEngine.event) : nat :=
  length (omap (fun e => match e with ClearInterval => Some tt | _ => None end) tr).

(** X13.  [cancelFade] leaves the engine idle and the universe as the
    last tick left it: the interval of an active fade is cleared once,
    the promise of a pending fade is resolved once, so that no caller is
    left waiting.  Cancelling again does nothing, and neither does a tick
    that comes after. *)
Theorem cancelFade_settles_the_engine (u : DMXUniverse.t) (e : FadeEngine.t) :
  let r := cancelFade (u, e) in
  (Eff.state r).1 = u /\
  activeFade (Eff.state r).2 = None /\
  fadeResolve (Eff.state r).2 = None /\
  Eff.value (isFading (Eff.state r)) = false /\
  resolved (Eff.trace r) = (if fadeResolve e is Some p then [p] else []) /\
  cleared (Eff.trace r) = (if activeFade e is Some _ then 1%nat else 0%nat) /\
  cancelFade (Eff.state r) = (tt, Eff.state r, []) /\
  (forall now, tick now (Eff.state r) = (tt, Eff.state r, [])).
Proof.
  cbv zeta. rewrite cancelFade_run. cbn [Eff.state Eff.trace fst snd idle activeFade fadeResolve].
  split; [reflexivity|]. split; [reflexivity|]. split; [reflexivity|].
  split; [reflexivity|].
  split; [destruct e as [[f|] [p|] n]; reflexivity|].
  split; [destruct e as [[f|] [p|] n]; reflexivity|].
  split; [rewrite cancelFade_run; reflexivity|].
  intros now. apply tick_idle. reflexivity.
Qed.

(** *** A tick owns the 512 channels *)

Lemma applied_channels snapshot u1 u2 :
  length (channels u1) = 512%nat -> length (channels u2) = 512%nat ->
  channels (applied snapshot u1) = channels (applied snapshot u2).
Proof.
  intros H1 H2. apply list_eq. intros i. destruct (decide (i < 512)%nat) as [Hi|Hi].
  - rewrite !applied_lookup by assumption. reflexivity.
  - rewrite !lookup_ge_None_2; [reflexivity| |]; rewrite applied_length; lia.
Qed.

(** X14.  A tick of an active fade writes all 512 raw channels from the
    start and target arrays of the fade and the time: the channels it
    leaves do not depend on those it finds, so a channel set by another
    caller during a fade is overwritten by the next tick.  The master
    dimmer and the listeners are kept, and the listeners are notified
    once per tick, before the completion if the tick completes the
    fade. *)
Theorem tick_overwrites_every_channel (f : fade) (p : option promise) (n : nat) (now : Z)
    (u1 u2 : DMXUniverse.t) :
  length (channels u1) = 512%nat -> length (channels u2) = 512%nat ->
  let e := FadeEngine.mk (Some f) p n in
  let r1 := tick now (u1, e) in
  let r2 := tick now (u2, e) in
  channels (Eff.state r1).1 = channels (Eff.state r2).1 /\
  (forall i, (i < 512)%nat ->
     channels (Eff.state r1).1 !! i
     = Some (ToUint8 (clamp255 (lerp (or_zero (startChannels f !! i))
                                     (or_zero (targetChannels f !! i))
                                     (progress_at f now))))) /\
  masterDimmer (Eff.state r1).1 = masterDimmer u1 /\
  listeners (Eff.state r1).1 = listeners u1 /\
  (Eff.state r1).2 = (Eff.state r2).2 /\
  exists completion,
    Eff.trace r1 = (Universe <$> notification (Eff.state r1).1) ++ completion /\
    Forall (fun ev => forall ue, ev <> Universe ue) completion.
Proof.
  intros H1 H2. cbv zeta.
  rewrite (tick_run now u1 (FadeEngine.mk (Some f) p n) f eq_refl).
  rewrite (tick_run now u2 (FadeEngine.mk (Some f) p n) f eq_refl).
  cbv zeta. cbn [Eff.state Eff.trace fst snd].
  split; [apply applied_channels; assumption|].
  split; [intros i Hi; apply tick_channel; assumption|].
  split; [reflexivity|]. split; [reflexivity|]. split; [reflexivity|].
  eexists. split; [reflexivity|].
  destruct (ge (progress_at f now) (of_Z 1)); [|constructor].
  unfold complete_trace. cbn [activeFade fadeResolve].
  destruct p; repeat constructor; discriminate.
Qed.

Lemma tick_overwrites_every_channel_witness :
  let e := FadeEngine.mk (Some sample_fade) None 0 in
  let r1 := tick 40 (sample_universe, e) in
  let r2 := tick 40 (DMXUniverse.constructor, e) in
  channels (Eff.state r1).1 = channels (Eff.state r2).1 /\
  (forall i, (i < 512)%nat ->
     channels (Eff.state r1).1 !! i
     = Some (ToUint8 (clamp255 (lerp (or_zero (startChannels sample_fade !! i))
                                     (or_zero (targetChannels sample_fade !! i))
                                     (progress_at sample_fade 40))))) /\
  masterDimmer (Eff.state r1).1 = masterDimmer sample_universe /\
  listeners (Eff.state r1).1 = listeners sample_universe /\
  (Eff.state r1).2 = (Eff.state r2).2 /\
  exists completion,
    Eff.trace r1 = (Universe <$> notification (Eff.state r1).1) ++ completion /\
    Forall (fun ev => forall ue, ev <> Universe ue) completion.
Proof.
  apply (tick_overwrites_every_channel sample_fade None 0 40 sample_universe
           DMXUniverse.constructor); reflexivity.
Defined.

(** *** Fades that no tick completes *)

Lemma of_Z_not_NaN z : of_Z z <> NaN.
Proof.
  destruct (Z.lt_ge_cases (Z.abs z) (2 ^ 53)) as [Hsafe|Hlarge].
  - destruct z as [|p|p]; [discriminate| |];
      rewrite ?of_Z_pos, ?of_Z_neg by lia; discriminate.
  - change (2 ^ 53) with 9007199254740992 in Hlarge.
    assert (Hround : forall s p, 9007199254740992 <= Z.pos p ->
                                 binary_round prec emax s p 0 <> NaN).
    { intros s p Hp. unfold binary_round, shl_align.
      assert (Hd : 54 <= Z.pos (digits2_pos p)).
      { pose proof (digits_ge (Z.pos p) 53 ltac:(lia)) as H. cbn [Zdigits2] in H.
        change (2 ^ 53) with 9007199254740992 in H. lia. }
      assert (Hf : fexp prec emax (Z.pos (digits2_pos p) + 0) = Z.pos (digits2_pos p) - 53)
        by (unfold fexp, emin, prec, emax; lia).
      rewrite Hf, Z.sub_0_r.
      destruct (Z.pos (digits2_pos p) - 53) as [|k|k] eqn:Hk; try lia.
      destruct (binary_round_aux_normal s (Z.pos p) 0 loc_Exact)
        as [->|(m' & e' & -> & _)]; try discriminate; cbn [Zdigits2]; lia. }
    destruct z as [|p|p]; [cbn in Hlarge; lia| |]; apply Hround; lia.
Qed.

(** The progress a tick computes when the duration is NaN or +Infinity. *)
Lemma progress_without_end d elapsed :
  d = NaN \/ d = S754_infinity false ->
  ge (Math_fmin (of_Z 1) (div (of_Z elapsed) d)) (of_Z 1) = false.
Proof.
  pose proof (of_Z_not_NaN elapsed) as Hnan.
  intros [-> | ->]; destruct (of_Z elapsed) as [s|s| |s m e]; try reflexivity;
    try (destruct s; reflexivity); destruct (Hnan eq_refl).
Qed.

Lemma starts_without_end d :
  d = NaN \/ d = S754_infinity false -> le d (of_Z 0) = false.
Proof. intros [-> | ->]; reflexivity. Qed.

Lemma ticks_without_end f p n nows u :
  durationMs f = NaN \/ durationMs f = S754_infinity false ->
  let e := FadeEngine.mk (Some f) p n in
  let r := Eff.for_of nows tick (u, e) in
  (Eff.state r).2 = e /\ resolved (Eff.trace r) = [] /\ cleared (Eff.trace r) = 0%nat.
Proof.
  intros Hd. cbv zeta. revert u. induction nows as [|now nows IH]; intros u.
  - repeat split.
  - cbn [Eff.for_of]. unfold Eff.bind.
    rewrite (tick_run now u (FadeEngine.mk (Some f) p n) f eq_refl). cbv zeta.
    unfold progress_at. rewrite (progress_without_end _ _ Hd). rewrite app_nil_r.
    specialize (IH (applied (interpolated f
                      (Math_fmin (of_Z 1) (div (of_Z (now - startTime f)) (durationMs f)))) u)).
    destruct (Eff.for_of nows tick _) as [[[] s2] t2].
    cbn [Eff.state Eff.trace fst snd] in *.
    destruct IH as (Hs & Hr & Hc). split; [exact Hs|].
    unfold resolved, cleared in *. rewrite !omap_app, length_app, Hr, Hc.
    split.
    + rewrite app_nil_r. induction (notification _) as [|ev evs IHev]; [reflexivity|exact IHev].
    + rewrite Nat.add_0_r.
      induction (notification _) as [|ev evs IHev]; [reflexivity|exact IHev].
Qed.

Lemma interpolate_NaN f i : durationMs f = NaN -> forall now, interpolate f (progress_at f now) i = IntNaN.
Proof.
  intros Hd now. unfold interpolate, progress_at. rewrite Hd.
  assert (Hp : Math_fmin (of_Z 1) (div (of_Z (now - startTime f)) NaN) = NaN).
  { destruct (of_Z (now - startTime f)) as [s|s| |s m e]; reflexivity. }
  rewrite Hp.
  assert (Hmul : forall x, mul x NaN = NaN) by (intros [s|s| |s m e]; reflexivity).
  assert (Hadd : forall x, add x NaN = NaN) by (intros [s|s| |s m e]; reflexivity).
  rewrite Hmul, Hadd. reflexivity.
Qed.

(** X15.  A fade whose duration is NaN or +Infinity is started like any
    fade of positive duration, and no tick completes it: whatever the
    times of the ticks, the interval is never cleared and the promise
    returned is never resolved (only a later [fadeTo] or [cancelFade]
    resolves it).  With a duration of NaN the first tick sets every raw
    channel to 0. *)
Theorem fade_without_end_never_completes (target : list number) (d : number) (now0 : Z)
    (u0 : DMXUniverse.t) (e0 : FadeEngine.t) :
  d = NaN \/ d = S754_infinity false ->
  let r0 := fadeTo target d now0 (u0, e0) in
  exists p,
    Eff.value r0 = Pending p /\
    fadeResolve (Eff.state r0).2 = Some p /\
    (forall nows u,
       let r := Eff.for_of nows tick (u, (Eff.state r0).2) in
       (Eff.state r).2 = (Eff.state r0).2 /\
       Eff.value (isFading (Eff.state r)) = true /\
       resolved (Eff.trace r) = [] /\ cleared (Eff.trace r) = 0%nat) /\
    (d = NaN ->
     forall now u, length (channels u) = 512%nat ->
       channels (Eff.state (tick now (u, (Eff.state r0).2))).1 = replicate 512 0).
Proof.
  intros Hd. cbv zeta. rewrite (fadeTo_start _ _ _ _ _ (starts_without_end d Hd)).
  cbn [Eff.value Eff.state fst snd started fadeResolve].
  exists (created e0). split; [reflexivity|]. split; [reflexivity|]. split.
  - intros nows u. cbv zeta.
    destruct (ticks_without_end (mkFade target d (of_Z <$> channels u0) now0)
                (Some (created e0)) (S (created e0)) nows u Hd) as (Hs & Hr & Hc).
    cbv zeta in Hs. split; [exact Hs|]. split; [|split; assumption].
    unfold isFading, mbind, M_bind, Eff.bind, this.
    destruct (Eff.for_of nows tick _) as [[[] [u' e']] t]. cbn in Hs |- *. rewrite Hs.
    reflexivity.
  - intros -> now u Hlen.
    rewrite (tick_run now u (started target NaN now0 u0 e0)
               (mkFade target NaN (of_Z <$> channels u0) now0) eq_refl).
    cbv zeta. cbn [Eff.state fst snd].
    apply list_eq. intros i. destruct (decide (i < 512)%nat) as [Hi|Hi].
    + rewrite (applied_lookup _ _ _ Hlen Hi), lookup_replicate_2 by exact Hi. f_equal.
      unfold snapshot_byte. rewrite (interpolated_lookup _ _ _ Hi).
      rewrite interpolate_NaN by reflexivity. reflexivity.
    + rewrite !lookup_ge_None_2; [reflexivity| |];
        rewrite ?applied_length, ?length_replicate; lia.
Qed.

Lemma fade_without_end_never_completes_witness :
  let r0 := fadeTo [] (S754_infinity false) 0 (DMXUniverse.constructor, FadeEngine.constructor) in
  exists p,
    Eff.value r0 = Pending p /\
    fadeResolve (Eff.state r0).2 = Some p /\
    (forall nows u,
       let r := Eff.for_of nows tick (u, (Eff.state r0).2) in
       (Eff.state r).2 = (Eff.state r0).2 /\
       Eff.value (isFading (Eff.state r)) = true /\
       resolved (Eff.trace r) = [] /\ cleared (Eff.trace r) = 0%nat) /\
    (S754_infinity false = NaN ->
     forall now u, length (channels u) = 512%nat ->
       channels (Eff.state (tick now (u, (Eff.state r0).2))).1 = replicate 512 0).
Proof.
  apply (fade_without_end_never_completes [] (S754_infinity false) 0
           DMXUniverse.constructor FadeEngine.constructor).
  right. reflexivity.
Defined.
End FadeLaws.

(** ** Finding by identifier in a stored list *)

Module StoreFacts.

(** [l.find(P)] is the first element of [l.filter(P)]. *)
Lemma find_head {A} (P : A -> Prop) `{!forall x, Decision (P x)} (l : list A) :
  snd <$> list_find P l = head (filter P l).
Proof.
  induction l as [|x l IH]; [reflexivity|].
  cbn [list_find]. rewrite filter_cons. destruct (decide (P x)); [reflexivity|].
  rewrite <- IH. destruct (list_find P l) as [[i y]|]; reflexivity.
Qed.

Lemma find_split {A} (P : A -> Prop) `{!forall x, Decision (P x)} (l : list A) i x :
  list_find P l = Some (i, x) ->
  l = take i l ++ x :: drop (S i) l /\ length (take i l) = i /\
  P x /\ Forall (fun y => ~ P y) (take i l).
Proof.
  intros (Hx & HP & Hbefore)%list_find_Some.
  split; [symmetry; apply take_drop_middle, Hx|].
  split; [apply length_take_le, Nat.lt_le_incl, (lookup_lt_Some _ _ _ Hx)|].
  split; [exact HP|].
  apply Forall_forall. intros y Hy.
  apply list_elem_of_lookup in Hy as [j Hj].
  pose proof (lookup_lt_Some _ _ _ Hj) as Hlt. rewrite length_take in Hlt.
  rewrite lookup_take_lt in Hj by lia. apply (Hbefore j y Hj). lia.
Qed.

Lemma filter_none {A} (P : A -> Prop) `{!forall x, Decision (P x)} (l : list A) :
  Forall (fun y => ~ P y) l -> filter P l = [].
Proof.
  induction 1 as [|y l Hy _ IH]; [reflexivity|].
  rewrite filter_cons. destruct (decide (P y)); [contradiction|exact IH].
Qed.

(** Replacing or removing an element that [Q] rejects, by one that [Q]
    rejects, does not change what [Q] finds. *)
Lemma filter_replace {A} (Q : A -> Prop) `{!forall x, Decision (Q x)}
    (before after : list A) (x : A) (ys : list A) :
  ~ Q x -> Forall (fun y => ~ Q y) ys ->
  filter Q (before ++ ys ++ after) = filter Q (before ++ x :: after).
Proof.
  intros Hx Hys. rewrite !filter_app, filter_cons, (filter_none Q ys Hys).
  destruct (decide (Q x)); [contradiction|reflexivity].
Qed.
End StoreFacts.

(** ** Presets: update, delete, capture and recall *)

Module PresetLaws.
Import JS JSFacts IntegerFacts PresetManager PresetFacts StoreFacts.
Local Open Scope Z_scope.

Lemma getById_head id_ (presets : list Preset) :
  Eff.value (getById id_ presets) = head (filter (fun p => id p = id_) presets).
Proof. unfold getById, getAll, mbind, M_bind, Eff.bind. cbn. apply find_head. Qed.




Definition warm : Preset :=
  mkPreset "id-1" "Warm" (replicate 512 (of_Z 0)) (of_Z 0) "#fff" None "t1" "t1".



Lemma delete_run_found id_ presets index removed :
  list_find (fun p => id p = id_) presets = Some (index, removed) ->
  delete id_ presets
  = (true, take index presets ++ drop (S index) presets, [LogInfoDeleted (name removed) id_]).
Proof.
  intros Hfind. unfold delete, getAll, mbind, M_bind, Eff.bind.
  change (Eff.get presets) with (presets, presets, @nil event). cbv beta iota zeta.
  rewrite Hfind. reflexivity.
Qed.

Lemma delete_run_missing id_ presets :
  list_find (fun p => id p = id_) presets = None ->
  delete id_ presets = (false, presets, [LogWarnNotFound id_]).
Proof.
  intros Hfind. unfold delete, getAll, mbind, M_bind, Eff.bind.
  change (Eff.get presets) with (presets, presets, @nil event). cbv beta iota zeta.
  rewrite Hfind. reflexivity.
Qed.

(** X17.  [delete] of an unknown identifier returns false, logs a warning
    and leaves the store as it was.  Otherwise it returns true and
    removes the first preset with that identifier, and nothing else: the
    store is one shorter, every other identifier reads back as before,
    and when the identifiers of the store are distinct the deleted one is
    no longer found. *)
Theorem delete_removes_one_preset (id_ : string) (presets : PresetManager.t) :
  let r := delete id_ presets in
  (Eff.value (getById id_ presets) = None ->
   r = (false, presets, [LogWarnNotFound id_])) /\
  (forall removed,
     Eff.value (getById id_ presets) = Some removed ->
     Eff.value r = true /\
     Eff.trace r = [LogInfoDeleted (name removed) id_] /\
     S (length (Eff.state r)) = length presets /\
     (forall other, other <> id_ ->
        Eff.value (getById other (Eff.state r)) = Eff.value (getById other presets)) /\
     (NoDup (id <$> presets) -> Eff.value (getById id_ (Eff.state r)) = None)).
Proof.
  cbv zeta. unfold getById at 1 2, getAll, mbind, M_bind, Eff.bind. cbn [Eff.get Eff.ret Eff.value fst].
  destruct (list_find (fun p => id p = id_) presets) as [[index removed]|] eqn:Hfind.
  - split; [discriminate|]. intros removed' [= <-].
    rewrite (delete_run_found _ _ _ _ Hfind).
    cbn [Eff.value Eff.state Eff.trace fst snd].
    destruct (find_split _ _ _ _ Hfind) as (Hsplit & Hlen & Hid & Hbefore). cbn in Hid.
    split; [reflexivity|]. split; [reflexivity|]. split; [|split].
    + pose proof (proj1 (list_find_Some _ _ _ _) Hfind) as (Hx & _).
      pose proof (lookup_lt_Some _ _ _ Hx) as Hlt.
      rewrite length_app, length_take, length_drop. lia.
    + intros other Hother. rewrite !getById_head. rewrite Hsplit at 3.
      apply f_equal.
      exact (filter_replace (fun p => id p = other) (take index presets)
               (drop (S index) presets) removed [] ltac:(congruence) ltac:(constructor)).
    + intros Hnd. rewrite getById_head, filter_app, (filter_none _ _ Hbefore).
      cbn [app]. rewrite filter_none; [reflexivity|].
      rewrite Hsplit, fmap_app, fmap_cons in Hnd.
      apply NoDup_app in Hnd as (_ & _ & Hnd). apply NoDup_cons in Hnd as [Hnotin _].
      apply Forall_forall. intros q Hq Hidq. apply Hnotin.
      apply list_elem_of_fmap. exists q. split; [congruence|exact Hq].
  - split; [|discriminate]. intros _. apply delete_run_missing, Hfind.
Qed.

Lemma delete_removes_one_preset_witness :
  let r := delete "id-1" [warm] in
  Eff.value r = true /\
  Eff.trace r = [LogInfoDeleted (name warm) "id-1"] /\
  S (length (Eff.state r)) = length [warm] /\
  (forall other, other <> "id-1" ->
     Eff.value (getById other (Eff.state r)) = Eff.value (getById other [warm])) /\
  (NoDup (id <$> [warm]) -> Eff.value (getById "id-1" (Eff.state r)) = None).
Proof.
  apply (proj2 (delete_removes_one_preset "id-1" [warm]) warm). reflexivity.
Defined.

(** X18.  [create] appends: with an identifier that no stored preset
    has, the presets already stored read back as before, the identifiers
    of the store stay distinct if they were, and deleting the new preset
    gives back the store as it was before the creation. *)
Theorem create_then_delete_restores (name_ : string) (channels_ : list number)
    (fadeTime_ : number) (color_ : string) (fixtureModes_ : option (list (string * string)))
    (uuid now1 now2 : string) (presets : PresetManager.t) :
  Forall (fun q => id q <> uuid) presets ->
  let r := create name_ channels_ fadeTime_ color_ fixtureModes_ uuid now1 now2 presets in
  Eff.state r = presets ++ [Eff.value r] /\
  (forall other, other <> uuid ->
     Eff.value (getById other (Eff.state r)) = Eff.value (getById other presets)) /\
  (NoDup (id <$> presets) -> NoDup (id <$> Eff.state r)) /\
  delete uuid (Eff.state r) = (true, presets, [LogInfoDeleted name_ uuid]).
Proof.
  intros Hfresh. cbv zeta. rewrite create_run. cbv zeta.
  cbn [Eff.value Eff.state fst snd].
  set (preset := mkPreset uuid name_ (padded channels_) fadeTime_ color_ fixtureModes_ now1 now2).
  split; [reflexivity|]. split; [|split].
  - intros other Hother. rewrite !getById_head, filter_app, filter_cons.
    destruct (decide (id preset = other)) as [Heq|_]; [cbn in Heq; congruence|].
    rewrite filter_nil, app_nil_r. reflexivity.
  - intros Hnd. rewrite fmap_app. apply NoDup_app. split; [exact Hnd|]. split.
    + intros x Hx Hx'. apply list_elem_of_fmap in Hx as (q & -> & Hq).
      apply list_elem_of_singleton in Hx'.
      exact (proj1 (Forall_forall _ _) Hfresh q Hq Hx').
    + apply NoDup_singleton.
  - assert (Hfind : list_find (fun p => id p = uuid) (presets ++ [preset])
                    = Some (length presets, preset)).
    { apply list_find_Some. split; [|split].
      - rewrite lookup_app_r, Nat.sub_diag by lia. reflexivity.
      - reflexivity.
      - intros j q Hq Hj. rewrite lookup_app_l in Hq by exact Hj.
        exact (proj1 (Forall_forall _ _) Hfresh q (list_elem_of_lookup_2 _ _ _ Hq)). }
    rewrite (delete_run_found _ _ _ _ Hfind).
    rewrite take_app_length, drop_app_ge by lia.
    replace (S (length presets) - length presets)%nat with 1%nat by lia.
    cbn [drop]. rewrite app_nil_r. reflexivity.
Qed.

Lemma create_then_delete_restores_witness :
  let r := create "Cold" [] (of_Z 0) "#00f" None "id-2" "t1" "t1" [warm] in
  Eff.state r = [warm] ++ [Eff.value r] /\
  (forall other, other <> "id-2" ->
     Eff.value (getById other (Eff.state r)) = Eff.value (getById other [warm])) /\
  (NoDup (id <$> [warm]) -> NoDup (id <$> Eff.state r)) /\
  delete "id-2" (Eff.state r) = (true, [warm], [LogInfoDeleted "Cold" "id-2"]).
Proof.
  apply (create_then_delete_restores "Cold" [] (of_Z 0) "#00f" None "id-2" "t1" "t1" [warm]).
  repeat constructor. discriminate.
Defined.

(** X19.  A preset captured from the universe holds the raw channels, not
    the effective ones: two universes that differ only in their master
    dimmer are captured alike.  Applying the channels of the captured
    preset, read back by its identifier, restores in any universe the raw
    channels that were captured, and leaves the master dimmer of that
    universe. *)
Theorem capture_then_recall_restores (name_ : string) (u u' : DMXUniverse.t)
    (fadeTime_ : number) (color_ : string) (fixtureModes_ : option (list (string * string)))
    (uuid now1 now2 : string) (presets : PresetManager.t) :
  UniverseFacts.well_formed u -> length (DMXUniverse.channels u') = 512%nat ->
  Forall (fun q => id q <> uuid) presets ->
  let r := captureFromUniverse name_ u fadeTime_ color_ fixtureModes_ uuid now1 now2 presets in
  (forall master,
     Eff.value (captureFromUniverse name_ (DMXUniverse.with_master u master) fadeTime_ color_
                  fixtureModes_ uuid now1 now2 presets) = Eff.value r) /\
  exists preset,
    Eff.value (getById uuid (Eff.state r)) = Some preset /\
    preset = Eff.value r /\
    let recalled := Eff.state (DMXUniverse.applySnapshot (channels preset) u') in
    DMXUniverse.channels recalled = DMXUniverse.channels u /\
    DMXUniverse.masterDimmer recalled = DMXUniverse.masterDimmer u'.
Proof.
  intros Hwf Hlen' Hfresh. cbv zeta. split; [reflexivity|].
  destruct (capture_in_range name_ u fadeTime_ color_ fixtureModes_ uuid now1 now2 presets Hwf)
    as [Hchannels _].
  cbv zeta in Hchannels.
  unfold captureFromUniverse in *. rewrite create_run in *. cbv zeta in *.
  cbn [Eff.value Eff.state fst snd] in *.
  eexists. split.
  - apply getById_created; [reflexivity|].
    intros q Hq. exact (proj1 (Forall_forall _ _) Hfresh q Hq).
  - split; [reflexivity|]. rewrite Hchannels.
    split; [exact (UniverseLaws.snapshot_round_trip u u' Hwf Hlen')|].
    rewrite UniverseFacts.applySnapshot_run. reflexivity.
Qed.

Lemma capture_then_recall_restores_witness :
  let r := captureFromUniverse "Look" UniverseFacts.sample_universe (of_Z 0) "#fff" None
             "id-3" "t1" "t1" [] in
  (forall master,
     Eff.value (captureFromUniverse "Look"
                  (DMXUniverse.with_master UniverseFacts.sample_universe master) (of_Z 0)
                  "#fff" None "id-3" "t1" "t1" []) = Eff.value r) /\
  exists preset,
    Eff.value (getById "id-3" (Eff.state r)) = Some preset /\
    preset = Eff.value r /\
    let recalled :=
      Eff.state (DMXUniverse.applySnapshot (channels preset) DMXUniverse.constructor) in
    DMXUniverse.channels recalled = DMXUniverse.channels UniverseFacts.sample_universe /\
    DMXUniverse.masterDimmer recalled = DMXUniverse.masterDimmer DMXUniverse.constructor.
Proof.
  apply (capture_then_recall_restores "Look" UniverseFacts.sample_universe
           DMXUniverse.constructor (of_Z 0) "#fff" None "id-3" "t1" "t1" []).
  - split; [reflexivity|]. apply (bool_decide_unpack _). vm_compute. exact I.
  - reflexivity.
  - constructor.
Defined.
End PresetLaws.

(** ** fixture-manager.ts: creation from a profile, channel conflicts,
    import and export *)

Module FixtureStore.
Import FixtureManager.
Local Open Scope Z_scope.

Inductive event :=
| Manager (e : FixtureManager.event)
| LogInfoCreatedFromProfile (name id profileName : string) (startAddress channelCount : Z)
| LogWarnConflicts (count : nat)
| LogInfoReplaced (count : nat)
| LogInfoImportComplete (added skipped : nat).

Definition M := Eff.M FixtureManager.t event.

(** A method modelled in [FixtureManager], called on the same object. *)
Definition manager {A} (c : FixtureManager.M A) : M A :=
  Eff.zoom (fun m => m) (fun _ m => m) Manager c.

(** [this.store.set('fixtures', fixtures)] *)
Definition set_fixtures (fixtures : list Fixture) : M unit :=
  m ← Eff.get; Eff.put (mk fixtures (bundledProfiles m)).

(** [this.bundledProfiles.get(profileId)] *)
Definition getBundledProfile (profileId : string) : M (option FixtureProfile) :=
  m ← Eff.get;
  Eff.ret ((fun found => found.2.2) <$> list_find (fun e => e.1 = profileId) (bundledProfiles m)).

Definition getBundledProfiles : M (list (string * FixtureProfile)) :=
  m ← Eff.get; Eff.ret (bundledProfiles m).

(** [profile.channels[key].label], for a key of [profile.channels]. *)
Definition label_of (p : FixtureProfile) (key : string) : string :=
  default "" ((fun found => label found.2.2)
                <$> list_find (fun e => e.1 = key) (profile_channels p)).

(** [createFromProfile]; [uuid], [now1] and [now2] are what [uuidv4()]
    and the two [new Date().toISOString()] return. *)
Definition createFromProfile (name_ profileId : string) (startAddress_ : Z)
    (uuid now1 now2 : string) : M (result Fixture) :=
  found ← getBundledProfile profileId;
  match found with
  | None => Eff.ret (Throw ("Bundled profile not found: " +:+ profileId))
  | Some profile_ =>
      if bool_decide (startAddress_ < 1) || bool_decide (startAddress_ + channelCount profile_ - 1 > 512)
      then
        Eff.ret (Throw ("Invalid start address " +:+ pretty startAddress_
                        +:+ ": fixture requires " +:+ pretty (channelCount profile_)
                        +:+ " channels (max address would be "
                        +:+ pretty (startAddress_ + channelCount profile_ - 1) +:+ ")"))
      else
        let channelKeys := sort (fst <$> profile_channels profile_) in
        let channels_ :=
          imap (fun index key =>
                  mkFixtureChannel (label_of profile_ key) (startAddress_ + Z.of_nat index))
               channelKeys in
        let defaultMode :=
          match modes profile_ with
          | first :: _ => Some (mode_name first)
          | [] => None
          end in
        let fixture_ :=
          mkFixture uuid name_ (fixture profile_) (Some rgb) channels_ now1 now2
            (Some profile_) (Some startAddress_) defaultMode None None in
        fixtures ← manager getAll;
        set_fixtures (fixtures ++ [fixture_]);;
        Eff.emit (LogInfoCreatedFromProfile name_ uuid (fixture profile_) startAddress_
                    (channelCount profile_));;
        Eff.ret (Ok fixture_)
  end.

(** The value of a [Map] from DMX channels to their first claimant, in
    insertion order. *)
Record owner := mkOwner {
  owner_fixtureId : string;
  owner_fixtureName : string;
  owner_channelName : string
}.

Definition owners := list (Z * owner).

Definition map_get (k : Z) (m : owners) : option owner :=
  (fun found => found.2.2) <$> list_find (fun e => e.1 = k) m.

Definition conflict_message (f : Fixture) (c : FixtureChannel) (existing : owner) : string :=
  "DMX channel " +:+ pretty (dmxChannel c) +:+ ": " +:+ quoted (name f)
  +:+ " (" +:+ channel_name c +:+ ") conflicts with " +:+ quoted (owner_fixtureName existing)
  +:+ " (" +:+ owner_channelName existing +:+ ")".

(** One iteration of the inner loop of [validateChannelConflicts]. *)
Definition claim (f : Fixture) (acc : owners * list string) (c : FixtureChannel)
  : owners * list string :=
  let '(channelOwners, conflicts) := acc in
  match map_get (dmxChannel c) channelOwners with
  | Some existing => (channelOwners, conflicts ++ [conflict_message f c existing])
  | None =>
      (channelOwners ++ [(dmxChannel c, mkOwner (id f) (name f) (channel_name c))], conflicts)
  end.

Definition validateChannelConflicts : M (list string) :=
  fixtures ← manager getAll;
  let '(channelOwners, conflicts) :=
    foldl (fun acc f => foldl (claim f) acc (channels f)) ([], []) fixtures in
  (if bool_decide (0 < length conflicts)%nat
   then Eff.emit (LogWarnConflicts (length conflicts)) else Eff.ret tt);;
  Eff.ret conflicts.

Definition getChannelMap : M owners :=
  fixtures ← manager getAll;
  Eff.ret
    (foldl (fun map f =>
              foldl (fun map c =>
                       if bool_decide (map_get (dmxChannel c) map = None)
                       then map ++ [(dmxChannel c, mkOwner (id f) (name f) (channel_name c))]
                       else map)
                    map (channels f))
           [] fixtures).

Record FixtureConfig := mkFixtureConfig {
  version : Z;
  exportedAt : string;
  config_fixtures : list Fixture
}.

Definition exportConfig (now : string) : M FixtureConfig :=
  fixtures ← manager getAll;
  Eff.ret (mkFixtureConfig 1 now fixtures).

Record ImportResult := mkImportResult {
  added : nat;
  skipped : nat;
  conflicts : list string
}.

(** [a.join(', ')] *)
Fixpoint join (a : list string) : string :=
  match a with
  | [] => ""
  | [s] => s
  | s :: a' => s +:+ ", " +:+ join a'
  end.

(** The variables of the merge loop of [importConfig]. *)
Record merging := mkMerging {
  existing : list Fixture;
  existingIds : list string;
  existingChannels : list Z;
  merge_added : nat;
  merge_skipped : nat;
  merge_conflicts : list string
}.

Definition merge_step (s : merging) (f : Fixture) : merging :=
  if bool_decide (id f ∈ existingIds s) then
    mkMerging (existing s) (existingIds s) (existingChannels s) (merge_added s)
      (S (merge_skipped s))
      (merge_conflicts s
       ++ ["Fixture " +:+ quoted (name f) +:+ " (" +:+ id f +:+ ") already exists — skipped"])
  else
    let conflicting := filter (fun ch => dmxChannel ch ∈ existingChannels s) (channels f) in
    if bool_decide (0 < length conflicting)%nat then
      mkMerging (existing s) (existingIds s) (existingChannels s) (merge_added s)
        (S (merge_skipped s))
        (merge_conflicts s
         ++ ["Fixture " +:+ quoted (name f) +:+ " has conflicting channels: "
             +:+ join ((fun c => pretty (dmxChannel c)) <$> conflicting) +:+ " — skipped"])
    else
      mkMerging (existing s ++ [f]) (existingIds s ++ [id f])
        (existingChannels s ++ (dmxChannel <$> channels f)) (S (merge_added s))
        (merge_skipped s) (merge_conflicts s).

(** [importConfig(config, strategy)]: any strategy other than 'replace'
    merges. *)
Definition importConfig (config : FixtureConfig) (strategy : string)
  : M (result ImportResult) :=
  if bool_decide (version config ≠ 1) then
    Eff.ret (Throw ("Unsupported fixture config version: " +:+ pretty (version config)))
  else if bool_decide (strategy = "replace") then
    set_fixtures (config_fixtures config);;
    Eff.emit (LogInfoReplaced (length (config_fixtures config)));;
    Eff.ret (Ok (mkImportResult (length (config_fixtures config)) 0 []))
  else
    fixtures ← manager getAll;
    let start :=
      mkMerging fixtures (id <$> fixtures) (f ← fixtures; dmxChannel <$> channels f) 0 0 [] in
    let s := foldl merge_step start (config_fixtures config) in
    set_fixtures (existing s);;
    Eff.emit (LogInfoImportComplete (merge_added s) (merge_skipped s));;
    Eff.ret (Ok (mkImportResult (merge_added s) (merge_skipped s) (merge_conflicts s))).
End FixtureStore.

(** ** Fixtures: address blocks, channel conflicts, import and export *)

Module FixtureLaws.
Import FixtureManager FixtureFacts FixtureStore StoreFacts.
Local Open Scope Z_scope.

(** *** Runs *)

Lemma manager_run {A} (c : FixtureManager.M A) m :
  manager c m = (Eff.value (c m), Eff.state (c m), Manager <$> Eff.trace (c m)).
Proof. unfold manager, Eff.zoom. destruct (c m) as [[a m1] t]. reflexivity. Qed.

(** The store after [getAll]: the fixtures [getAll] returns if one of
    them was synced, the stored ones otherwise. *)
Lemma getAll_store m :
  store_fixtures (Eff.state (getAll m)) = store_fixtures m \/
  store_fixtures (Eff.state (getAll m)) = fixtures_of m.
Proof.
  unfold getAll, mbind, M_bind, Eff.bind.
  change (Eff.get m) with (m, m, @nil FixtureManager.event). cbv beta iota zeta.
  rewrite for_of_emit.
  destruct (existsb snd (normalize m <$> store_fixtures m)); [right|left]; reflexivity.
Qed.

Lemma getAll_quiet l bundled :
  Forall (normalized bundled) l -> getAll (mk l bundled) = (l, mk l bundled, []).
Proof.
  intros Hn. unfold getAll, mbind, M_bind, Eff.bind.
  change (Eff.get (mk l bundled)) with (mk l bundled, mk l bundled, @nil FixtureManager.event).
  cbv beta iota zeta. rewrite for_of_emit. cbn [store_fixtures].
  assert (Hmap : normalize (mk l bundled) <$> l = (fun f => (f, false)) <$> l).
  { apply list_fmap_ext. intros i f Hf.
    exact (proj1 (Forall_lookup _ _) Hn i f Hf (mk l bundled) eq_refl). }
  rewrite Hmap.
  assert (Hfilter : filter (fun r : Fixture * bool => r.2 = true) ((fun f => (f, false)) <$> l) = []).
  { clear. induction l as [|f l IH]; [reflexivity|].
    cbn [fmap list_fmap]. rewrite filter_cons. cbn [snd].
    destruct (decide (false = true)); [discriminate|exact IH]. }
  assert (Hexists : existsb snd ((fun f : Fixture => (f, false)) <$> l) = false).
  { clear. induction l as [|f l IH]; [reflexivity|exact IH]. }
  rewrite Hfilter, Hexists. cbn [fmap list_fmap Eff.ret app].
  f_equal. f_equal. rewrite <- list_fmap_compose. apply list_fmap_id.
Qed.

(** *** The sorted keys *)

Lemma insert_sorted_length k l : length (insert_sorted k l) = S (length l).
Proof.
  induction l as [|k' l IH]; [reflexivity|].
  cbn [insert_sorted]. destruct (String.leb k k'); cbn [length]; [reflexivity|].
  rewrite IH. reflexivity.
Qed.

Lemma sort_length l : length (sort l) = length l.
Proof.
  induction l as [|k l IH]; [reflexivity|].
  unfold sort in *. cbn [foldr]. rewrite insert_sorted_length, IH. reflexivity.
Qed.

Lemma indexOf_lt a x i : indexOf a x = Some i -> (i < length a)%nat.
Proof.
  unfold indexOf. destruct (list_find _ a) as [[j y]|] eqn:Hfind; [|discriminate].
  intros [= <-]. apply list_find_Some in Hfind as (Hy & _).
  exact (lookup_lt_Some _ _ _ Hy).
Qed.

(** *** Creation from a profile *)

(** The channels [createFromProfile] generates at start address [a]. *)
Definition block (p : FixtureProfile) (a : Z) : list FixtureChannel :=
  imap (fun index key => mkFixtureChannel (label_of p key) (a + Z.of_nat index))
       (sort (fst <$> profile_channels p)).

Lemma block_length p a : length (block p a) = length (profile_channels p).
Proof. unfold block. rewrite length_imap, sort_length, length_fmap. reflexivity. Qed.

Lemma block_addresses p a :
  dmxChannel <$> block p a = (fun i => a + Z.of_nat i) <$> seq 0 (length (profile_channels p)).
Proof.
  unfold block.
  assert (Hlen : length (profile_channels p) = length (sort (fst <$> profile_channels p)))
    by (rewrite sort_length, length_fmap; reflexivity).
  rewrite Hlen. clear Hlen.
  generalize (sort (fst <$> profile_channels p)) as keys. intros keys.
  apply list_eq. intros i. rewrite !list_lookup_fmap, list_lookup_imap.
  destruct (keys !! i) as [key|] eqn:Hkey; cbn.
  - rewrite lookup_seq_lt by exact (lookup_lt_Some _ _ _ Hkey). reflexivity.
  - rewrite lookup_seq_ge by (apply lookup_ge_None; exact Hkey). reflexivity.
Qed.

Lemma block_lookup p a i :
  (i < length (profile_channels p))%nat ->
  dmxChannel <$> block p a !! i = Some (a + Z.of_nat i).
Proof.
  intros Hi. rewrite <- list_lookup_fmap, block_addresses, list_lookup_fmap.
  rewrite lookup_seq_lt by exact Hi. reflexivity.
Qed.

Lemma block_NoDup p a : NoDup (dmxChannel <$> block p a).
Proof.
  rewrite block_addresses. apply NoDup_fmap_2; [|apply NoDup_seq].
  intros i j Hij. lia.
Qed.

Lemma createFromProfile_run name_ profileId a uuid now1 now2 m p :
  Eff.value (getBundledProfile profileId m) = Some p ->
  1 <= a -> a + channelCount p - 1 <= 512 ->
  let f := mkFixture uuid name_ (fixture p) (Some rgb) (block p a) now1 now2
             (Some p) (Some a) (mode_name <$> head (modes p)) None None in
  createFromProfile name_ profileId a uuid now1 now2 m
  = (Ok f, mk (fixtures_of m ++ [f]) (bundledProfiles m),
     (Manager <$> Eff.trace (getAll m))
     ++ [LogInfoCreatedFromProfile name_ uuid (fixture p) a (channelCount p)]).
Proof.
  intros Hfound Hlow Hhigh. cbv zeta.
  unfold createFromProfile, getBundledProfile, mbind, M_bind, Eff.bind in *.
  change (Eff.get m) with (m, m, @nil event) in *. cbv beta iota zeta in *.
  cbn [Eff.ret Eff.value fst] in Hfound. rewrite Hfound. unfold Eff.ret at 1.
  cbv beta iota zeta.
  rewrite bool_decide_eq_false_2, bool_decide_eq_false_2 by lia. cbn [orb].
  rewrite (manager_run getAll m), getAll_value. cbv beta iota zeta.
  unfold set_fixtures, mbind, M_bind, Eff.bind, Eff.get, Eff.put, Eff.emit, Eff.ret.
  cbv beta iota zeta. rewrite getAll_bundled, !app_nil_r. fold (block p a).
  destruct (modes p); reflexivity.
Qed.

(** *** The order of the channel keys *)

(** A string of ASCII characters: on these the order of the bytes, which
    [String.leb] compares, is the order of the UTF-16 code units, which
    [sort()] compares. *)
Definition ascii_only (s : string) : Prop :=
  Forall (fun c => (Ascii.nat_of_ascii c < 128)%nat) (String.list_ascii_of_string s).

(** Ascending order: an earlier entry is at most a later one. *)
Definition ascending (l : list string) : Prop :=
  forall i j k1 k2, (i < j)%nat -> l !! i = Some k1 -> l !! j = Some k2 ->
                    String.leb k1 k2 = true.

Lemma ascii_compare_trans a b c :
  Ascii.compare a b = Lt -> Ascii.compare b c = Lt -> Ascii.compare a c = Lt.
Proof.
  unfold Ascii.compare. rewrite !N.compare_lt_iff. lia.
Qed.

Lemma leb_compare s1 s2 : String.leb s1 s2 = true <-> String.compare s1 s2 <> Gt.
Proof.
  unfold String.leb. destruct (String.compare s1 s2); split; congruence.
Qed.

Lemma compare_trans s1 : forall s2 s3,
  String.compare s1 s2 <> Gt -> String.compare s2 s3 <> Gt -> String.compare s1 s3 <> Gt.
Proof.
  induction s1 as [|a s1 IH]; intros [|b s2] [|c s3]; cbn; try congruence.
  destruct (Ascii.compare a b) eqn:Hab; [| |congruence].
  - apply Ascii.compare_eq_iff in Hab. subst b.
    destruct (Ascii.compare a c); [apply IH|congruence|congruence].
  - intros _. destruct (Ascii.compare b c) eqn:Hbc; [| |congruence].
    + apply Ascii.compare_eq_iff in Hbc. subst c. rewrite Hab. congruence.
    + rewrite (ascii_compare_trans _ _ _ Hab Hbc). congruence.
Qed.

Lemma leb_trans s1 s2 s3 :
  String.leb s1 s2 = true -> String.leb s2 s3 = true -> String.leb s1 s3 = true.
Proof. rewrite !leb_compare. apply compare_trans. Qed.

Lemma insert_sorted_perm k l : insert_sorted k l ≡ₚ k :: l.
Proof.
  induction l as [|k' l IH]; [reflexivity|].
  cbn [insert_sorted]. destruct (String.leb k k'); [reflexivity|].
  rewrite IH. apply Permutation_swap.
Qed.

Lemma sort_perm l : sort l ≡ₚ l.
Proof.
  induction l as [|k l IH]; [reflexivity|].
  unfold sort in *. cbn [foldr]. rewrite insert_sorted_perm, IH. reflexivity.
Qed.

Lemma ascending_cons k l :
  Forall (fun k' => String.leb k k' = true) l -> ascending l -> ascending (k :: l).
Proof.
  intros Hk Hl [|i] [|j] k1 k2 Hij H1 H2; try lia; cbn in H1, H2.
  - injection H1 as <-. exact (proj1 (Forall_lookup _ _) Hk j k2 H2).
  - apply (Hl i j); [lia|exact H1|exact H2].
Qed.

Lemma ascending_inv k l :
  ascending (k :: l) -> Forall (fun k' => String.leb k k' = true) l /\ ascending l.
Proof.
  intros H. split.
  - apply Forall_lookup. intros j k2 H2. apply (H 0%nat (S j)); [lia|reflexivity|exact H2].
  - intros i j k1 k2 Hij H1 H2. apply (H (S i) (S j)); [lia|exact H1|exact H2].
Qed.

Lemma insert_sorted_ascending k l : ascending l -> ascending (insert_sorted k l).
Proof.
  induction l as [|k' l IH]; intros Hl.
  - apply ascending_cons; [constructor|exact Hl].
  - cbn [insert_sorted]. destruct (ascending_inv _ _ Hl) as [Hk' Hl'].
    destruct (String.leb k k') eqn:Hleb.
    + apply ascending_cons; [|exact Hl]. constructor; [exact Hleb|].
      eapply Forall_impl; [exact Hk'|]. intros x Hx. exact (leb_trans _ _ _ Hleb Hx).
    + assert (Hge : String.leb k' k = true)
        by (destruct (String.leb_total k k') as [H|H]; [congruence|exact H]).
      apply ascending_cons; [|exact (IH Hl')].
      rewrite insert_sorted_perm. constructor; [exact Hge|exact Hk'].
Qed.

Lemma sort_ascending l : ascending (sort l).
Proof.
  induction l as [|k l IH].
  - intros i j k1 k2 _ H1. inversion H1.
  - unfold sort in *. cbn [foldr]. apply insert_sorted_ascending, IH.
Qed.

(** [profile.channels[key].label] for a key of the object. *)
Lemma label_of_member p key def :
  NoDup (fst <$> profile_channels p) -> (key, def) ∈ profile_channels p ->
  label_of p key = label def.
Proof.
  intros Hnd Hin. unfold label_of.
  apply list_elem_of_lookup in Hin as [i Hi].
  destruct (list_find (fun e => e.1 = key) (profile_channels p)) as [[j [k d]]|] eqn:Hfind.
  - apply list_find_Some in Hfind as (Hj & Hk & _). cbn in Hk. subst k. cbn.
    assert (Hij : i = j).
    { apply (NoDup_lookup _ i j key Hnd); rewrite list_lookup_fmap.
      - rewrite Hi. reflexivity.
      - rewrite Hj. reflexivity. }
    subst j. rewrite Hi in Hj. congruence.
  - exfalso. eapply list_find_None in Hfind.
    exact (proj1 (Forall_lookup _ _) Hfind i (key, def) Hi eq_refl).
Qed.

Lemma block_names p a :
  exists keys,
    keys ≡ₚ fst <$> profile_channels p /\
    (Forall ascii_only keys -> ascending keys) /\
    (NoDup (fst <$> profile_channels p) ->
     forall i key def,
       keys !! i = Some key -> (key, def) ∈ profile_channels p ->
       block p a !! i = Some (mkFixtureChannel (label def) (a + Z.of_nat i))).
Proof.
  exists (sort (fst <$> profile_channels p)).
  split; [apply sort_perm|]. split; [intros _; apply sort_ascending|].
  intros Hnd i key def Hkey Hin. unfold block. rewrite list_lookup_imap, Hkey. cbn.
  rewrite (label_of_member p key def Hnd Hin). reflexivity.
Qed.
(** X20.  [createFromProfile] throws, and stores nothing, for a profile
    identifier that is not bundled and for a start address below 1 or
    whose block of [channelCount] channels would end above 512.
    Otherwise it appends a fixture that carries the profile, the start
    address and the name of the first mode of the profile, with one
    channel per channel key of the profile at the consecutive addresses
    start, start + 1, ...: the addresses are distinct and, when
    [channelCount] is the number of channel keys, within 1..512.  The
    channels follow the keys in ascending order (stated for keys of ASCII
    characters): channel number i is named by the label of key number i
    of that order. *)
Theorem createFromProfile_lays_out_a_block (name_ profileId : string) (a : Z)
    (uuid now1 now2 : string) (m : FixtureManager.t) :
  let r := createFromProfile name_ profileId a uuid now1 now2 m in
  let found := Eff.value (getBundledProfile profileId m) in
  (found = None -> r = (Throw ("Bundled profile not found: " +:+ profileId), m, [])) /\
  (forall p,
     found = Some p ->
     (a < 1 \/ 512 < a + channelCount p - 1 -> exists message, r = (Throw message, m, [])) /\
     (1 <= a -> a + channelCount p - 1 <= 512 ->
      exists f,
        Eff.value r = Ok f /\
        store_fixtures (Eff.state r) = Eff.value (getAll m) ++ [f] /\
        id f = uuid /\ name f = name_ /\ type f = fixture p /\
        profile f = Some p /\ startAddress f = Some a /\
        activeMode f = mode_name <$> head (modes p) /\
        length (channels f) = length (profile_channels p) /\
        (forall i, (i < length (profile_channels p))%nat ->
           dmxChannel <$> channels f !! i = Some (a + Z.of_nat i)) /\
        NoDup (dmxChannel <$> channels f) /\
        (channelCount p = Z.of_nat (length (profile_channels p)) ->
         Forall (fun c => 1 <= dmxChannel c <= 512) (channels f)) /\
        exists keys,
          keys ≡ₚ fst <$> profile_channels p /\
          (Forall ascii_only keys -> ascending keys) /\
          (NoDup (fst <$> profile_channels p) ->
           forall i key def,
             keys !! i = Some key -> (key, def) ∈ profile_channels p ->
             channels f !! i = Some (mkFixtureChannel (label def) (a + Z.of_nat i))))).
Proof.
  cbv zeta. split.
  - intros Hfound.
    unfold createFromProfile, getBundledProfile, mbind, M_bind, Eff.bind in *.
    change (Eff.get m) with (m, m, @nil event) in *. cbv beta iota zeta in *.
    cbn [Eff.ret Eff.value fst] in Hfound. rewrite Hfound. reflexivity.
  - intros p Hfound. split.
    + intros Hbad. eexists.
      unfold createFromProfile, getBundledProfile, mbind, M_bind, Eff.bind in *.
      change (Eff.get m) with (m, m, @nil event) in *. cbv beta iota zeta in *.
      cbn [Eff.ret Eff.value fst] in Hfound. rewrite Hfound. unfold Eff.ret at 1.
      cbv beta iota zeta.
      destruct Hbad as [Hlow|Hhigh].
      * rewrite (bool_decide_eq_true_2 (a < 1)) by exact Hlow. reflexivity.
      * rewrite (bool_decide_eq_true_2 (a + channelCount p - 1 > 512)) by lia.
        rewrite orb_true_r. reflexivity.
    + intros Hlow Hhigh.
      rewrite (createFromProfile_run _ _ _ _ _ _ _ _ Hfound Hlow Hhigh). cbv zeta.
      eexists. split; [reflexivity|].
      cbn [Eff.state Eff.value fst snd store_fixtures id name type profile startAddress
           activeMode channels].
      split; [rewrite getAll_value; reflexivity|].
      do 6 (split; [reflexivity|]).
      split; [apply block_length|]. split; [intros i Hi; apply block_lookup, Hi|].
      split; [apply block_NoDup|]. split; [|apply block_names].
      intros Hcount. apply Forall_forall. intros c Hc.
      apply list_elem_of_lookup in Hc as [i Hi].
      pose proof (lookup_lt_Some _ _ _ Hi) as Hlt. rewrite block_length in Hlt.
      pose proof (block_lookup p a i Hlt) as Hblock. rewrite Hi in Hblock.
      injection Hblock as ->. lia.
Qed.

Definition par_bundle : list (string * FixtureProfile) :=
  [("par", par_with_mode_channel)].

Lemma createFromProfile_lays_out_a_block_witness :
  let r := createFromProfile "Left" "par" 10 "f9" "t1" "t1" (mk [] par_bundle) in
  exists f,
    Eff.value r = Ok f /\
    store_fixtures (Eff.state r) = Eff.value (getAll (mk [] par_bundle)) ++ [f] /\
    id f = "f9" /\ name f = "Left" /\ type f = fixture par_with_mode_channel /\
    profile f = Some par_with_mode_channel /\ startAddress f = Some 10 /\
    activeMode f = mode_name <$> head (modes par_with_mode_channel) /\
    length (channels f) = length (profile_channels par_with_mode_channel) /\
    (forall i, (i < length (profile_channels par_with_mode_channel))%nat ->
       dmxChannel <$> channels f !! i = Some (10 + Z.of_nat i)) /\
    NoDup (dmxChannel <$> channels f) /\
    (channelCount par_with_mode_channel
     = Z.of_nat (length (profile_channels par_with_mode_channel)) ->
     Forall (fun c => 1 <= dmxChannel c <= 512) (channels f)) /\
    exists keys,
      keys ≡ₚ fst <$> profile_channels par_with_mode_channel /\
      (Forall ascii_only keys -> ascending keys) /\
      (NoDup (fst <$> profile_channels par_with_mode_channel) ->
       forall i key def,
         keys !! i = Some key -> (key, def) ∈ profile_channels par_with_mode_channel ->
         channels f !! i = Some (mkFixtureChannel (label def) (10 + Z.of_nat i))).
Proof.
  apply (proj2 (proj2 (createFromProfile_lays_out_a_block "Left" "par" 10 "f9" "t1" "t1"
                         (mk [] par_bundle))
                  par_with_mode_channel eq_refl)).
  - lia.
  - cbn. lia.
Defined.

(** *** Mode writes of a fixture created from a profile *)

Lemma createFromProfile_Ok name_ profileId a uuid now1 now2 m f :
  Eff.value (createFromProfile name_ profileId a uuid now1 now2 m) = Ok f ->
  exists p, Eff.value (getBundledProfile profileId m) = Some p /\
            1 <= a /\ a + channelCount p - 1 <= 512.
Proof.
  unfold createFromProfile, getBundledProfile, mbind, M_bind, Eff.bind.
  change (Eff.get m) with (m, m, @nil event). cbv beta iota zeta.
  cbn [Eff.ret Eff.value fst].
  destruct (_ <$> list_find _ (bundledProfiles m)) as [p|]; [|discriminate].
  unfold Eff.ret at 1. cbv beta iota zeta.
  destruct (decide (a < 1)) as [Hlow|Hlow].
  { rewrite (bool_decide_eq_true_2 _ Hlow). discriminate. }
  destruct (decide (a + channelCount p - 1 > 512)) as [Hhigh|Hhigh].
  { rewrite (bool_decide_eq_true_2 _ Hhigh), orb_true_r. discriminate. }
  intros _. exists p. split; [reflexivity|lia].
Qed.

(** With distinct names among the bundled profiles, the profile found by
    its identifier is the one found by its name, if any is. *)
Lemma bundled_by_name m profileId p m' :
  NoDup ((fun e => fixture e.2) <$> bundledProfiles m) ->
  Eff.value (getBundledProfile profileId m) = Some p ->
  bundledProfiles m' = bundledProfiles m ->
  findBundledProfileByFixtureName m' (fixture p) = Some p \/
  findBundledProfileByFixtureName m' (fixture p) = None.
Proof.
  intros Hnd Hfound Hm'. unfold findBundledProfileByFixtureName. rewrite Hm'.
  destruct (decide (fixture p = "")); [right; reflexivity|].
  unfold getBundledProfile, mbind, M_bind, Eff.bind in Hfound. cbn in Hfound.
  destruct (list_find (fun e => e.1 = profileId) (bundledProfiles m))
    as [[i [pid q]]|] eqn:Hid; [|discriminate].
  cbn in Hfound. injection Hfound as ->.
  apply list_find_Some in Hid as (Hi & _ & _).
  destruct (list_find (fun e => fixture e.2 = fixture p) (bundledProfiles m))
    as [[j [k bp]]|] eqn:Hname.
  - left. cbn. f_equal.
    apply list_find_Some in Hname as (Hj & Hfix & _). cbn in Hfix.
    assert (Hij : i = j).
    { apply (NoDup_lookup _ i j (fixture p) Hnd); rewrite list_lookup_fmap.
      - rewrite Hi. reflexivity.
      - rewrite Hj. cbn. f_equal. exact Hfix. }
    subst j. rewrite Hi in Hj. congruence.
  - right. reflexivity.
Qed.

Lemma created_normalized m profileId p name_ a uuid now1 now2 :
  NoDup ((fun e => fixture e.2) <$> bundledProfiles m) ->
  Eff.value (getBundledProfile profileId m) = Some p ->
  normalized (bundledProfiles m)
    (mkFixture uuid name_ (fixture p) (Some rgb) (block p a) now1 now2
       (Some p) (Some a) (mode_name <$> head (modes p)) None None).
Proof.
  intros Hnd Hfound m' Hm'. unfold normalize. cbn.
  assert (Hname : or_string (fixture p) (fixture p) = fixture p)
    by (unfold or_string; destruct (decide (fixture p = "")); reflexivity).
  rewrite Hname.
  destruct (bundled_by_name m profileId p m' Hnd Hfound Hm') as [-> | ->]; [|reflexivity].
  destruct (decide (p = p)); [reflexivity|congruence].
Qed.

Lemma default_writes_in_block a keys defaults :
  Forall (fun w => exists i, (i < length keys)%nat /\ channel w = a + Z.of_nat i)
         (default_writes a keys defaults).
Proof.
  unfold default_writes. induction defaults as [|[chKey val] defaults IH]; [constructor|].
  cbn [omap list_omap]. destruct (indexOf keys chKey) as [i|] eqn:Hi; cbn; [|exact IH].
  constructor; [|exact IH]. exists i. split; [exact (indexOf_lt _ _ _ Hi)|reflexivity].
Qed.

(** X21.  The mode writes of a fixture created from a profile stay inside
    its block of addresses.  When the new identifier is fresh and the
    bundled profiles have distinct names, every write [setActiveMode]
    returns for the created fixture, for whatever mode, addresses one of
    the channels [createFromProfile] gave it. *)
Theorem mode_writes_stay_in_the_block (name_ profileId : string) (a : Z)
    (uuid now1 now2 modeName now : string) (m : FixtureManager.t)
    (f : Fixture) (writes : list write) :
  Forall (fun g => id g <> uuid) (Eff.value (getAll m)) ->
  NoDup ((fun e => fixture e.2) <$> bundledProfiles m) ->
  let created := createFromProfile name_ profileId a uuid now1 now2 m in
  Eff.value created = Ok f ->
  Eff.value (setActiveMode uuid modeName now (Eff.state created)) = Ok writes ->
  Forall (fun w => channel w ∈ dmxChannel <$> channels f) writes.
Proof.
  intros Hfresh Hnd. cbv zeta. intros Hcreated.
  destruct (createFromProfile_Ok _ _ _ _ _ _ _ _ Hcreated) as (p & Hfound & Hlow & Hhigh).
  rewrite (createFromProfile_run _ _ _ _ _ _ _ _ Hfound Hlow Hhigh) in Hcreated |- *.
  cbv zeta in Hcreated |- *. cbn [Eff.value Eff.state fst snd] in Hcreated |- *.
  injection Hcreated as <-.
  set (f := mkFixture uuid name_ (fixture p) (Some rgb) (block p a) now1 now2
              (Some p) (Some a) (mode_name <$> head (modes p)) None None).
  set (m' := mk (fixtures_of m ++ [f]) (bundledProfiles m)).
  rewrite getAll_value in Hfresh.
  assert (Hfix : fixtures_of m' = fixtures_of m ++ [f]).
  { apply fixtures_of_fixpoint, Forall_app. split; [apply fixtures_of_normalized|].
    repeat constructor. exact (created_normalized m profileId p name_ a uuid now1 now2 Hnd Hfound). }
  assert (Hfind : list_find (fun g => id g = uuid) (fixtures_of m')
                  = Some (length (fixtures_of m), f)).
  { rewrite Hfix. apply list_find_Some. split; [|split].
    - rewrite lookup_app_r, Nat.sub_diag by lia. reflexivity.
    - reflexivity.
    - intros j g Hg Hj. rewrite lookup_app_l in Hg by exact Hj.
      exact (proj1 (Forall_forall _ _) Hfresh g (list_elem_of_lookup_2 _ _ _ Hg)). }
  destruct (list_find (fun md => mode_name md = modeName) (modes p)) as [[j mode]|] eqn:Hmode.
  - destruct (mode_select p f) as [[a' i]|] eqn:Hsel.
    + destruct (setActiveMode_success m' uuid modeName now _ f p j mode a' i Hfind eq_refl
                  Hmode Hsel) as [Hval _].
      rewrite Hval. intros [= <-].
      apply mode_select_Some in Hsel as (key & _ & _ & Hi & Ha & _).
      cbn in Ha. injection Ha as <-.
      assert (Hin : forall i, (i < length (sort (fst <$> profile_channels p)))%nat ->
                              a + Z.of_nat i ∈ dmxChannel <$> channels f).
      { intros i' Hi'. rewrite sort_length, length_fmap in Hi'.
        pose proof (block_lookup p a i' Hi') as Hb. rewrite <- list_lookup_fmap in Hb.
        exact (list_elem_of_lookup_2 _ _ _ Hb). }
      constructor.
      * apply Hin. exact (indexOf_lt _ _ _ Hi).
      * eapply Forall_impl; [apply default_writes_in_block|].
        intros w (i' & Hi' & ->). apply Hin, Hi'.
    + destruct (setActiveMode_no_mode_select m' uuid modeName now _ f p j mode Hfind eq_refl
                  Hmode Hsel) as [Hval _].
      rewrite Hval. intros [= <-]. constructor.
  - destruct (setActiveMode_unknown_mode m' uuid modeName now _ f p Hfind eq_refl Hmode)
      as [Hval _].
    rewrite Hval. discriminate.
Qed.

Lemma mode_writes_stay_in_the_block_witness :
  exists f writes,
    let created := createFromProfile "Left" "par" 10 "f9" "t1" "t1" (mk [] par_bundle) in
    Eff.value created = Ok f /\
    Eff.value (setActiveMode "f9" "Strobe" "t2" (Eff.state created)) = Ok writes /\
    writes = [mkWrite 11 128; mkWrite 13 50] /\
    Forall (fun w => channel w ∈ dmxChannel <$> channels f) writes.
Proof.
  eexists. eexists. cbv zeta.
  split; [reflexivity|]. split; [reflexivity|]. split; [reflexivity|].
  apply (mode_writes_stay_in_the_block "Left" "par" 10 "f9" "t1" "t1" "Strobe" "t2"
           (mk [] par_bundle)).
  - constructor.
  - repeat constructor. intros H. inversion H.
  - reflexivity.
  - reflexivity.
Defined.
End FixtureLaws.

(** ** Fixtures: the channels they claim *)

Module ChannelLaws.
Import FixtureManager FixtureFacts FixtureStore StoreFacts FixtureLaws.
Local Open Scope Z_scope.

(** The claims in the order the two nested loops visit them. *)
Definition claims (fixtures : list Fixture) : list (Fixture * FixtureChannel) :=
  f ← fixtures; (fun c => (f, c)) <$> channels f.

(** The DMX channels claimed, in the same order. *)
Definition claimed (fixtures : list Fixture) : list Z :=
  f ← fixtures; dmxChannel <$> channels f.

Definition owner_of (fc : Fixture * FixtureChannel) : owner :=
  mkOwner (id fc.1) (name fc.1) (channel_name fc.2).

(** One iteration of the inner loop of [getChannelMap]. *)
Definition record_owner (map : owners) (fc : Fixture * FixtureChannel) : owners :=
  if bool_decide (map_get (dmxChannel fc.2) map = None)
  then map ++ [(dmxChannel fc.2, owner_of fc)]
  else map.

Lemma nested_loops {A} (g : Fixture -> A -> FixtureChannel -> A) fixtures acc :
  foldl (fun acc f => foldl (g f) acc (channels f)) acc fixtures
  = foldl (fun acc fc => g fc.1 acc fc.2) acc (claims fixtures).
Proof.
  revert acc. induction fixtures as [|f fixtures IH]; intros acc; [reflexivity|].
  unfold claims. cbn [foldl mbind list_bind]. rewrite foldl_app, foldl_fmap.
  rewrite IH. reflexivity.
Qed.

Lemma claimed_claims fixtures :
  claimed fixtures = (fun fc => dmxChannel fc.2) <$> claims fixtures.
Proof.
  unfold claimed, claims. induction fixtures as [|f fixtures IH]; [reflexivity|].
  cbn [mbind list_bind]. rewrite fmap_app, <- list_fmap_compose, IH. reflexivity.
Qed.

Lemma map_get_nil k : map_get k [] = None.
Proof. reflexivity. Qed.

Lemma map_get_cons k k' o (map : owners) :
  map_get k ((k', o) :: map) = if decide (k' = k) then Some o else map_get k map.
Proof.
  unfold map_get. cbn [list_find]. cbn [fst].
  destruct (decide (k' = k)); [reflexivity|].
  destruct (list_find _ map) as [[i e]|]; reflexivity.
Qed.

Lemma map_get_app k (map map' : owners) :
  map_get k (map ++ map')
  = match map_get k map with Some o => Some o | None => map_get k map' end.
Proof.
  induction map as [|[k' o] map IH]; [reflexivity|].
  cbn [app]. rewrite !map_get_cons. destruct (decide (k' = k)); [reflexivity|exact IH].
Qed.

Lemma map_get_None k (map : owners) : map_get k map = None <-> k ∉ map.*1.
Proof.
  induction map as [|[k' o] map IH].
  - split; [intros _; apply not_elem_of_nil|reflexivity].
  - rewrite map_get_cons. cbn [fmap list_fmap fst]. rewrite not_elem_of_cons.
    destruct (decide (k' = k)) as [->|Hne].
    + split; [discriminate|intros [H _]; congruence].
    + rewrite IH. split; [intros H; split; [congruence|exact H]|intros [_ H]; exact H].
Qed.

(** The map the loops build from [map]: the owners already there stay,
    a channel not yet in it gets its first claimant. *)
Lemma record_owner_get k l : forall map,
  map_get k (foldl record_owner map l)
  = match map_get k map with
    | Some o => Some o
    | None => (fun found => owner_of found.2) <$> list_find (fun fc => dmxChannel fc.2 = k) l
    end.
Proof.
  induction l as [|fc l IH]; intros map.
  - cbn [foldl list_find fmap option_fmap option_map]. destruct (map_get k map); reflexivity.
  - cbn [foldl]. rewrite IH. unfold record_owner.
    cbn [list_find].
    destruct (map_get (dmxChannel fc.2) map) as [o|] eqn:Hget.
    + rewrite bool_decide_eq_false_2 by discriminate.
      destruct (map_get k map) as [o'|] eqn:Hk; [reflexivity|].
      destruct (decide (dmxChannel fc.2 = k)) as [<-|Hne]; [congruence|].
      destruct (list_find _ l) as [[i e]|]; reflexivity.
    + rewrite bool_decide_eq_true_2 by reflexivity.
      rewrite map_get_app, map_get_cons, map_get_nil.
      destruct (map_get k map) as [o'|] eqn:Hk; [reflexivity|].
      destruct (decide (dmxChannel fc.2 = k)) as [<-|Hne]; [reflexivity|].
      destruct (list_find _ l) as [[i e]|]; reflexivity.
Qed.

Lemma record_owner_NoDup l : forall map,
  NoDup map.*1 -> NoDup (foldl record_owner map l).*1.
Proof.
  induction l as [|fc l IH]; intros map Hnd; [exact Hnd|].
  cbn [foldl]. apply IH. unfold record_owner.
  destruct (map_get (dmxChannel fc.2) map) as [o|] eqn:Hget.
  - rewrite bool_decide_eq_false_2 by discriminate. exact Hnd.
  - rewrite bool_decide_eq_true_2 by reflexivity.
    rewrite fmap_app. apply NoDup_app. split; [exact Hnd|]. split.
    + intros k Hk Hk'. cbn in Hk'. apply list_elem_of_singleton in Hk'. subst k.
      apply map_get_None in Hget. contradiction.
    + cbn. apply NoDup_singleton.
Qed.

Lemma record_owner_keys l k : forall map,
  k ∈ (foldl record_owner map l).*1 <->
  k ∈ map.*1 \/ k ∈ (fun fc => dmxChannel fc.2) <$> l.
Proof.
  induction l as [|fc l IH]; intros map.
  - cbn. split; [left; assumption|]. intros [H|H]; [exact H|]. inversion H.
  - cbn [foldl]. rewrite IH. cbn [fmap list_fmap]. rewrite elem_of_cons.
    unfold record_owner.
    destruct (map_get (dmxChannel fc.2) map) as [o|] eqn:Hget.
    + rewrite bool_decide_eq_false_2 by discriminate.
      assert (Hin : dmxChannel fc.2 ∈ map.*1).
      { destruct (decide (dmxChannel fc.2 ∈ map.*1)) as [H|H]; [exact H|].
        apply map_get_None in H. congruence. }
      split; [intros [H|H]; [left|right; right]; exact H|].
      intros [H|[->|H]]; [left; exact H|left; exact Hin|right; exact H].
    + rewrite bool_decide_eq_true_2 by reflexivity.
      rewrite fmap_app, elem_of_app. cbn. rewrite list_elem_of_singleton.
      split; [intros [[H|H]|H]|intros [H|[H|H]]]; auto.
Qed.

(** The owners [validateChannelConflicts] collects are those of
    [getChannelMap]; every claim adds an owner or a conflict. *)
Lemma claim_loop l : forall channelOwners conflicts,
  let r := foldl (fun acc fc => claim fc.1 acc fc.2) (channelOwners, conflicts) l in
  r.1 = foldl record_owner channelOwners l /\
  (length r.2 + length r.1 = length conflicts + length channelOwners + length l)%nat.
Proof.
  induction l as [|fc l IH]; intros channelOwners conflicts; cbv zeta.
  - cbn. split; [reflexivity|lia].
  - cbn [foldl]. unfold claim at 2 4 6, record_owner at 2. cbn [length].
    destruct (map_get (dmxChannel fc.2) channelOwners) as [o|] eqn:Hget.
    + rewrite bool_decide_eq_false_2 by discriminate.
      destruct (IH channelOwners (conflicts ++ [conflict_message fc.1 fc.2 o])) as [H1 H2].
      cbv zeta in H1, H2. split; [exact H1|]. etransitivity; [exact H2|]. rewrite length_app. cbn. lia.
    + rewrite bool_decide_eq_true_2 by reflexivity.
      destruct (IH (channelOwners ++ [(dmxChannel fc.2, mkOwner (id fc.1) (name fc.1)
                                          (channel_name fc.2))]) conflicts) as [H1 H2].
      cbv zeta in H1, H2. split; [exact H1|]. etransitivity; [exact H2|]. rewrite length_app. cbn. lia.
Qed.

Lemma remove_dups_length_le (l : list Z) : (length (remove_dups l) <= length l)%nat.
Proof.
  induction l as [|x l IH]; [reflexivity|].
  cbn [remove_dups length]. destruct (decide_rel elem_of x l); cbn [length]; lia.
Qed.

Lemma remove_dups_length_eq (l : list Z) :
  length (remove_dups l) = length l <-> NoDup l.
Proof.
  split.
  - induction l as [|x l IH]; [constructor|].
    cbn [remove_dups length]. pose proof (remove_dups_length_le l) as Hle.
    destruct (decide_rel elem_of x l) as [Hin|Hin]; [lia|].
    cbn [length]. intros [= Heq]. constructor; [exact Hin|exact (IH Heq)].
  - induction 1 as [|x l Hin Hnd IH]; [reflexivity|].
    cbn [remove_dups length]. destruct (decide_rel elem_of x l); [contradiction|].
    cbn [length]. rewrite IH. reflexivity.
Qed.

Lemma owners_distinct_channels fixtures :
  length (foldl record_owner [] (claims fixtures)) = length (remove_dups (claimed fixtures)).
Proof.
  rewrite <- (length_fmap fst (foldl record_owner [] (claims fixtures))).
  apply Permutation_length.
  apply NoDup_Permutation.
  - apply record_owner_NoDup. constructor.
  - apply NoDup_remove_dups.
  - intros k. rewrite record_owner_keys, elem_of_remove_dups, claimed_claims.
    split; [intros [H|H]; [inversion H|exact H]|right; assumption].
Qed.

Lemma validateChannelConflicts_value m :
  Eff.value (validateChannelConflicts m)
  = (foldl (fun acc fc => claim fc.1 acc fc.2) ([], []) (claims (fixtures_of m))).2.
Proof.
  unfold validateChannelConflicts, mbind, M_bind, Eff.bind.
  rewrite manager_run, getAll_value. cbv beta iota zeta.
  rewrite (nested_loops (fun f acc c => claim f acc c)).
  destruct (foldl _ _ (claims (fixtures_of m))) as [channelOwners conflicts_].
  destruct (bool_decide _); reflexivity.
Qed.

Lemma conflicts_sum m :
  (length (Eff.value (validateChannelConflicts m))
   + length (remove_dups (claimed (fixtures_of m))) = length (claimed (fixtures_of m)))%nat.
Proof.
  rewrite validateChannelConflicts_value.
  destruct (claim_loop (claims (fixtures_of m)) [] []) as [H1 H2]. cbv zeta in H1, H2.
  rewrite H1, owners_distinct_channels in H2. cbn [length] in H2.
  assert (Hlen : length (claims (fixtures_of m)) = length (claimed (fixtures_of m)))
    by (rewrite claimed_claims, length_fmap; reflexivity).
  rewrite Hlen in H2. exact H2.
Qed.

Lemma conflicts_nil m :
  Eff.value (validateChannelConflicts m) = [] <-> NoDup (claimed (fixtures_of m)).
Proof.
  pose proof (conflicts_sum m) as Hsum. rewrite <- remove_dups_length_eq.
  destruct (Eff.value (validateChannelConflicts m)) as [|message r]; cbn [length] in Hsum.
  - split; [intros _; exact Hsum|reflexivity].
  - split; [discriminate|lia].
Qed.

(** X22.  [validateChannelConflicts] reports one conflict for every claim
    of a DMX channel that an earlier claim already holds: the number of
    conflicts plus the number of distinct channels claimed is the number
    of claims, and the result is empty exactly when the claimed channels
    are all distinct.  A fixture that names one channel twice conflicts
    with itself. *)
Theorem validateChannelConflicts_counts_repeated_claims (m : FixtureManager.t) :
  let claimed_ := claimed (Eff.value (getAll m)) in
  let conflicts_ := Eff.value (validateChannelConflicts m) in
  (length conflicts_ + length (remove_dups claimed_) = length claimed_)%nat /\
  (conflicts_ = [] <-> NoDup claimed_).
Proof.
  cbv zeta. rewrite getAll_value. split; [apply conflicts_sum|apply conflicts_nil].
Qed.

Lemma getChannelMap_value m :
  Eff.value (getChannelMap m) = foldl record_owner [] (claims (fixtures_of m)).
Proof.
  unfold getChannelMap, mbind, M_bind, Eff.bind.
  rewrite manager_run, getAll_value. cbv beta iota zeta. cbn [Eff.ret Eff.value fst].
  exact (nested_loops (fun f map c => record_owner map (f, c)) (fixtures_of m) []).
Qed.

(** X23.  [getChannelMap] has one entry for each DMX channel some fixture
    claims, and none for any other channel; the entry names the first
    claimant in the order of the fixtures and of their channels. *)
Theorem getChannelMap_names_the_first_claimant (m : FixtureManager.t) :
  let map := Eff.value (getChannelMap m) in
  NoDup map.*1 /\
  forall k : Z,
    map_get k map
    = (fun found => owner_of found.2)
        <$> list_find (fun fc => dmxChannel fc.2 = k) (claims (Eff.value (getAll m))).
Proof.
  cbv zeta. rewrite getChannelMap_value, getAll_value. split.
  - apply record_owner_NoDup. constructor.
  - intros k. rewrite record_owner_get. reflexivity.
Qed.
End ChannelLaws.

(** ** Fixtures: import and export *)

Module ImportLaws.
Import FixtureManager FixtureFacts FixtureStore StoreFacts FixtureLaws ChannelLaws.
Local Open Scope Z_scope.

(** *** What [getAll] keeps of a fixture *)

Lemma normalize_id m f : id (normalize m f).1 = id f.
Proof.
  unfold normalize. cbn. destruct (profile f) as [stored|]; [|reflexivity].
  destruct (findBundledProfileByFixtureName _ _) as [bp|]; [|reflexivity].
  destruct (decide (stored = bp)); reflexivity.
Qed.

Lemma normalize_channels m f : channels (normalize m f).1 = channels f.
Proof.
  unfold normalize. cbn. destruct (profile f) as [stored|]; [|reflexivity].
  destruct (findBundledProfileByFixtureName _ _) as [bp|]; [|reflexivity].
  destruct (decide (stored = bp)); reflexivity.
Qed.

Lemma fixtures_of_ids m : id <$> fixtures_of m = id <$> store_fixtures m.
Proof.
  unfold fixtures_of. rewrite <- !list_fmap_compose. apply list_fmap_ext.
  intros _ f _. apply normalize_id.
Qed.

Lemma fixtures_of_claimed m : claimed (fixtures_of m) = claimed (store_fixtures m).
Proof.
  unfold claimed, fixtures_of. rewrite <- list_fmap_compose.
  induction (store_fixtures m) as [|f l IH]; [reflexivity|].
  cbn [fmap list_fmap mbind list_bind compose]. rewrite normalize_channels. f_equal. exact IH.
Qed.

(** A second [getAll] returns what the first returned. *)
Lemma getAll_again m : fixtures_of (Eff.state (getAll m)) = fixtures_of m.
Proof.
  pose proof (getAll_bundled m) as Hb.
  destruct (Eff.state (getAll m)) as [l bundled] eqn:Hstate. cbn in Hb. subst bundled.
  destruct (getAll_store m) as [Hs|Hs]; rewrite Hstate in Hs; cbn in Hs; subst l.
  - unfold fixtures_of. cbn [store_fixtures].
    apply (f_equal (fmap fst)), list_fmap_ext.
    intros _ f _. apply normalize_bundled. reflexivity.
  - apply fixtures_of_fixpoint, fixtures_of_normalized.
Qed.

(** *** The merge loop *)

Lemma merge_loop l : forall s,
  let s' := foldl merge_step s l in
  exists accepted,
    accepted `sublist_of` l /\
    existing s' = existing s ++ accepted /\
    existingIds s' = existingIds s ++ (id <$> accepted) /\
    existingChannels s' = existingChannels s ++ claimed accepted /\
    merge_added s' = (merge_added s + length accepted)%nat /\
    (merge_skipped s' + length accepted = merge_skipped s + length l)%nat /\
    (length (merge_conflicts s') + length accepted
     = length (merge_conflicts s) + length l)%nat.
Proof.
  induction l as [|f l IH]; intros s; cbv zeta.
  - exists []. cbn. rewrite !app_nil_r. repeat split; try lia. constructor.
  - cbn [foldl]. destruct (IH (merge_step s f)) as (acc & Hsub & He & Hi & Hc & Ha & Hs & Hm).
    cbv zeta in He, Hi, Hc, Ha, Hs, Hm. revert He Hi Hc Ha Hs Hm.
    generalize (foldl merge_step (merge_step s f) l). intros s'.
    unfold merge_step.
    destruct (bool_decide (id f ∈ existingIds s)).
    + cbn. rewrite length_app. cbn. intros. exists acc.
      repeat split; try assumption; try lia. apply sublist_cons, Hsub.
    + destruct (bool_decide (0 < length _)%nat).
      * cbn. rewrite length_app. cbn. intros. exists acc.
        repeat split; try assumption; try lia. apply sublist_cons, Hsub.
      * cbn. rewrite <- !app_assoc. intros. exists (f :: acc).
        repeat split; try assumption; try (cbn; lia). apply sublist_skip, Hsub.
Qed.

Lemma merge_loop_ids l : forall s,
  NoDup (existingIds s) -> NoDup (existingIds (foldl merge_step s l)).
Proof.
  induction l as [|f l IH]; intros s Hnd; [exact Hnd|].
  cbn [foldl]. apply IH. unfold merge_step.
  destruct (bool_decide (id f ∈ existingIds s)) eqn:Hid; [exact Hnd|].
  destruct (bool_decide (0 < length _)%nat); [exact Hnd|].
  cbn. apply bool_decide_eq_false in Hid.
  apply NoDup_app. split; [exact Hnd|]. split; [|apply NoDup_singleton].
  intros x Hx Hx'. apply list_elem_of_singleton in Hx'. subst x. contradiction.
Qed.

Lemma merge_loop_channels l : forall s,
  Forall (fun f => NoDup (dmxChannel <$> channels f)) l ->
  NoDup (existingChannels s) -> NoDup (existingChannels (foldl merge_step s l)).
Proof.
  induction l as [|f l IH]; intros s Hl Hnd; [exact Hnd|].
  inversion Hl as [|f' l' Hf Hl']; subst. cbn [foldl]. apply IH; [exact Hl'|].
  unfold merge_step.
  destruct (bool_decide (id f ∈ existingIds s)); [exact Hnd|].
  destruct (bool_decide (0 < length _)%nat) eqn:Hconf; [exact Hnd|].
  cbn. apply bool_decide_eq_false in Hconf.
  apply NoDup_app. split; [exact Hnd|]. split; [|exact Hf].
  intros k Hk Hk'. apply list_elem_of_fmap in Hk' as (ch & -> & Hch).
  assert (Hin : ch ∈ filter (fun ch => dmxChannel ch ∈ existingChannels s) (channels f))
    by (apply list_elem_of_filter; split; assumption).
  destruct (filter _ (channels f)); [inversion Hin|]. cbn in Hconf. lia.
Qed.

Lemma merge_loop_known l : forall s,
  Forall (fun f => id f ∈ existingIds s) l ->
  let s' := foldl merge_step s l in
  existing s' = existing s /\ merge_added s' = merge_added s /\
  merge_skipped s' = (merge_skipped s + length l)%nat /\
  length (merge_conflicts s') = (length (merge_conflicts s) + length l)%nat.
Proof.
  induction l as [|f l IH]; intros s Hl; cbv zeta.
  - cbn. repeat split; lia.
  - inversion Hl as [|f' l' Hf Hl']; subst. cbn [foldl].
    unfold merge_step at 2 4 6 8. rewrite (bool_decide_eq_true_2 _ Hf).
    match goal with |- context [foldl merge_step ?s1 l] =>
      destruct (IH s1 Hl') as (He & Ha & Hs & Hm) end.
    cbv zeta in He, Ha, Hs, Hm. rewrite He, Ha, Hs, Hm. cbn. rewrite length_app. cbn.
    repeat split; lia.
Qed.

(** *** Runs of [importConfig] *)

Lemma importConfig_unsupported config strategy m :
  version config <> 1 ->
  importConfig config strategy m
  = (Throw ("Unsupported fixture config version: " +:+ pretty (version config)), m, []).
Proof.
  intros Hv. unfold importConfig. rewrite (bool_decide_eq_true_2 _ Hv). reflexivity.
Qed.

Lemma importConfig_replace config m :
  version config = 1 ->
  importConfig config "replace" m
  = (Ok (mkImportResult (length (config_fixtures config)) 0 []),
     mk (config_fixtures config) (bundledProfiles m),
     [LogInfoReplaced (length (config_fixtures config))]).
Proof.
  intros Hv. unfold importConfig.
  rewrite bool_decide_eq_false_2 by (intros H; exact (H Hv)).
  rewrite bool_decide_eq_true_2 by reflexivity. reflexivity.
Qed.

(** The state of the merge loop at its end. *)
Definition merged (config : FixtureConfig) (m : FixtureManager.t) : merging :=
  foldl merge_step
    (mkMerging (fixtures_of m) (id <$> fixtures_of m) (claimed (fixtures_of m)) 0 0 [])
    (config_fixtures config).

Lemma importConfig_merge config strategy m :
  version config = 1 -> strategy <> "replace" ->
  let s := merged config m in
  Eff.value (importConfig config strategy m)
  = Ok (mkImportResult (merge_added s) (merge_skipped s) (merge_conflicts s)) /\
  Eff.state (importConfig config strategy m) = mk (existing s) (bundledProfiles m).
Proof.
  intros Hv Hs. unfold importConfig.
  rewrite bool_decide_eq_false_2 by (intros H; exact (H Hv)).
  rewrite (bool_decide_eq_false_2 _ Hs).
  unfold mbind, M_bind, Eff.bind. rewrite manager_run, getAll_value. cbv beta iota zeta.
  unfold set_fixtures, mbind, M_bind, Eff.bind.
  cbn [Eff.get Eff.put Eff.emit Eff.ret Eff.value Eff.state fst snd].
  rewrite getAll_bundled. split; reflexivity.
Qed.

(** X24.  [importConfig] on every input.  A version other than 1 throws
    and leaves the store alone.  'replace' stores the imported fixtures
    as they are and counts them all as added.  Any other strategy merges:
    the store becomes the fixtures [getAll] returned followed by the
    accepted ones, in the order of the file; every imported fixture is
    either added or skipped, and each skipped one has its message. *)
Theorem importConfig_accounts_for_every_fixture (config : FixtureConfig)
    (strategy : string) (m : FixtureManager.t) :
  let r := importConfig config strategy m in
  (version config <> 1 ->
   r = (Throw ("Unsupported fixture config version: " +:+ pretty (version config)), m, [])) /\
  (version config = 1 -> strategy = "replace" ->
   Eff.value r = Ok (mkImportResult (length (config_fixtures config)) 0 []) /\
   store_fixtures (Eff.state r) = config_fixtures config) /\
  (version config = 1 -> strategy <> "replace" ->
   exists accepted result_,
     Eff.value r = Ok result_ /\
     accepted `sublist_of` config_fixtures config /\
     store_fixtures (Eff.state r) = Eff.value (getAll m) ++ accepted /\
     added result_ = length accepted /\
     (added result_ + skipped result_ = length (config_fixtures config))%nat /\
     length (conflicts result_) = skipped result_).
Proof.
  cbv zeta. split; [|split].
  - apply importConfig_unsupported.
  - intros Hv ->. rewrite (importConfig_replace config m Hv). split; reflexivity.
  - intros Hv Hs. destruct (importConfig_merge config strategy m Hv Hs) as [Hval Hst].
    cbv zeta in Hval, Hst. rewrite Hval, Hst, getAll_value. unfold merged.
    destruct (merge_loop (config_fixtures config)
                (mkMerging (fixtures_of m) (id <$> fixtures_of m) (claimed (fixtures_of m))
                   0 0 [])) as (accepted & Hsub & He & _ & _ & Ha & Hsk & Hm).
    cbv zeta in He, Ha, Hsk, Hm. cbn in He, Ha, Hsk, Hm.
    exists accepted. eexists. split; [reflexivity|]. cbn.
    repeat split; try assumption; lia.
Qed.
(** A store with one fixture on channels 1 and 2, and a file with three
    fixtures: one with the identifier of the stored one, one that claims
    channel 2, and one on channel 5. *)
Definition plain (id_ name_ : string) (addresses : list Z) : Fixture :=
  mkFixture id_ name_ "generic" (Some rgb) (mkFixtureChannel "ch" <$> addresses)
    "t0" "t0" None None None None None.

Definition one_fixture : FixtureManager.t := mk [plain "a" "Key" [1; 2]] [].

Definition three_fixtures : FixtureConfig :=
  mkFixtureConfig 1 "t1" [plain "a" "Copy" [7]; plain "b" "Fill" [2; 3]; plain "c" "Back" [5]].

Lemma importConfig_accounts_for_every_fixture_witness :
  exists accepted result_,
    Eff.value (importConfig three_fixtures "merge" one_fixture) = Ok result_ /\
    accepted `sublist_of` config_fixtures three_fixtures /\
    store_fixtures (Eff.state (importConfig three_fixtures "merge" one_fixture))
    = Eff.value (getAll one_fixture) ++ accepted /\
    added result_ = length accepted /\
    (added result_ + skipped result_ = length (config_fixtures three_fixtures))%nat /\
    length (conflicts result_) = skipped result_.
Proof.
  apply (proj2 (proj2 (importConfig_accounts_for_every_fixture three_fixtures "merge"
                         one_fixture))).
  - reflexivity.
  - discriminate.
Defined.

Lemma claimed_app l1 l2 : claimed (l1 ++ l2) = claimed l1 ++ claimed l2.
Proof. unfold claimed. apply bind_app. Qed.

(** X25.  A merge never makes things worse.  If the fixtures had distinct
    identifiers before, they have after; and if no two of them claimed
    the same DMX channel before, and no imported fixture names a channel
    twice, [validateChannelConflicts] still finds nothing after. *)
Theorem merge_introduces_no_conflict (config : FixtureConfig) (strategy : string)
    (m : FixtureManager.t) :
  version config = 1 -> strategy <> "replace" ->
  Forall (fun f => NoDup (dmxChannel <$> channels f)) (config_fixtures config) ->
  let m' := Eff.state (importConfig config strategy m) in
  (NoDup (id <$> Eff.value (getAll m)) -> NoDup (id <$> Eff.value (getAll m'))) /\
  (Eff.value (validateChannelConflicts m) = [] ->
   Eff.value (validateChannelConflicts m') = []).
Proof.
  intros Hv Hs Hconfig. cbv zeta.
  destruct (importConfig_merge config strategy m Hv Hs) as [_ Hst]. cbv zeta in Hst.
  rewrite Hst, !getAll_value, !conflicts_nil.
  rewrite (fixtures_of_ids (mk _ _)), (fixtures_of_claimed (mk _ _)).
  cbn [store_fixtures]. unfold merged.
  destruct (merge_loop (config_fixtures config)
              (mkMerging (fixtures_of m) (id <$> fixtures_of m) (claimed (fixtures_of m))
                 0 0 []))
    as (accepted & _ & He & Hi & Hc & _).
  cbv zeta in He, Hi, Hc. cbn [existing existingIds existingChannels] in He, Hi, Hc.
  split.
  - intros Hnd. rewrite He, fmap_app, <- Hi. apply merge_loop_ids. exact Hnd.
  - intros Hnd. rewrite He, claimed_app, <- Hc.
    apply merge_loop_channels; [exact Hconfig|exact Hnd].
Qed.

Lemma merge_introduces_no_conflict_witness :
  let m' := Eff.state (importConfig three_fixtures "merge" one_fixture) in
  (id <$> Eff.value (getAll m')) = ["a"; "c"] /\
  (NoDup (id <$> Eff.value (getAll one_fixture)) -> NoDup (id <$> Eff.value (getAll m'))) /\
  (Eff.value (validateChannelConflicts one_fixture) = [] ->
   Eff.value (validateChannelConflicts m') = []).
Proof.
  split; [reflexivity|].
  apply (merge_introduces_no_conflict three_fixtures "merge" one_fixture).
  - reflexivity.
  - discriminate.
  - repeat constructor; cbn; intros H;
      repeat (apply elem_of_cons in H as [H|H]; [discriminate|]); inversion H.
Defined.

Lemma exportConfig_run now m :
  exportConfig now m
  = (mkFixtureConfig 1 now (fixtures_of m), Eff.state (getAll m),
     Manager <$> Eff.trace (getAll m)).
Proof.
  unfold exportConfig, mbind, M_bind, Eff.bind. rewrite manager_run, getAll_value.
  cbn. rewrite app_nil_r. reflexivity.
Qed.

(** X26.  Importing one's own export changes no fixture.  After
    [exportConfig] and [importConfig] of its result, [getAll] returns
    the fixtures it returned before, and rewrites none.  With 'replace'
    they all count as added; with a merge none is added and each is
    skipped with a message. *)
Theorem export_then_import_changes_nothing (now strategy : string)
    (m : FixtureManager.t) :
  let exported := exportConfig now m in
  let imported := importConfig (Eff.value exported) strategy (Eff.state exported) in
  let n := length (Eff.value (getAll m)) in
  getAll (Eff.state imported) = (Eff.value (getAll m), Eff.state imported, []) /\
  (strategy = "replace" -> Eff.value imported = Ok (mkImportResult n 0 [])) /\
  (strategy <> "replace" ->
   exists conflicts_,
     Eff.value imported = Ok (mkImportResult 0 n conflicts_) /\ length conflicts_ = n).
Proof.
  cbv zeta. rewrite exportConfig_run, getAll_value. cbn [Eff.value Eff.state fst snd].
  set (m1 := Eff.state (getAll m)).
  set (config := mkFixtureConfig 1 now (fixtures_of m)).
  assert (Hb : bundledProfiles m1 = bundledProfiles m) by apply getAll_bundled.
  assert (Hquiet : getAll (mk (fixtures_of m) (bundledProfiles m1))
                   = (fixtures_of m, mk (fixtures_of m) (bundledProfiles m1), [])).
  { apply getAll_quiet. rewrite Hb. apply fixtures_of_normalized. }
  destruct (decide (strategy = "replace")) as [->|Hs].
  - rewrite (importConfig_replace config m1 eq_refl). cbn [Eff.value Eff.state fst snd].
    split; [exact Hquiet|]. split; [reflexivity|]. intros H. contradiction.
  - destruct (importConfig_merge config strategy m1 eq_refl Hs) as [Hval Hst].
    cbv zeta in Hval, Hst. rewrite Hval, Hst. unfold merged.
    rewrite (getAll_again m : fixtures_of m1 = fixtures_of m).
    destruct (merge_loop_known (config_fixtures config)
                (mkMerging (fixtures_of m) (id <$> fixtures_of m) (claimed (fixtures_of m))
                   0 0 [])) as (He & Ha & Hsk & Hm).
    { cbn. apply Forall_forall. intros f Hf. apply list_elem_of_fmap.
      exists f. split; [reflexivity|exact Hf]. }
    cbv zeta in He, Ha, Hsk, Hm. rewrite He, Ha, Hsk.
    cbn [existing merge_added merge_skipped merge_conflicts config config_fixtures Nat.add
         length] in Hm |- *.
    split; [exact Hquiet|]. split; [intros H; contradiction|].
    intros _. eexists. split; [reflexivity|]. exact Hm.
Qed.
End ImportLaws.

(** ** The automation server: what its commands do to the stage *)

Module CompanionLaws.
Import JS JSFacts CompanionServer CompanionFacts IntegerFacts UniverseFacts UniverseLaws.
Local Open Scope Z_scope.

(** The universe the engine of the server was constructed on. *)
Definition universe_of (s : CompanionServer.t) : DMXUniverse.t := (engine s).1.

Definition with_universe (s : CompanionServer.t) (u : DMXUniverse.t) : CompanionServer.t :=
  CompanionServer.mk (u, (engine s).2) (presetManager s) (fixtureManager s).

Definition universe_event (e : DMXUniverse.event) : event := Engine (FadeEngine.Universe e).

Lemma server_universe_run {A} (c : DMXUniverse.M A) s :
  universe c s
  = (Eff.value (c (universe_of s)), with_universe s (Eff.state (c (universe_of s))),
     universe_event <$> Eff.trace (c (universe_of s))).
Proof.
  unfold universe, fadeEngine, FadeEngine.universe, Eff.zoom, universe_of, with_universe.
  destruct s as [[u e] p f]. cbn. destruct (c u) as [[a u1] t1]. cbn.
  rewrite <- list_fmap_compose. reflexivity.
Qed.

Lemma with_universe_same s : with_universe s (universe_of s) = s.
Proof. destruct s as [[u e] p f]. reflexivity. Qed.

(** What leaves the server: responses, broadcast events and the
    notification that a preset was recalled. *)
Definition outward (e : event) : bool :=
  match e with
  | Send _ _ | SendEvent _ _ | PresetRecalled _ _ => true
  | _ => false
  end.

Definition sent (tr : list event) : list event := List.filter outward tr.

Lemma sent_app tr1 tr2 : sent (tr1 ++ tr2) = sent tr1 ++ sent tr2.
Proof. apply List.filter_app. Qed.

Lemma sent_universe (tr : list DMXUniverse.event) : sent (universe_event <$> tr) = [].
Proof. induction tr as [|e tr IH]; [reflexivity|exact IH]. Qed.

Lemma broadcast_run clients readyStateOpen e s :
  broadcast clients readyStateOpen e s
  = (tt, s, (fun c => SendEvent c e) <$> List.filter readyStateOpen clients).
Proof.
  unfold broadcast. induction clients as [|c clients IH]; [reflexivity|].
  cbn [Eff.for_of List.filter]. unfold Eff.bind. destruct (readyStateOpen c).
  - cbn. rewrite IH. reflexivity.
  - cbn. rewrite IH. reflexivity.
Qed.

(** *** [set_channel], then [get_state] *)

Lemma handleCommand_set_channel clients readyStateOpen client command now iso :
  Command.action command = "set_channel" ->
  handleCommand clients readyStateOpen client command now iso
  = (Eff.emit (LogInfoReceived "set_channel");;
     handleSetChannel readyStateOpen client command;; Eff.ret Returned).
Proof.
  intros Ha. unfold handleCommand. rewrite Ha. reflexivity.
Qed.

Lemma handleCommand_get_state clients readyStateOpen client command now iso :
  Command.action command = "get_state" ->
  handleCommand clients readyStateOpen client command now iso
  = (Eff.emit (LogInfoReceived "get_state");;
     handleGetState readyStateOpen client;; Eff.ret Returned).
Proof.
  intros Ha. unfold handleCommand. rewrite Ha. reflexivity.
Qed.

Lemma get_state_run clients readyStateOpen client command now iso s :
  readyStateOpen client = true ->
  Command.action command = "get_state" ->
  handleCommand clients readyStateOpen client command now iso s
  = (Returned, s,
     [LogInfoReceived "get_state";
      Send client
        (Response.mk ok "get_state"
           (Some (DataState (of_Z <$> DMXUniverse.channels (universe_of s))
                            (DMXUniverse.masterDimmer (universe_of s)))) None)]).
Proof.
  intros Hopen Ha. rewrite (handleCommand_get_state _ _ _ _ _ _ Ha).
  unfold handleGetState, sendResponse, mbind, M_bind, Eff.bind. rewrite Hopen.
  cbn [Eff.emit]. rewrite !server_universe_run.
  cbn. rewrite !with_universe_same. reflexivity.
Qed.

(** The raw channels after [setChannel(c, v)] on integers. *)
Definition after_setChannel (c v : Z) (channels : list Z) : list Z :=
  if bool_decide (1 <= c <= 512)
  then <[Z.to_nat (c - 1) := Z.max 0 (Z.min 255 v)]> channels
  else channels.

Lemma setChannel_channels c v u :
  safe c -> length (DMXUniverse.channels u) = 512%nat ->
  Eff.state (DMXUniverse.setChannel (of_Z c) (of_Z v) u)
  = DMXUniverse.with_channels u (after_setChannel c v (DMXUniverse.channels u)).
Proof.
  intros Hc Hlen. unfold after_setChannel.
  destruct (decide (1 <= c <= 512)) as [Hin|Hout].
  - rewrite (bool_decide_eq_true_2 _ Hin).
    rewrite setChannel_run_in by (rewrite guard_of_Z by exact Hc; lia).
    cbn [Eff.state fst snd]. unfold DMXUniverse.store.
    rewrite (channel_index c Hin), clamp255_of_Z, (ToUint8_Int_byte _ (clamp_byte v)).
    reflexivity.
  - rewrite (bool_decide_eq_false_2 _ Hout).
    rewrite setChannel_run_out by (rewrite guard_of_Z by exact Hc; lia).
    destruct u. reflexivity.
Qed.

(** X27.  [set_channel], then [get_state].  [set_channel] with an integer
    channel and value answers "ok" and echoes the two numbers as they
    were sent, whatever they are.  The [get_state] that follows shows
    what was stored: the value clamped to 0..255 at a channel in 1..512,
    and no change at all for a channel out of that range; the master
    dimmer is not touched, and [get_state] changes nothing. *)
Theorem set_channel_shows_in_get_state clients readyStateOpen (client : ws)
    (now now' : Z) (iso iso' : string) (c v : Z) (set get : Command.t)
    (s : CompanionServer.t) :
  readyStateOpen client = true ->
  safe c -> length (DMXUniverse.channels (universe_of s)) = 512%nat ->
  Command.action set = "set_channel" ->
  Command.channel set = Some (of_Z c) -> Command.value set = Some (of_Z v) ->
  Command.action get = "get_state" ->
  let r1 := handleCommand clients readyStateOpen client set now iso s in
  let r2 := handleCommand clients readyStateOpen client get now' iso' (Eff.state r1) in
  responses_to client (Eff.trace r1)
  = [Response.mk ok "set_channel" (Some (DataSetChannel (of_Z c) (of_Z v))) None] /\
  responses_to client (Eff.trace r2)
  = [Response.mk ok "get_state"
       (Some (DataState
                (of_Z <$> after_setChannel c v (DMXUniverse.channels (universe_of s)))
                (DMXUniverse.masterDimmer (universe_of s)))) None] /\
  Eff.state r2 = Eff.state r1.
Proof.
  intros Hopen Hc Hlen Hset Hchannel Hvalue Hget. cbv zeta.
  rewrite (get_state_run clients readyStateOpen client get now' iso' _ Hopen Hget).
  cbn [Eff.state Eff.trace fst snd].
  rewrite (handleCommand_set_channel _ _ _ _ _ _ Hset).
  unfold handleSetChannel. rewrite Hchannel, Hvalue.
  unfold sendResponse. rewrite Hopen. unfold mbind, M_bind, Eff.bind.
  cbn [Eff.emit]. rewrite server_universe_run, (setChannel_channels c v _ Hc Hlen).
  cbn [Eff.state Eff.trace Eff.ret Eff.emit fst snd app].
  rewrite app_nil_r.
  change (LogInfoReceived "set_channel" :: ?t ++ ?t') with
    ([LogInfoReceived "set_channel"] ++ t ++ t').
  rewrite !responses_to_app.
  rewrite (responses_to_internal client (universe_event <$> _))
    by (apply fmap_internal; intros e; exact I).
  cbn [responses_to omap list_omap app].
  destruct (decide (client = client)); [|congruence].
  split; [reflexivity|]. split; reflexivity.
Qed.
Definition set_channel_7_to_300 : Command.t :=
  Command.mk "set_channel" None None None None (Some (of_Z 7)) (Some (of_Z 300)) None.

Definition get_state_command : Command.t :=
  Command.mk "get_state" None None None None None None None.

Lemma set_channel_shows_in_get_state_witness :
  let open := fun _ : ws => true in
  let r1 := handleCommand [1%nat] open 1%nat set_channel_7_to_300 0 "t0" quiet_stage in
  let r2 := handleCommand [1%nat] open 1%nat get_state_command 1 "t1" (Eff.state r1) in
  after_setChannel 7 300 (DMXUniverse.channels (universe_of quiet_stage)) !! 6%nat = Some 255 /\
  responses_to 1%nat (Eff.trace r1)
  = [Response.mk ok "set_channel" (Some (DataSetChannel (of_Z 7) (of_Z 300))) None] /\
  responses_to 1%nat (Eff.trace r2)
  = [Response.mk ok "get_state"
       (Some (DataState
                (of_Z <$> after_setChannel 7 300 (DMXUniverse.channels (universe_of quiet_stage)))
                (DMXUniverse.masterDimmer (universe_of quiet_stage)))) None] /\
  Eff.state r2 = Eff.state r1.
Proof.
  cbv zeta. split; [reflexivity|].
  apply (set_channel_shows_in_get_state [1%nat] (fun _ => true) 1%nat 0 1 "t0" "t1" 7 300
           set_channel_7_to_300 get_state_command quiet_stage).
  - reflexivity.
  - unfold safe. lia.
  - reflexivity.
  - reflexivity.
  - reflexivity.
  - reflexivity.
  - reflexivity.
Defined.

(** *** [recall_preset] without a fade *)

Lemma handleCommand_recall_preset clients readyStateOpen client command now iso :
  Command.action command = "recall_preset" ->
  handleCommand clients readyStateOpen client command now iso
  = (Eff.emit (LogInfoReceived "recall_preset");;
     handleRecallPreset clients readyStateOpen client command now).
Proof.
  intros Ha. unfold handleCommand. rewrite Ha. reflexivity.
Qed.

Lemma presets_getById_run id_ s :
  presets (PresetManager.getById id_) s
  = (Eff.value (PresetManager.getById id_ (presetManager s)), s, []).
Proof. destruct s as [e p f]. reflexivity. Qed.

(** X28.  [recall_preset] of an existing preset with a fade time that is
    not above 0 (the command's, or else the preset's).  The snapshot is
    applied to the universe at once, and nothing else of the server
    changes: a fade that is running is not cancelled.  The client gets
    its "ok" first, then every open socket gets [preset_activated], in
    the order of the clients, then the listeners of the recall are
    notified; a closed socket gets nothing.  When the preset holds 512
    byte values, the raw channels are these values afterwards. *)
Theorem instant_recall_applies_the_preset clients readyStateOpen (client : ws)
    (now : Z) (iso id_ : string) (command : Command.t) (preset : PresetManager.Preset)
    (s : CompanionServer.t) :
  readyStateOpen client = true ->
  Command.action command = "recall_preset" ->
  Command.id command = Some id_ -> id_ <> "" ->
  Eff.value (PresetManager.getById id_ (presetManager s)) = Some preset ->
  let fadeTime := default (PresetManager.fadeTime preset) (Command.fadeTime command) in
  gt fadeTime (of_Z 0) = false ->
  let r := handleCommand clients readyStateOpen client command now iso s in
  Eff.value r = Returned /\
  Eff.state r
  = with_universe s
      (Eff.state (DMXUniverse.applySnapshot (PresetManager.channels preset) (universe_of s))) /\
  (engine (Eff.state r)).2 = (engine s).2 /\
  sent (Eff.trace r)
  = Send client
      (Response.mk ok "recall_preset"
         (Some (DataRecall (PresetManager.id preset) fadeTime)) None)
    :: ((fun c => SendEvent c (PresetActivated (PresetManager.id preset)
                                 (PresetManager.name preset)))
          <$> List.filter readyStateOpen clients)
    ++ [PresetRecalled (PresetManager.id preset) (PresetManager.name preset)] /\
  (forall bytes,
      PresetManager.channels preset = of_Z <$> bytes ->
      Forall byte bytes -> length bytes = 512%nat ->
      length (DMXUniverse.channels (universe_of s)) = 512%nat ->
      DMXUniverse.channels (universe_of (Eff.state r)) = bytes).
Proof.
  intros Hopen Ha Hid Hne Hfound. cbv zeta. intros Hfade.
  rewrite (handleCommand_recall_preset _ _ _ _ _ _ Ha).
  unfold handleRecallPreset. rewrite Hid.
  destruct id_ as [|a id']; [congruence|].
  unfold mbind, M_bind, Eff.bind. cbn [Eff.emit].
  rewrite presets_getById_run, Hfound. cbv beta iota zeta. rewrite Hfade.
  rewrite server_universe_run. unfold resume, sendResponse, notifyPresetRecalled.
  rewrite Hopen. unfold mbind, M_bind, Eff.bind. cbn [Eff.emit].
  rewrite broadcast_run. cbn [Eff.ret Eff.value Eff.state Eff.trace fst snd].
  split; [reflexivity|]. split; [reflexivity|]. split; [reflexivity|]. split.
  - cbn [app]. rewrite !app_nil_r.
    change (LogInfoReceived "recall_preset" :: ?t ++ ?t') with
      ([LogInfoReceived "recall_preset"] ++ t ++ t').
    rewrite !sent_app, sent_universe. cbn [sent List.filter outward app].
    f_equal. rewrite sent_app. cbn [sent List.filter outward app]. f_equal.
    induction (List.filter readyStateOpen clients) as [|c l IH]; [reflexivity|].
    cbn. f_equal. exact IH.
  - intros bytes Hbytes Hbyte Hlen Hlen'. cbn [universe_of with_universe engine fst].
    rewrite Hbytes.
    exact (snapshot_round_trip (DMXUniverse.mk bytes (Int 255) []) (universe_of s)
             (conj Hlen Hbyte) Hlen').
Qed.
Definition stored_look : PresetManager.Preset :=
  PresetManager.mkPreset "p1" "Warm" (of_Z <$> replicate 512 7) (of_Z 0) "#ffaa00" None
    "t0" "t0".

Definition stage_with_look : CompanionServer.t :=
  CompanionServer.mk (DMXUniverse.constructor, FadeEngine.constructor) [stored_look]
    (FixtureManager.mk [] []).

Definition recall_look : Command.t :=
  Command.mk "recall_preset" (Some "p1") None None None None None None.

Lemma instant_recall_applies_the_preset_witness :
  let open := fun c : ws => negb (c =? 2)%nat in
  let r := handleCommand [1; 2; 3]%nat open 1%nat recall_look 0 "t1" stage_with_look in
  Eff.value r = Returned /\
  sent (Eff.trace r)
  = [Send 1%nat (Response.mk ok "recall_preset" (Some (DataRecall "p1" (of_Z 0))) None);
     SendEvent 1%nat (PresetActivated "p1" "Warm");
     SendEvent 3%nat (PresetActivated "p1" "Warm");
     PresetRecalled "p1" "Warm"] /\
  DMXUniverse.channels (universe_of (Eff.state r)) = replicate 512 7.
Proof.
  cbv zeta.
  destruct (instant_recall_applies_the_preset [1; 2; 3]%nat (fun c => negb (c =? 2)%nat)
              1%nat 0 "t1" "p1" recall_look stored_look stage_with_look)
    as (Hvalue & _ & _ & Hsent & Hbytes).
  - reflexivity.
  - reflexivity.
  - reflexivity.
  - discriminate.
  - reflexivity.
  - reflexivity.
  - split; [exact Hvalue|]. split; [exact Hsent|].
    apply Hbytes.
    + reflexivity.
    + apply Forall_replicate. unfold byte. lia.
    + apply length_replicate.
    + apply length_replicate.
Defined.
End CompanionLaws.

(** ** The automation server: master dimmer, blackout and trigger *)

Module CommandLaws.
Import JS JSFacts CompanionServer CompanionFacts IntegerFacts UniverseFacts UniverseLaws.
Import CompanionLaws.
Local Open Scope Z_scope.

Lemma handleCommand_master_dimmer clients readyStateOpen client command now iso :
  Command.action command = "master_dimmer" ->
  handleCommand clients readyStateOpen client command now iso
  = (Eff.emit (LogInfoReceived "master_dimmer");;
     handleMasterDimmer readyStateOpen client command;; Eff.ret Returned).
Proof. intros Ha. unfold handleCommand. rewrite Ha. reflexivity. Qed.

Lemma handleCommand_blackout clients readyStateOpen client command now iso :
  Command.action command = "blackout" ->
  handleCommand clients readyStateOpen client command now iso
  = (Eff.emit (LogInfoReceived "blackout");;
     handleBlackout clients readyStateOpen client command now).
Proof. intros Ha. unfold handleCommand. rewrite Ha. reflexivity. Qed.

Lemma handleCommand_trigger clients readyStateOpen client command now iso :
  Command.action command = "trigger" ->
  handleCommand clients readyStateOpen client command now iso
  = (Eff.emit (LogInfoReceived "trigger");;
     handleTrigger readyStateOpen client command;; Eff.ret Returned).
Proof. intros Ha. unfold handleCommand. rewrite Ha. reflexivity. Qed.

Lemma sendResponse_state readyStateOpen client response s :
  Eff.state (sendResponse readyStateOpen client response s) = s.
Proof. unfold sendResponse. destruct (readyStateOpen client); reflexivity. Qed.

Lemma broadcast_state clients readyStateOpen e s :
  Eff.state (broadcast clients readyStateOpen e s) = s.
Proof. rewrite broadcast_run. reflexivity. Qed.

(** X29.  What three commands do to the universe, whether or not the
    socket is still open.  [master_dimmer] with an integer stores it
    clamped to 0..255 and touches no channel.  [blackout] with no fade
    time, or one that is not above 0, zeroes every raw channel at once.
    [trigger] on an integer channel writes 255 when the state is the
    string on, and 0 for any other state that is not empty; a channel
    outside 1..512 is left alone.  Nothing else of the server changes. *)
Theorem commands_reach_the_universe clients readyStateOpen (client : ws) (now : Z)
    (iso : string) (s : CompanionServer.t) :
  let u := universe_of s in
  let run := fun command =>
    Eff.state (handleCommand clients readyStateOpen client command now iso s) in
  (forall command v,
      Command.action command = "master_dimmer" ->
      Command.value command = Some (of_Z v) ->
      run command = with_universe s (DMXUniverse.with_master u (Int (Z.max 0 (Z.min 255 v))))) /\
  (forall command,
      Command.action command = "blackout" ->
      gt (default (of_Z 0) (Command.fadeTime command)) (of_Z 0) = false ->
      run command
      = with_universe s
          (DMXUniverse.with_channels u (replicate (length (DMXUniverse.channels u)) 0))) /\
  (forall command c state,
      Command.action command = "trigger" ->
      Command.channel command = Some (of_Z c) ->
      Command.state command = Some state -> state <> "" ->
      safe c -> length (DMXUniverse.channels u) = 512%nat ->
      run command
      = with_universe s
          (DMXUniverse.with_channels u
             (after_setChannel c (if decide (state = "on") then 255 else 0)
                (DMXUniverse.channels u)))).
Proof.
  cbv zeta. split; [|split].
  - intros command v Ha Hv. rewrite (handleCommand_master_dimmer _ _ _ _ _ _ Ha).
    unfold handleMasterDimmer. rewrite Hv. unfold mbind, M_bind.
    rewrite !bind_state. cbn [Eff.emit Eff.ret Eff.value Eff.state fst snd].
    rewrite sendResponse_state, server_universe_run, setMasterDimmer_run, clamp255_of_Z.
    reflexivity.
  - intros command Ha Hfade. rewrite (handleCommand_blackout _ _ _ _ _ _ Ha).
    unfold handleBlackout. rewrite Hfade. unfold resume, mbind, M_bind.
    rewrite !bind_state. cbn [Eff.emit Eff.ret Eff.value Eff.state fst snd].
    rewrite sendResponse_state, server_universe_run, blackout_run. reflexivity.
  - intros command c state Ha Hc Hstate Hne Hsafe Hlen.
    rewrite (handleCommand_trigger _ _ _ _ _ _ Ha).
    unfold handleTrigger. rewrite Hc, Hstate.
    destruct state as [|a state']; [congruence|]. cbn [missing default from_option id].
    unfold mbind, M_bind. rewrite !bind_state.
    cbn [Eff.emit Eff.ret Eff.value Eff.state fst snd].
    rewrite sendResponse_state, server_universe_run. cbn [Eff.state fst snd].
    destruct (decide (String a state' = "on")).
    + rewrite (setChannel_channels c 255 _ Hsafe Hlen). reflexivity.
    + rewrite (setChannel_channels c 0 _ Hsafe Hlen). reflexivity.
Qed.

Definition trigger_upper_case : Command.t :=
  Command.mk "trigger" None None None None (Some (of_Z 4)) None (Some "ON").

Lemma commands_reach_the_universe_witness :
  let r := handleCommand [] (fun _ => true) 1%nat trigger_upper_case 0 "t0" quiet_stage in
  DMXUniverse.channels (universe_of (Eff.state r)) !! 3%nat = Some 0 /\
  Eff.state r
  = with_universe quiet_stage
      (DMXUniverse.with_channels (universe_of quiet_stage)
         (after_setChannel 4 (if decide ("ON" = "on") then 255 else 0)
            (DMXUniverse.channels (universe_of quiet_stage)))).
Proof.
  cbv zeta. split; [reflexivity|].
  apply (proj2 (proj2 (commands_reach_the_universe [] (fun _ => true) 1%nat 0 "t0"
                         quiet_stage)) trigger_upper_case 4 "ON").
  - reflexivity.
  - reflexivity.
  - reflexivity.
  - discriminate.
  - unfold safe. lia.
  - reflexivity.
Defined.
End CommandLaws.

(** ** The automation server: commands that await a fade *)

Module AwaitLaws.
Import JS JSFacts DoubleFacts CompanionServer CompanionFacts CompanionLaws CommandLaws.
Local Open Scope Z_scope.

(** The array [fadeToBlackout] fades to. *)
Definition dark : list number := replicate 512 (of_Z 0).

(** [blackout] with a fade time above 0 starts the fade and awaits its
    promise, having sent nothing. *)
Lemma blackout_awaits clients readyStateOpen client command now iso d s :
  Command.action command = "blackout" ->
  Command.fadeTime command = Some d ->
  gt d (of_Z 0) = true ->
  let u := (engine s).1 in
  let e := (engine s).2 in
  handleCommand clients readyStateOpen client command now iso s
  = (Awaiting (FadeEngine.created e) (BlackoutDone client d),
     CompanionServer.mk (u, FadeFacts.started dark d now u e) (presetManager s)
       (fixtureManager s),
     LogInfoReceived "blackout"
     :: (Engine <$> (FadeFacts.cancel_trace e
                     ++ [FadeEngine.LogDebugStarting d;
                         FadeEngine.SetInterval FadeEngine.FADE_STEP_INTERVAL]))).
Proof.
  intros Ha Hd Hgt. cbv zeta. rewrite (handleCommand_blackout _ _ _ _ _ _ Ha).
  unfold handleBlackout. rewrite Hd. cbn [default from_option id]. rewrite Hgt.
  unfold FadeEngine.fadeToBlackout, fadeEngine, Eff.zoom, mbind, M_bind, Eff.bind.
  cbn [Eff.emit]. destruct s as [[u e] p f]. cbn [engine fst snd presetManager fixtureManager].
  rewrite (FadeFacts.fadeTo_start _ d now u e (FadeFacts.gt_not_le _ _ Hgt)).
  cbn [await Eff.ret]. cbv beta iota. rewrite app_nil_r. reflexivity.
Qed.

Lemma resume_blackout clients readyStateOpen client d s :
  readyStateOpen client = true ->
  resume clients readyStateOpen (BlackoutDone client d) s
  = (tt, s, [Send client (Response.mk ok "blackout" (Some (DataBlackout d)) None)]).
Proof. intros Hopen. unfold resume, sendResponse. rewrite Hopen. reflexivity. Qed.

Lemma responses_to_engine client (tr : list FadeEngine.event) :
  responses_to client (Engine <$> tr) = [].
Proof. apply responses_to_internal, fmap_internal. intros e. exact I. Qed.

Lemma resolved_notification u :
  FadeLaws.resolved (FadeEngine.Universe <$> UniverseFacts.notification u) = [].
Proof.
  unfold FadeLaws.resolved.
  induction (UniverseFacts.notification u) as [|ev evs IH]; [reflexivity|exact IH].
Qed.

(** C9 at the input on which it fails: the frame
    {action: blackout, fadeTime: 1e999}, whose fade time [JSON.parse]
    reads as Infinity, on an open socket.  The handler starts the fade
    and awaits its promise without having sent anything; whatever ticks
    of the interval follow and whenever, none completes the fade: the
    engine keeps the promise pending, and the response that the rest of
    the handler would send is not sent (only another fade or a
    cancellation would resolve the promise).  With a fade time that is
    finite and above 0 the same handler is answered: the first tick at or
    after the fade time resolves the promise it awaits. *)
Theorem blackout_without_end_is_never_answered clients readyStateOpen (client : ws)
    (now : Z) (iso : string) (command : Command.t) (s : CompanionServer.t) :
  readyStateOpen client = true ->
  Command.action command = "blackout" ->
  Command.fadeTime command = Some (S754_infinity false) ->
  let r := handleCommand clients readyStateOpen client command now iso s in
  let e := (engine (Eff.state r)).2 in
  (exists p,
     Eff.value r = Awaiting p (BlackoutDone client (S754_infinity false)) /\
     responses_to client (Eff.trace r) = [] /\
     Engine (FadeEngine.SetInterval FadeEngine.FADE_STEP_INTERVAL) ∈ Eff.trace r /\
     FadeEngine.fadeResolve e = Some p /\
     (forall nows u,
        let ticks := Eff.for_of nows FadeEngine.tick (u, e) in
        (Eff.state ticks).2 = e /\ FadeLaws.resolved (Eff.trace ticks) = []) /\
     (forall s',
        responses_to client
          (Eff.trace (resume clients readyStateOpen
                        (BlackoutDone client (S754_infinity false)) s'))
        = [Response.mk ok "blackout" (Some (DataBlackout (S754_infinity false))) None])) /\
  (forall d command' now',
     double d -> isFinite d = true -> gt d (of_Z 0) = true ->
     Command.action command' = "blackout" -> Command.fadeTime command' = Some d ->
     le d (of_Z (now' - now)) = true ->
     let r' := handleCommand clients readyStateOpen client command' now iso s in
     exists p',
       Eff.value r' = Awaiting p' (BlackoutDone client d) /\
       responses_to client (Eff.trace r') = [] /\
       (forall u,
          FadeLaws.resolved
            (Eff.trace (FadeEngine.tick now' (u, (engine (Eff.state r')).2))) = [p']) /\
       (forall s',
          responses_to client
            (Eff.trace (resume clients readyStateOpen (BlackoutDone client d) s'))
          = [Response.mk ok "blackout" (Some (DataBlackout d)) None])).
Proof.
  intros Hopen Ha Hd. cbv zeta. split.
  - rewrite (blackout_awaits _ _ _ _ _ _ _ _ Ha Hd eq_refl).
    cbn [Eff.value Eff.state Eff.trace fst snd engine].
    eexists. split; [reflexivity|]. split; [|split; [|split; [reflexivity|split]]].
    + change (LogInfoReceived "blackout" :: ?t) with ([LogInfoReceived "blackout"] ++ t).
      rewrite responses_to_app, responses_to_engine. reflexivity.
    + right. apply list_elem_of_fmap. eexists. split; [reflexivity|].
      apply elem_of_app. right. right. left.
    + intros nows u. cbv zeta.
      destruct (FadeLaws.ticks_without_end
                  (FadeEngine.mkFade dark (S754_infinity false)
                     (of_Z <$> DMXUniverse.channels (engine s).1) now)
                  (Some (FadeEngine.created (engine s).2))
                  (S (FadeEngine.created (engine s).2)) nows u (or_intror eq_refl))
        as (Hstate & Hresolved & _).
      split; [exact Hstate|exact Hresolved].
    + intros s'. rewrite (resume_blackout _ _ _ _ _ Hopen). cbn.
      destruct (decide (client = client)); [reflexivity|congruence].
  - intros d command' now' Hdouble Hfinite Hgt Ha' Hd' Hle. cbv zeta.
    rewrite (blackout_awaits _ _ _ _ _ _ _ _ Ha' Hd' Hgt).
    cbn [Eff.value Eff.state Eff.trace fst snd engine].
    eexists. split; [reflexivity|]. split; [|split].
    + change (LogInfoReceived "blackout" :: ?t) with ([LogInfoReceived "blackout"] ++ t).
      rewrite responses_to_app, responses_to_engine. reflexivity.
    + intros u.
      rewrite (FadeFacts.tick_run now' u
                 (FadeFacts.started dark d now (engine s).1 (engine s).2)
                 (FadeEngine.mkFade dark d (of_Z <$> DMXUniverse.channels (engine s).1) now)
                 eq_refl).
      cbv zeta.
      unfold FadeEngine.progress_at.
      cbn [FadeEngine.startTime FadeEngine.durationMs Eff.trace snd].
      rewrite (FadeFacts.progress_reaches_one d (now' - now) Hdouble Hfinite Hgt Hle).
      unfold FadeLaws.resolved. rewrite omap_app.
      fold (FadeLaws.resolved (FadeEngine.Universe <$> UniverseFacts.notification
              (FadeFacts.applied (FadeFacts.interpolated
                 (FadeEngine.mkFade dark d (of_Z <$> DMXUniverse.channels (engine s).1) now)
                 (Math_fmin (of_Z 1) (div (of_Z (now' - now)) d))) u))).
      rewrite resolved_notification. reflexivity.
    + intros s'. rewrite (resume_blackout _ _ _ _ _ Hopen). cbn.
      destruct (decide (client = client)); [reflexivity|congruence].
Qed.

Definition blackout_over_infinity : Command.t :=
  Command.mk "blackout" None None None (Some (S754_infinity false)) None None None.

Definition blackout_over_a_second : Command.t :=
  Command.mk "blackout" None None None (Some (of_Z 1000)) None None None.

Lemma blackout_without_end_is_never_answered_witness :
  let open := fun _ : ws => true in
  let r := handleCommand [1%nat] open 1%nat blackout_over_infinity 0 "t0" quiet_stage in
  let r' := handleCommand [1%nat] open 1%nat blackout_over_a_second 0 "t0" quiet_stage in
  (Eff.value r = Awaiting 0%nat (BlackoutDone 1%nat (S754_infinity false)) /\
   responses_to 1%nat (Eff.trace r) = [] /\
   forall nows u,
     FadeLaws.resolved
       (Eff.trace (Eff.for_of nows FadeEngine.tick (u, (engine (Eff.state r)).2))) = []) /\
  (Eff.value r' = Awaiting 0%nat (BlackoutDone 1%nat (of_Z 1000)) /\
   forall u,
     FadeLaws.resolved
       (Eff.trace (FadeEngine.tick 1000 (u, (engine (Eff.state r')).2))) = [0%nat]).
Proof.
  cbv zeta.
  destruct (blackout_without_end_is_never_answered [1%nat] (fun _ => true) 1%nat 0 "t0"
              blackout_over_infinity quiet_stage eq_refl eq_refl eq_refl)
    as [(p & Hvalue & Hnone & _ & _ & Hticks & _) Hfinite].
  split.
  - split; [reflexivity|]. split; [exact Hnone|].
    intros nows u. exact (proj2 (Hticks nows u)).
  - destruct (Hfinite (of_Z 1000) blackout_over_a_second 1000) as (p' & Hvalue' & _ & Htick & _).
    + reflexivity.
    + reflexivity.
    + reflexivity.
    + reflexivity.
    + reflexivity.
    + reflexivity.
    + split; [reflexivity|]. intros u.
      rewrite (Htick u). injection Hvalue' as <-. reflexivity.
Defined.
End AwaitLaws.

(** ** socket-ui.ts: the throttle of the state updates *)

Module SocketUIServer.
Import JS.
Local Open Scope Z_scope.

Definition UI_THROTTLE_MS : Z := 33.

Inductive event :=
| SetTimeout (ms : Z)
| EmitDmxState (channels : list number) (master : integral).

(** The two fields of the throttle; [throttleTimer] is [true] for a
    timer handle and [false] for [null]. *)
Record t := mk {
  throttleTimer : bool;
  pendingUpdate : bool
}.

Definition constructor : t := mk false false.

Definition M := Eff.M t event.

(** [emitDMXState] when the universe is [u]. *)
Definition emitDMXState (u : DMXUniverse.t) : M unit :=
  Eff.emit (EmitDmxState (Eff.value (DMXUniverse.getRawChannelsArray u))
                         (Eff.value (DMXUniverse.getMasterDimmer u))).

(** The callback handed to [setTimeout], run when the universe is [u]. *)
Definition onThrottleTimer (u : DMXUniverse.t) : M unit :=
  s ← Eff.get;
  (if pendingUpdate s then
     emitDMXState u;;
     s ← Eff.get; Eff.put (mk (throttleTimer s) false)
   else Eff.ret tt);;
  s ← Eff.get; Eff.put (mk false (pendingUpdate s)).

(** The listener handed to [universe.onChange]. *)
Definition onUniverseChange : M unit :=
  s ← Eff.get; Eff.put (mk (throttleTimer s) true);;
  s ← Eff.get;
  if negb (throttleTimer s) then
    Eff.emit (SetTimeout UI_THROTTLE_MS);;
    s ← Eff.get; Eff.put (mk true (pendingUpdate s))
  else Eff.ret tt.
End SocketUIServer.

Module ThrottleLaws.
Import JS SocketUIServer.
Local Open Scope Z_scope.

(** What the event loop runs: the listener after a change of the
    universe, or the callback of the timer, when the universe is [u]. *)
Inductive input :=
| Change
| Fire (u : DMXUniverse.t).

Definition step (i : input) : M unit :=
  match i with
  | Change => onUniverseChange
  | Fire u => onThrottleTimer u
  end.

Definition run (l : list input) : M unit := Eff.for_of l step.

(** The callback of the timer runs only while a timer is set. *)
Fixpoint possible (l : list input) (s : t) : Prop :=
  match l with
  | [] => True
  | i :: l' =>
      match i with
      | Fire _ => throttleTimer s = true
      | Change => True
      end /\ possible l' (Eff.state (step i s))
  end.

Definition fired (l : list input) : list DMXUniverse.t :=
  omap (fun i => match i with Fire u => Some u | Change => None end) l.

Definition emitted (tr : list event) : list (list number * integral) :=
  omap (fun e => match e with
                 | EmitDmxState channels master => Some (channels, master)
                 | SetTimeout _ => None
                 end) tr.

Definition timers (tr : list event) : list Z :=
  omap (fun e => match e with
                 | SetTimeout ms => Some ms
                 | EmitDmxState _ _ => None
                 end) tr.

Definition raw_state (u : DMXUniverse.t) : list number * integral :=
  (of_Z <$> DMXUniverse.channels u, DMXUniverse.masterDimmer u).

(** Whether a timer is set after the inputs [l], when [before] tells
    whether one was set before them. *)
Definition timer_after (before : bool) (l : list input) : bool :=
  match last l with
  | None => before
  | Some Change => true
  | Some (Fire _) => false
  end.

Definition one_if (b : bool) : nat := if b then 1%nat else 0%nat.

Lemma onUniverseChange_run b :
  onUniverseChange (mk b b)
  = (tt, mk true true, if b then [] else [SetTimeout UI_THROTTLE_MS]).
Proof. destruct b; reflexivity. Qed.

Lemma onThrottleTimer_run u :
  onThrottleTimer u (mk true true)
  = (tt, mk false false,
     [EmitDmxState (of_Z <$> DMXUniverse.channels u) (DMXUniverse.masterDimmer u)]).
Proof. reflexivity. Qed.

Lemma run_cons i l s :
  run (i :: l) s
  = (tt, Eff.state (run l (Eff.state (step i s))),
     Eff.trace (step i s) ++ Eff.trace (run l (Eff.state (step i s)))).
Proof.
  unfold run. cbn [Eff.for_of]. unfold Eff.bind.
  destruct (step i s) as [[[] s1] t1]. cbn [Eff.state Eff.trace fst snd].
  destruct (Eff.for_of l step s1) as [[[] s2] t2]. reflexivity.
Qed.

Lemma timer_after_cons before i l :
  timer_after before (i :: l)
  = timer_after (match i with Change => true | Fire _ => false end) l.
Proof.
  unfold timer_after. destruct l as [|j l]; [destruct i; reflexivity|].
  rewrite last_cons. destruct (last (j :: l)) eqn:Hlast; [reflexivity|].
  apply last_None in Hlast. discriminate.
Qed.

Lemma run_throttled l : forall b,
  possible l (mk b b) ->
  let r := run l (mk b b) in
  Eff.state r = mk (timer_after b l) (timer_after b l) /\
  emitted (Eff.trace r) = raw_state <$> fired l /\
  (length (timers (Eff.trace r)) + one_if b
   = length (fired l) + one_if (timer_after b l))%nat /\
  Forall (fun ms => ms = UI_THROTTLE_MS) (timers (Eff.trace r)).
Proof.
  induction l as [|i l IH]; intros b Hl; cbv zeta.
  - cbn. repeat split; constructor.
  - rewrite run_cons, timer_after_cons. cbn [Eff.state Eff.trace fst snd].
    destruct Hl as [Hi Hl]. unfold emitted, timers. rewrite !omap_app.
    fold (emitted (Eff.trace (step i (mk b b)))) (timers (Eff.trace (step i (mk b b)))).
    destruct i as [|u]; cbn [step] in *.
    + rewrite onUniverseChange_run in *. cbn [Eff.state Eff.trace fst snd] in *.
      destruct (IH true Hl) as (Hs & He & Ht & Hms). cbv zeta in Hs, He, Ht, Hms.
      fold (emitted (Eff.trace (run l (mk true true)))).
      fold (timers (Eff.trace (run l (mk true true)))).
      split; [exact Hs|]. destruct b; cbn [emitted timers omap list_omap app fired].
      * fold (fired l). split; [exact He|]. split; [cbn in Ht |- *; lia|exact Hms].
      * fold (fired l). split; [exact He|].
        split; [cbn in Ht |- *; lia|]. constructor; [reflexivity|exact Hms].
    + cbn in Hi. subst b. rewrite onThrottleTimer_run in *.
      cbn [Eff.state Eff.trace fst snd] in *.
      destruct (IH false Hl) as (Hs & He & Ht & Hms). cbv zeta in Hs, He, Ht, Hms.
      fold (emitted (Eff.trace (run l (mk false false)))).
      fold (timers (Eff.trace (run l (mk false false)))).
      split; [exact Hs|]. cbn [emitted timers omap list_omap app fired].
      fold (fired l) (emitted (Eff.trace (run l (mk false false)))).
      split; [cbn; f_equal; exact He|]. split; [cbn in Ht |- *; lia|exact Hms].
Qed.

(** X30.  The throttle of the 'dmx:state' updates.  However the changes
    of the universe and the expiries of the timer interleave, every
    expiry sends one update, which carries the raw channels and the master
    dimmer of that moment, not those of the changes; a timer is set, for
    33 ms, by the first change and by the first change after each expiry
    only, so that at most one is running.  No change is lost: a timer is
    running at the end exactly when the last thing that happened was a
    change. *)
Theorem throttle_sends_the_latest_state (l : list input) :
  possible l constructor ->
  let r := run l constructor in
  emitted (Eff.trace r) = raw_state <$> fired l /\
  Forall (fun ms => ms = UI_THROTTLE_MS) (timers (Eff.trace r)) /\
  (length (timers (Eff.trace r))
   = length (fired l) + one_if (throttleTimer (Eff.state r)))%nat /\
  throttleTimer (Eff.state r) = timer_after false l /\
  pendingUpdate (Eff.state r) = throttleTimer (Eff.state r).
Proof.
  intros Hl. cbv zeta. destruct (run_throttled l false Hl) as (Hs & He & Ht & Hms).
  cbv zeta in Hs, He, Ht, Hms. fold constructor in Hs, He, Ht, Hms.
  rewrite Hs. cbn [throttleTimer pendingUpdate].
  split; [exact He|]. split; [exact Hms|]. split; [cbn in Ht; lia|]. split; reflexivity.
Qed.

Definition bright : DMXUniverse.t :=
  DMXUniverse.mk (<[0%nat := 255]> (replicate 512 0)) (Int 255) [].

Lemma throttle_sends_the_latest_state_witness :
  let l := [Change; Change; Change; Fire bright; Change] in
  let r := run l constructor in
  Eff.trace r
  = [SetTimeout 33; EmitDmxState (of_Z <$> DMXUniverse.channels bright) (Int 255);
     SetTimeout 33] /\
  emitted (Eff.trace r) = raw_state <$> fired l /\
  Forall (fun ms => ms = UI_THROTTLE_MS) (timers (Eff.trace r)) /\
  (length (timers (Eff.trace r))
   = length (fired l) + one_if (throttleTimer (Eff.state r)))%nat /\
  throttleTimer (Eff.state r) = timer_after false l /\
  pendingUpdate (Eff.state r) = throttleTimer (Eff.state r).
Proof.
  cbv zeta. split; [reflexivity|].
  apply (throttle_sends_the_latest_state [Change; Change; Change; Fire bright; Change]).
  cbn. repeat split.
Defined.
End ThrottleLaws.
